(** * KERI transaction event log (TEL) verifier: keri.vdr.eventing

    A shallow embedding of [src/keri/vdr/eventing.py]: the event
    constructors ([incept], [rotate], [state], [query]), the per-registry
    verifier [Tever] and the dispatcher [Tevery], followed by the properties
    of the specification that are stated about them.

    Python objects are embedded as records, [None]-able arguments as
    [option], exceptions as the [Raise] case of [result]; methods that touch
    the registry store, the cue deck or the verifier's own attributes are
    state transformers that keep the state reached when an exception is
    raised, as Python does. *)

From Stdlib Require Import ZArith Lia Ascii String HexString.
From stdpp Require Import gmap strings list fin_maps sorting.

Local Open Scope string_scope.

(** ** Exceptions and results *)

(** The exception classes the module raises or lets through.  [MapFullError]
    stands for a failure of the key-value store under a write. *)
Inductive exn :=
  | ValueError
  | TypeError
  | KeyError
  | ValidationError
  | MissingAnchorError
  | MissingWitnessSignatureError
  | OutOfOrderError
  | LikelyDuplicitousError
  | AttributeError
  | IndexError
  | MapFullError.

#[global] Instance exn_eq_dec : EqDecision exn.
Proof. solve_decision. Defined.

Inductive result (A : Type) :=
  | Ok (a : A)
  | Raise (e : exn).
Arguments Ok {A} a.
Arguments Raise {A} e.

Definition rbind {A B} (c : result A) (k : A → result B) : result B :=
  match c with
  | Ok a => k a
  | Raise e => Raise e
  end.

Declare Scope res_scope.
Delimit Scope res_scope with res.
Notation "x <- c ;; k" := (rbind c (fun x => k))
  (at level 100, c at next level, right associativity) : res_scope.
Notation "c ;;; k" := (rbind c (fun _ => k))
  (at level 100, right associativity) : res_scope.

(** [check b e]: [if b: raise e]. *)
Definition check (b : bool) (e : exn) : result unit :=
  if b then Raise e else Ok tt.

Definition is_ok {A} (r : result A) : bool :=
  match r with Ok _ => true | Raise _ => false end.

(** ** Python values and built-ins *)

(** An argument that the callers pass as [None], an [int] or a [str]
    (the [toad] of the constructors and of [valAnchorBigs]). *)
Inductive pyarg :=
  | PyNone
  | PyInt (n : Z)
  | PyStr (s : string).

Definition hex_of_Z (n : Z) : string :=
  match n with
  | Z0 => "0"
  | Zpos p => HexString.Raw.of_pos p ""
  | Zneg p => String "-"%char (HexString.Raw.of_pos p "")
  end.

(** ["{:x}".format(v)]: the [x] presentation type is defined for integers
    only; [str.__format__] rejects it with [ValueError], and [None] has no
    format specification at all. *)
Definition format_x (v : pyarg) : result string :=
  match v with
  | PyInt n => Ok (hex_of_Z n)
  | PyStr _ => Raise ValueError
  | PyNone => Raise TypeError
  end.

Fixpoint hex_digits (s : string) (acc : N) : option N :=
  match s with
  | EmptyString => Some acc
  | String ch s' =>
      match HexString.ascii_to_digit ch with
      | Some d => hex_digits s' (d + 16 * acc)%N
      | None => None
      end
  end.

(** [int(s, 16)] on a plain run of hexadecimal digits; anything else is
    [ValueError]. *)
Definition int16 (s : string) : result Z :=
  match s with
  | EmptyString => Raise ValueError
  | _ => match hex_digits s 0%N with
         | Some n => Ok (Z.of_N n)
         | None => Raise ValueError
         end
  end.

(** Ordering and inequality of a [pyarg] against an [int]: ordering a [str]
    or [None] against an [int] is a [TypeError]; [!=] never raises. *)
Definition py_lt (v : pyarg) (n : Z) : result bool :=
  match v with
  | PyInt m => Ok (bool_decide (m < n)%Z)
  | _ => Raise TypeError
  end.

Definition py_gt (v : pyarg) (n : Z) : result bool :=
  match v with
  | PyInt m => Ok (bool_decide (n < m)%Z)
  | _ => Raise TypeError
  end.

Definition py_ne (v : pyarg) (n : Z) : bool :=
  match v with
  | PyInt m => bool_decide (m ≠ n)
  | _ => true
  end.

(** [len(x)] as a Python [int]. *)
Definition len {A} (l : list A) : Z := Z.of_nat (length l).

(** Truth value of a list ([if baks:]). *)
Definition truthy {A} (l : list A) : bool :=
  match l with [] => false | _ => true end.

(** ** Ordered sets ([orderedset.OrderedSet]) *)

(** An ordered set is kept as the duplicate-free list of its members in
    insertion order.  [oset l] keeps the first occurrence of each member;
    [a - b] keeps the order of [a]; [a | b] appends the new members of [b].
    The intersection [a & b] is left to the library (see [oset_inter]
    below): the module only compares it with [b] and tests it for
    emptiness. *)
Fixpoint oset (l : list string) : list string :=
  match l with
  | [] => []
  | x :: l' => x :: list_difference (oset l') [x]
  end.

Definition oset_diff (a b : list string) : list string := list_difference a b.
Definition oset_union (a b : list string) : list string :=
  (a ++ list_difference b a)%list.

(** ** Events *)

Module Ilks.
Inductive t := vcp | vrt | iss | rev | bis | brv | ksn | qry | ixn.
End Ilks.

#[global] Instance ilk_eq_dec : EqDecision Ilks.t.
Proof. solve_decision. Defined.

Module TraitDex.
Definition NoBackers : string := "NB".
End TraitDex.

(** [SealEvent(i, s, d)]: the triple that binds a KEL event to a TEL event,
    as the [ra] field of [bis] and [brv] carries it. *)
Record SealEvent := {
  seal_i : string;
  seal_s : string;
  seal_d : string
}.

#[global] Instance seal_eq_dec : EqDecision SealEvent.
Proof. solve_decision. Defined.

(** A member of the [a] list of a KEL event: a dict whose labels depend on
    the kind of seal (an event seal has [i], [s] and [d], a digest seal only
    [d]).  A field is [None] when its label is absent from the dict. *)
Record Seal := {
  sl_i : option string;
  sl_s : option string;
  sl_d : option string
}.

#[global] Instance sl_eq_dec : EqDecision Seal.
Proof. solve_decision. Defined.

(** The event dict [ked].  [v], [i], [s] and [t] belong to every event; a
    field of the others is [None] when its label is absent from the dict. *)
Record Ked := {
  k_v : string;
  k_i : string;
  k_s : string;
  k_t : Ilks.t;
  k_ii : option string;
  k_c : option (list string);
  k_bt : option string;
  k_b : option (list string);
  k_p : option string;
  k_br : option (list string);
  k_ba : option (list string);
  k_ri : option string;
  k_ra : option SealEvent;
  k_dt : option string
}.

#[global] Instance ked_eq_dec : EqDecision Ked.
Proof. solve_decision. Defined.

(** A [Serder]: the event dict with its digest ([serder.dig],
    [serder.diger.qb64b], [serder.digb]).  The serialisation [serder.raw] is
    identified with the value itself. *)
Record Serder := {
  ked : Ked;
  dig : string
}.

#[global] Instance serder_eq_dec : EqDecision Serder.
Proof. solve_decision. Defined.

(** [k in serder.ked] for the labels of the [*_LABELS] lists. *)
Definition has_label (k : Ked) (l : string) : bool :=
  if decide (l = "v") then true
  else if decide (l = "i") then true
  else if decide (l = "s") then true
  else if decide (l = "t") then true
  else if decide (l = "ii") then bool_decide (is_Some (k_ii k))
  else if decide (l = "c") then bool_decide (is_Some (k_c k))
  else if decide (l = "bt") then bool_decide (is_Some (k_bt k))
  else if decide (l = "b") then bool_decide (is_Some (k_b k))
  else if decide (l = "p") then bool_decide (is_Some (k_p k))
  else if decide (l = "br") then bool_decide (is_Some (k_br k))
  else if decide (l = "ba") then bool_decide (is_Some (k_ba k))
  else if decide (l = "ri") then bool_decide (is_Some (k_ri k))
  else if decide (l = "ra") then bool_decide (is_Some (k_ra k))
  else if decide (l = "dt") then bool_decide (is_Some (k_dt k))
  else false.

Definition VCP_LABELS : list string := ["v"; "i"; "s"; "t"; "bt"; "b"; "c"].
Definition VRT_LABELS : list string :=
  ["v"; "i"; "s"; "t"; "p"; "bt"; "b"; "ba"; "br"].
Definition ISS_LABELS : list string := ["v"; "i"; "s"; "t"; "ri"; "dt"].
Definition BIS_LABELS : list string := ["v"; "i"; "s"; "t"; "ra"; "dt"].
Definition REV_LABELS : list string := ["v"; "i"; "s"; "t"; "p"; "dt"].
Definition BRV_LABELS : list string := ["v"; "i"; "s"; "t"; "ra"; "p"; "dt"].

(** [for k in labels: if k not in ked: raise ValidationError]. *)
Definition check_labels (labels : list string) (k : Ked) : result unit :=
  check (negb (forallb (has_label k) labels)) ValidationError.

(** [ked["x"]] on an optional field. *)
Definition getitem {A} (o : option A) : result A :=
  match o with
  | Some a => Ok a
  | None => Raise KeyError
  end.

(** The state notice built by [state] ([ksn] body). *)
Record Ksn := {
  ksn_v : string;
  ksn_i : string;
  ksn_s : string;
  ksn_d : string;
  ksn_ii : string;
  ksn_dt : string;
  ksn_et : Ilks.t;
  ksn_a : Z * string;
  ksn_bt : string;
  ksn_br : list string;
  ksn_ba : list string;
  ksn_b : list string;
  ksn_c : list string
}.

(** An indexed backer signature ([Siger]); the store keeps its [qb64b],
    which is identified with the value. *)
Record Siger := {
  siger_index : nat;
  siger_qb64 : string
}.

#[global] Instance siger_eq_dec : EqDecision Siger.
Proof. solve_decision. Defined.

(** The anchor passed with an event: sequence number and digest of the
    anchoring KEL event. *)
Record Seqner := { seqner_sn : Z }.
Record Diger := { diger_qb64 : string }.

(** A backer prefix as [valAnchorBigs] receives it: a [str] out of a
    verifier's [baks], or a [bytes] out of [getBackerState]. *)
Inductive pytext :=
  | Str (s : string)
  | Bytes (s : string).

#[global] Instance pytext_eq_dec : EqDecision pytext.
Proof. solve_decision. Defined.

Definition text_of (x : pytext) : string :=
  match x with Str s | Bytes s => s end.

(** [bak.encode("utf-8")]: a method of [str] that [bytes] does not have. *)
Definition encode (x : pytext) : result string :=
  match x with
  | Str s => Ok s
  | Bytes _ => Raise AttributeError
  end.

Fixpoint encode_all (l : list pytext) : result (list string) :=
  match l with
  | [] => Ok []
  | x :: l' => (y <- encode x ;; ys <- encode_all l' ;; Ok (y :: ys))%res
  end.

(** The query dict handed to [core.eventing.query]; a value is a [str] or
    [None]. *)
Abbreviation Qry := (gmap string (option string)).

(** A notice on the cue deck. *)
Inductive Cue :=
  | CueQuery (pre : string) (sn : Z).

(** ** The stores *)

(** Keys of the sub-databases: [dgKey(pre, dig)] and [snKey(pre, sn)]. *)
Abbreviation DgKey := (string * string)%type.
Abbreviation SnKey := (string * Z)%type.

Definition dgKey (pre dig : string) : DgKey := (pre, dig).
Definition snKey (pre : string) (sn : Z) : SnKey := (pre, sn).

(** [nsKey(comps)] joins its components with a colon. *)
Definition nsKey (comps : list string) : string := String.concat ":" comps.

(** An event of the controlling KEL as [verifyAnchor] reads it back: its
    digest and its [a] field, a list of seals or [None]. *)
Record KEvent := {
  kel_dig : string;
  kel_a : option (list Seal)
}.

(** The KEL store ([basing.Baser]), read only: the digests logged at
    [snKey(pre, sn)] and the events at [dgKey(pre, dig)]. *)
Record Baser := {
  kels : gmap SnKey (list string);
  evts : gmap DgKey KEvent
}.

Definition getKeLast (db : Baser) (key : SnKey) : option string :=
  kels db !! key ≫= last.

Definition getEvt (db : Baser) (key : DgKey) : option KEvent :=
  evts db !! key.

(** The attributes of a [Tever].  Its [reger], [db] and [cues] are the
    objects of the [Tevery] that owns it and live in the [World] below. *)
Record Tever := {
  tv_regk : option string;
  tv_local : bool;
  tv_pre : string;
  tv_prefixer : string;
  tv_sn : Z;
  tv_serder : Serder;
  tv_ilk : Ilks.t;
  tv_toad : Z;
  tv_baks : list string;
  tv_cuts : list string;
  tv_adds : list string;
  tv_noBackers : bool
}.

(** The registry store ([viring.Registry]): one finite map per
    sub-database and the cache of verifiers. *)
Record Registry := {
  tvts : gmap DgKey Serder;
  tels : gmap SnKey string;
  ancs : gmap DgKey (Z * string);
  tibs : gmap DgKey (list Siger);
  baks : gmap DgKey (list string);
  tets : gmap DgKey string;
  taes : gmap SnKey string;
  twes : gmap SnKey string;
  oots : gmap SnKey string;
  states : gmap string Ksn;
  tevers : gmap string Tever
}.

Definition upd_tvts (f : _ → _) (r : Registry) : Registry :=
  {| tvts := f (tvts r);
     tels := tels r;
     ancs := ancs r;
     tibs := tibs r;
     baks := baks r;
     tets := tets r;
     taes := taes r;
     twes := twes r;
     oots := oots r;
     states := states r;
     tevers := tevers r |}.

Definition upd_tels (f : _ → _) (r : Registry) : Registry :=
  {| tvts := tvts r;
     tels := f (tels r);
     ancs := ancs r;
     tibs := tibs r;
     baks := baks r;
     tets := tets r;
     taes := taes r;
     twes := twes r;
     oots := oots r;
     states := states r;
     tevers := tevers r |}.

Definition upd_ancs (f : _ → _) (r : Registry) : Registry :=
  {| tvts := tvts r;
     tels := tels r;
     ancs := f (ancs r);
     tibs := tibs r;
     baks := baks r;
     tets := tets r;
     taes := taes r;
     twes := twes r;
     oots := oots r;
     states := states r;
     tevers := tevers r |}.

Definition upd_tibs (f : _ → _) (r : Registry) : Registry :=
  {| tvts := tvts r;
     tels := tels r;
     ancs := ancs r;
     tibs := f (tibs r);
     baks := baks r;
     tets := tets r;
     taes := taes r;
     twes := twes r;
     oots := oots r;
     states := states r;
     tevers := tevers r |}.

Definition upd_baks (f : _ → _) (r : Registry) : Registry :=
  {| tvts := tvts r;
     tels := tels r;
     ancs := ancs r;
     tibs := tibs r;
     baks := f (baks r);
     tets := tets r;
     taes := taes r;
     twes := twes r;
     oots := oots r;
     states := states r;
     tevers := tevers r |}.

Definition upd_tets (f : _ → _) (r : Registry) : Registry :=
  {| tvts := tvts r;
     tels := tels r;
     ancs := ancs r;
     tibs := tibs r;
     baks := baks r;
     tets := f (tets r);
     taes := taes r;
     twes := twes r;
     oots := oots r;
     states := states r;
     tevers := tevers r |}.

Definition upd_taes (f : _ → _) (r : Registry) : Registry :=
  {| tvts := tvts r;
     tels := tels r;
     ancs := ancs r;
     tibs := tibs r;
     baks := baks r;
     tets := tets r;
     taes := f (taes r);
     twes := twes r;
     oots := oots r;
     states := states r;
     tevers := tevers r |}.

Definition upd_twes (f : _ → _) (r : Registry) : Registry :=
  {| tvts := tvts r;
     tels := tels r;
     ancs := ancs r;
     tibs := tibs r;
     baks := baks r;
     tets := tets r;
     taes := taes r;
     twes := f (twes r);
     oots := oots r;
     states := states r;
     tevers := tevers r |}.

Definition upd_oots (f : _ → _) (r : Registry) : Registry :=
  {| tvts := tvts r;
     tels := tels r;
     ancs := ancs r;
     tibs := tibs r;
     baks := baks r;
     tets := tets r;
     taes := taes r;
     twes := twes r;
     oots := f (oots r);
     states := states r;
     tevers := tevers r |}.

Definition upd_states (f : _ → _) (r : Registry) : Registry :=
  {| tvts := tvts r;
     tels := tels r;
     ancs := ancs r;
     tibs := tibs r;
     baks := baks r;
     tets := tets r;
     taes := taes r;
     twes := twes r;
     oots := oots r;
     states := f (states r);
     tevers := tevers r |}.

Definition upd_tevers (f : _ → _) (r : Registry) : Registry :=
  {| tvts := tvts r;
     tels := tels r;
     ancs := ancs r;
     tibs := tibs r;
     baks := baks r;
     tets := tets r;
     taes := taes r;
     twes := twes r;
     oots := oots r;
     states := states r;
     tevers := f (tevers r) |}.

(** What a [Tevery] shares with its verifiers: the registry store, the KEL
    store and the cue deck. *)
Record World := {
  reger : Registry;
  db : Baser;
  cues : list Cue
}.

Definition set_reger (r : Registry) (w : World) : World :=
  {| reger := r; db := db w; cues := cues w |}.

Definition set_db (d : Baser) (w : World) : World :=
  {| reger := reger w; db := d; cues := cues w |}.

Definition append_cue (c : Cue) (w : World) : World :=
  {| reger := reger w; db := db w; cues := (cues w ++ [c])%list |}.

(** ** Collaborators outside the module

    What [eventing.py] imports and calls but does not define: the
    cryptographic material classes of [keri.core.coring], [ample] and
    [verifySigs] of [keri.core.eventing], the intersection of the
    ordered-set library, [dgKey] of [keri.db.dbing] on a digest that is not
    there, the clock, and the point at which the key-value store refuses a
    write. *)
Class Externals := {
  (** [ample(n)]: the default threshold for [n] backers. *)
  ample : Z → Z;
  (** [verifySigs(serder, sigers, verfers)]: the unique members of [sigers]
      whose signature verifies, and their indices. *)
  verifySigs : Serder → option (list Siger) → list string → list Siger * list nat;
  (** [Verfer(qb64=bak)]: raises on a malformed key. *)
  Verfer : string → result string;
  (** [Prefixer(qb64=pre)]: raises on an unsupported code or a bad size. *)
  Prefixer : string → result unit;
  (** [Prefixer(qb64=pre).verify(ked, prefixed=True)]. *)
  Prefixer_verify : string → Ked → bool;
  (** [Prefixer(ked=ked, code=code, allows=[...]).qb64]. *)
  Prefixer_derive : Ked → string;
  (** [Serder(ked=ked)]: sizes the version string and digests the event. *)
  Serder_of_ked : Ked → Serder;
  (** [Versify(version=version, kind=kind, size=0)]. *)
  Versify : string;
  (** [core.eventing.query(route, replyRoute, query, stamp, ...)]. *)
  core_query : string → string → Qry → option string → Serder;
  (** [helping.nowIso8601()]. *)
  nowIso8601 : string;
  (** Whether the store in this state refuses the next write. *)
  map_full : Registry → bool;
  (** [dgKey(pre, None)]: what building a key from a digest that is not
      there does; [Ok] stands for a key under which nothing is stored. *)
  dgKey_None : result unit;
  (** [a & b] on ordered sets: the common members, listed in the order the
      library chooses. *)
  oset_inter : list string → list string → list string;
  oset_inter_members :
    ∀ a b x, x ∈ oset_inter a b ↔ x ∈ a ∧ x ∈ b
}.

(** ** The state-and-exception monad of the stateful methods *)

Definition M (A : Type) : Type := World → result A * World.

Definition ret {A} (a : A) : M A := fun w => (Ok a, w).
Definition raise {A} (e : exn) : M A := fun w => (Raise e, w).
Definition lift {A} (r : result A) : M A := fun w => (r, w).

Definition bind {A B} (c : M A) (k : A → M B) : M B :=
  fun w =>
    match c w with
    | (Ok a, w') => k a w'
    | (Raise e, w') => (Raise e, w')
    end.

Declare Scope M_scope.
Delimit Scope M_scope with M.
Notation "x <- c ;; k" := (bind c (fun x => k))
  (at level 100, c at next level, right associativity) : M_scope.
Notation "c ;;; k" := (bind c (fun _ => k))
  (at level 100, right associativity) : M_scope.

(** [when b c]: [if b: c]. *)
Definition when (b : bool) (c : M unit) : M unit :=
  if b then c else ret tt.

(** Insertion that does not overwrite ([putVal]) and insertion of the values
    a key does not hold yet ([putVals]). *)
Definition add_new `{Countable K} {V} (k : K) (v : V) (m : gmap K V) : gmap K V :=
  match m !! k with
  | Some _ => m
  | None => <[k:=v]> m
  end.

Definition is_new `{Countable K} {V} (k : K) (m : gmap K V) : bool :=
  match m !! k with
  | Some _ => false
  | None => true
  end.

Definition add_vals `{Countable K} `{EqDecision V} (k : K) (vs : list V)
    (m : gmap K (list V)) : gmap K (list V) :=
  let old := default [] (m !! k) in
  <[k := (old ++ list_difference vs old)%list]> m.

(** Modelled from the spec: sequence numbers are lowercase hex without
    leading zeros, and [validateSN] (of [keri.core.eventing], not in this
    module) accepts zero exactly for the inceptive ilks.  The spec names no
    exception for a refusal: [ValidationError] stands here for whatever the
    function raises. *)
Definition lower_hex_char (c : ascii) : bool :=
  let n := nat_of_ascii c in
  ((48 <=? n)%nat && (n <=? 57)%nat) || ((97 <=? n)%nat && (n <=? 102)%nat).

Fixpoint all_lower_hex (s : string) : bool :=
  match s with
  | EmptyString => true
  | String c s' => lower_hex_char c && all_lower_hex s'
  end.

Definition canonical_hex (s : string) : bool :=
  match s with
  | EmptyString => false
  | String c EmptyString => lower_hex_char c
  | String c _ => negb (Ascii.eqb c "0") && all_lower_hex s
  end.

Definition validateSN (sn : string) (inceptive : bool) : result Z :=
  if negb (canonical_hex sn) then Raise ValidationError
  else match int16 sn with
       | Raise _ => Raise ValidationError
       | Ok n =>
           if inceptive
           then (check (bool_decide (n ≠ 0%Z)) ValidationError ;;; Ok n)%res
           else (check (bool_decide (n < 1)%Z) ValidationError ;;; Ok n)%res
       end.

Section Constructors.
Context `{Externals}.

(** *** [incept]: registry inception ([vcp]) *)
Definition incept (pre : string) (toad : pyarg)
    (baks0 cnfg0 : option (list string)) : result Serder :=
  (let vs := Versify in
   let isn := 0%Z in
   let ilk := Ilks.vcp in
   let cnfg := default [] cnfg0 in
   let baks := default [] baks0 in
   check (bool_decide (TraitDex.NoBackers ∈ cnfg) && bool_decide (0 < len baks)%Z)
         ValueError ;;;
   check (bool_decide (len (oset baks) ≠ len baks)) ValueError ;;;
   toad <- match toad with
           | PyStr _ => t <- format_x toad ;; Ok (PyStr t)
           | PyNone => if truthy baks then Ok (PyInt (ample (len baks)))
                       else Ok (PyInt 0)
           | PyInt _ => Ok toad
           end ;;
   (if truthy baks
    then lo <- py_lt toad 1 ;;
         hi <- (if lo then Ok true else py_gt toad (len baks)) ;;
         check hi ValueError
    else check (py_ne toad 0) ValueError) ;;;
   s <- format_x (PyInt isn) ;;
   bt <- format_x toad ;;
   let ked := {| k_v := vs; k_i := ""; k_s := s; k_t := ilk;
                 k_ii := Some pre; k_c := Some cnfg; k_bt := Some bt;
                 k_b := Some baks; k_p := None; k_br := None; k_ba := None;
                 k_ri := None; k_ra := None; k_dt := None |} in
   let ked := {| k_v := vs; k_i := Prefixer_derive ked; k_s := s; k_t := ilk;
                 k_ii := Some pre; k_c := Some cnfg; k_bt := Some bt;
                 k_b := Some baks; k_p := None; k_br := None; k_ba := None;
                 k_ri := None; k_ra := None; k_dt := None |} in
   Ok (Serder_of_ked ked))%res.

(** The membership checks of a rotation and the new backer set, as the
    constructor computes them from [baks], [cuts] and [adds]
    (lines 162 to 190). *)
Definition rotate_newbakset (baks cuts adds : list string)
    : result (list string) :=
  (let bakset := oset baks in
   check (bool_decide (len bakset ≠ len baks)) ValueError ;;;
   let cutset := oset cuts in
   check (bool_decide (len cutset ≠ len cuts)) ValueError ;;;
   check (bool_decide (oset_inter bakset cutset ≠ cutset)) ValueError ;;;
   let addset := oset adds in
   check (bool_decide (len addset ≠ len adds)) ValueError ;;;
   check (truthy (oset_inter cutset addset)) ValueError ;;;
   check (truthy (oset_inter bakset addset)) ValueError ;;;
   let newbakset := oset_union (oset_diff bakset cutset) addset in
   check (bool_decide (len newbakset ≠ (len baks - len cuts + len adds)%Z))
         ValueError ;;;
   Ok newbakset)%res.

(** *** [rotate]: registry rotation ([vrt]) *)
Definition rotate (regk dig : string) (sn : Z) (toad : pyarg)
    (baks0 cuts0 adds0 : option (list string)) : result Serder :=
  (check (bool_decide (sn < 1)%Z) ValueError ;;;
   let vs := Versify in
   let ilk := Ilks.vrt in
   let baks := default [] baks0 in
   let cuts := default [] cuts0 in
   let adds := default [] adds0 in
   newbakset <- rotate_newbakset baks cuts adds ;;
   toad <- match toad with
           | PyStr _ => t <- format_x toad ;; Ok (PyStr t)
           | PyNone => if truthy newbakset
                       then Ok (PyInt (ample (len newbakset)))
                       else Ok (PyInt 0)
           | PyInt _ => Ok toad
           end ;;
   (if truthy newbakset
    then lo <- py_lt toad 1 ;;
         hi <- (if lo then Ok true else py_gt toad (len newbakset)) ;;
         check hi ValueError
    else check (py_ne toad 0) ValueError) ;;;
   s <- format_x (PyInt sn) ;;
   bt <- format_x toad ;;
   let ked := {| k_v := vs; k_i := regk; k_s := s; k_t := ilk;
                 k_ii := None; k_c := None; k_bt := Some bt; k_b := None;
                 k_p := Some dig; k_br := Some cuts; k_ba := Some adds;
                 k_ri := None; k_ra := None; k_dt := None |} in
   Ok (Serder_of_ked ked))%res.

(** *** [state]: the state notice of a registry *)
Definition state (pre dig : string) (sn : Z) (ri : string) (eilk : Ilks.t)
    (br ba : list string) (a : Z * string) (dts : option string)
    (toad : option Z) (wits0 cnfg0 : option (list string)) : result Ksn :=
  (let vs := Versify in
   check (bool_decide (sn < 0)%Z) ValueError ;;;
   check (negb (bool_decide (eilk ∈ [Ilks.vcp; Ilks.vrt]))) ValueError ;;;
   let dts := default nowIso8601 dts in
   let wits := default [] wits0 in
   let witset := oset wits in
   check (bool_decide (len witset ≠ len wits)) ValueError ;;;
   let toad := match toad with
               | Some n => n
               | None => if truthy witset
                         then Z.max 1 ((len witset + 1) / 2)
                         else 0%Z
               end in
   (if truthy witset
    then check (bool_decide (toad < 1)%Z || bool_decide (len witset < toad)%Z)
               ValueError
    else check (bool_decide (toad ≠ 0%Z)) ValueError) ;;;
   let cnfg := default [] cnfg0 in
   check (bool_decide (len (oset br) ≠ len br)) ValueError ;;;
   check (bool_decide (len (oset ba) ≠ len ba)) ValueError ;;;
   s <- format_x (PyInt sn) ;;
   bt <- format_x (PyInt toad) ;;
   Ok {| ksn_v := vs; ksn_i := ri; ksn_s := s; ksn_d := dig; ksn_ii := pre;
         ksn_dt := dts; ksn_et := eilk; ksn_a := a; ksn_bt := bt;
         ksn_br := br; ksn_ba := ba; ksn_b := wits; ksn_c := cnfg |})%res.

(** *** [query]: the dict [qry] that [query] builds (lines 618 to 627) and
    hands to [core.eventing.query]. *)
Definition query_qry (regk vcid : string) (dt dta dtb : option string) : Qry :=
  let qry : Qry := <["ri" := Some regk]> (<["i" := Some vcid]> ∅) in
  let qry := if dt is Some _ then <["dt" := dt]> qry else qry in
  let qry := if dta is Some _ then <["dta" := dt]> qry else qry in
  let qry := if dtb is Some _ then <["dtb" := dt]> qry else qry in
  qry.

Definition query (regk vcid route replyRoute : string)
    (dt dta dtb stamp : option string) : Serder :=
  core_query route replyRoute (query_qry regk vcid dt dta dtb) stamp.

End Constructors.

(** ** The registry store's methods *)

Section Store.
Context `{Externals}.

Local Open Scope M_scope.

(** A write goes through unless the store is full; a read always does. *)
Definition store_write {A} (f : Registry → A * Registry) : M A :=
  fun w =>
    if map_full (reger w) then (Raise MapFullError, w)
    else (Ok (f (reger w)).1, set_reger (f (reger w)).2 w).

Definition store_read {A} (f : Registry → A) : M A :=
  fun w => (Ok (f (reger w)), w).

Definition putTvt (key : DgKey) (val : Serder) : M bool :=
  store_write (fun r => (is_new key (tvts r), upd_tvts (add_new key val) r)).
Definition putTel (key : SnKey) (val : string) : M bool :=
  store_write (fun r => (is_new key (tels r), upd_tels (add_new key val) r)).
Definition putAnc (key : DgKey) (val : Z * string) : M bool :=
  store_write (fun r => (is_new key (ancs r), upd_ancs (add_new key val) r)).
Definition putTibs (key : DgKey) (vals : list Siger) : M bool :=
  store_write (fun r => (true, upd_tibs (add_vals key vals) r)).
Definition delBaks (key : DgKey) : M bool :=
  store_write (fun r => (negb (is_new key (baks r)), upd_baks (delete key) r)).
Definition putBaks (key : DgKey) (vals : list string) : M bool :=
  store_write (fun r => (true, upd_baks (add_vals key vals) r)).
Definition pinTets (key : DgKey) (val : string) : M bool :=
  store_write (fun r => (true, upd_tets (insert key val) r)).
Definition putTae (key : SnKey) (val : string) : M bool :=
  store_write (fun r => (is_new key (taes r), upd_taes (add_new key val) r)).
Definition delTae (key : SnKey) : M bool :=
  store_write (fun r => (negb (is_new key (taes r)), upd_taes (delete key) r)).
Definition putTwe (key : SnKey) (val : string) : M bool :=
  store_write (fun r => (is_new key (twes r), upd_twes (add_new key val) r)).
Definition putOot (key : SnKey) (val : string) : M bool :=
  store_write (fun r => (is_new key (oots r), upd_oots (add_new key val) r)).
Definition pinStates (key : string) (val : Ksn) : M bool :=
  store_write (fun r => (true, upd_states (insert key val) r)).

Definition getTvt (key : DgKey) : M (option Serder) :=
  store_read (fun r => tvts r !! key).
Definition getTel (key : SnKey) : M (option string) :=
  store_read (fun r => tels r !! key).
Definition getAnc (key : DgKey) : M (option (Z * string)) :=
  store_read (fun r => ancs r !! key).
Definition getTibs (key : DgKey) : M (list Siger) :=
  store_read (fun r => default [] (tibs r !! key)).
Definition getBaks (key : DgKey) : M (list string) :=
  store_read (fun r => default [] (baks r !! key)).

(** Modelled from the spec: [cntTels(pre)] of [viring.Registry] counts the
    entries that the TEL index holds for [pre]; a credential's current
    sequence number is that length minus one. *)
Definition cntTels_of (m : gmap SnKey string) (pre : string) : Z :=
  Z.of_nat (size (filter (fun kv : SnKey * string => kv.1.1 = pre) m)).

Definition cntTels (pre : string) : M Z :=
  store_read (fun r => cntTels_of (tels r) pre).

(** Modelled from the spec: [getTaeItemIter()] and [getOotItemIter()] of
    [viring.Registry] yield the entries of the two escrows; the loops
    below run over the entries present when they start. *)
Definition getTaeItemIter : M (list (SnKey * string)) :=
  store_read (fun r => map_to_list (taes r)).
Definition getOotItemIter : M (list (SnKey * string)) :=
  store_read (fun r => map_to_list (oots r)).

End Store.

(** ** [Tever]: the verifier of one registry *)

Section Tever.
Context `{Externals}.

Local Open Scope M_scope.

Definition Serder_pre (s : Serder) : string := k_i (ked s).

(** [serder.sn]: the property parses [ked["s"]] on each access. *)
Definition Serder_sn (s : Serder) : result Z := int16 (k_s (ked s)).

(** Modelled from the spec: [Serder.compare(dig=d)] of [keri.core.coring]
    holds when [d] is the digest of the event. *)
Definition Serder_compare (s : Serder) (d : string) : bool :=
  bool_decide (dig s = d).

(** Truth value of [self.regk]: neither [None] nor empty. *)
Definition truthy_str (o : option string) : bool :=
  match o with
  | Some s => negb (bool_decide (s = ""))
  | None => false
  end.

Fixpoint mapM_res {A B} (f : A → result B) (l : list A) : result (list B) :=
  match l with
  | [] => Ok []
  | x :: l' => (y <- f x ;; ys <- mapM_res f l' ;; Ok (y :: ys))%res
  end.

Fixpoint for_each {A} (l : list A) (f : A → M unit) : M unit :=
  match l with
  | [] => ret tt
  | x :: l' => f x ;;; for_each l' f
  end.

(** *** [Tever.verifyAnchor]: the three subscripts of the seal come before
    the comparison, and each raises [KeyError] on a seal without the
    label. *)
Definition Tever_verifyAnchor (self : Tever) (serder : Serder)
    (seqner : Seqner) (diger : Diger) (kel : Baser) : result bool :=
  match getKeLast kel (snKey (tv_pre self) (seqner_sn seqner)) with
  | None => Ok false
  | Some dg =>
      if bool_decide (dg = "") then Ok false
      else
        match getEvt kel (dgKey (tv_pre self) dg) with
        | None => Ok false
        | Some eserder =>
            if bool_decide (kel_dig eserder ≠ diger_qb64 diger) then Ok false
            else
              match kel_a eserder with
              | None => Ok false
              | Some seal =>
                  if bool_decide (len seal ≠ 1%Z) then Ok false
                  else
                    match seal with
                    | [] => Raise IndexError
                    | seal0 :: _ =>
                        (spre <- getitem (sl_i seal0) ;;
                         ssn <- getitem (sl_s seal0) ;;
                         sdig <- getitem (sl_d seal0) ;;
                         Ok (bool_decide (spre = k_i (ked serder))
                             && bool_decide (ssn = k_s (ked serder))
                             && bool_decide (dig serder = sdig)))%res
                    end
              end
        end
  end.

Definition verifyAnchorM (self : Tever) (serder : Serder)
    (seqner : Seqner) (diger : Diger) : M bool :=
  fun w => (Tever_verifyAnchor self serder seqner diger (db w), w).

Definition cue_query (self : Tever) (seqner : Seqner) : M unit :=
  fun w => (Ok tt, append_cue (CueQuery (tv_pre self) (seqner_sn seqner)) w).

(** *** [Tever.escrowPWEvent] *)
Definition Tever_escrowPWEvent (serder : Serder) (seqner : Seqner)
    (diger : Diger) (bigers : list Siger) : M unit :=
  let dgkey := dgKey (Serder_pre serder) (dig serder) in
  let sealet := (seqner_sn seqner, diger_qb64 diger) in
  putAnc dgkey sealet ;;;
  putTibs dgkey bigers ;;;
  putTvt dgkey serder ;;;
  sn <- lift (Serder_sn serder) ;;
  putTwe (snKey (Serder_pre serder) sn) (dig serder) ;;;
  ret tt.

(** *** [Tever.escrowALEvent]; an absent [bigers] or [baks] is the empty
    list, which the two guards treat alike. *)
Definition Tever_escrowALEvent (serder : Serder) (seqner : Seqner)
    (diger : Diger) (bigers : list Siger) (baks : list pytext) : M bool :=
  let key := dgKey (Serder_pre serder) (dig serder) in
  let sealet := (seqner_sn seqner, diger_qb64 diger) in
  putAnc key sealet ;;;
  when (truthy bigers) (putTibs key bigers ;;; ret tt) ;;;
  when (truthy baks)
    (delBaks key ;;;
     vals <- lift (encode_all baks) ;;
     putBaks key vals ;;; ret tt) ;;;
  putTvt key serder ;;;
  sn <- lift (Serder_sn serder) ;;
  putTae (snKey (Serder_pre serder) sn) (dig serder).

(** *** [Tever.logEvent] *)
Definition Tever_logEvent (pre : string) (sn : Z) (serder : Serder)
    (seqner : Seqner) (diger : Diger) (bigers : list Siger)
    (baks : list string) : M unit :=
  let dig := dig serder in
  let key := dgKey pre dig in
  let sealet := (seqner_sn seqner, diger_qb64 diger) in
  putAnc key sealet ;;;
  when (truthy bigers) (putTibs key bigers ;;; ret tt) ;;;
  when (truthy baks) (delBaks key ;;; putBaks key baks ;;; ret tt) ;;;
  pinTets (pre, dig) nowIso8601 ;;;
  putTvt key serder ;;;
  putTel (snKey pre sn) dig ;;;
  ret tt.

(** The guard of the threshold check in [valAnchorBigs]. *)
Definition must_verify_toad (self : Tever) (baks : list pytext) : bool :=
  (truthy baks && negb (truthy_str (tv_regk self)))
  || (truthy baks && negb (tv_local self) && truthy_str (tv_regk self)
      && match tv_regk self with
         | Some r => bool_decide (Str r ∉ baks)
         | None => true
         end).

(** *** [Tever.valAnchorBigs] *)
Definition Tever_valAnchorBigs (self : Tever) (serder : Serder)
    (seqner : Seqner) (diger : Diger) (bigers : option (list Siger))
    (toad : pyarg) (baks : list pytext) : M (list Siger) :=
  berfers <- lift (mapM_res Verfer (text_of <$> baks)) ;;
  let verified := verifySigs serder bigers berfers in
  let bigers := verified.1 in
  let bindices := verified.2 in
  anchored <- verifyAnchorM self serder seqner diger ;;
  (if negb anchored
   then escrowed <- Tever_escrowALEvent serder seqner diger bigers baks ;;
        when escrowed (cue_query self seqner) ;;;
        raise MissingAnchorError
   else ret tt) ;;;
  (if must_verify_toad self baks
   then toad <- lift (match toad with
                      | PyStr s => int16 s
                      | PyInt n => Ok n
                      | PyNone => Raise TypeError
                      end) ;;
        lift (check (bool_decide (toad < 0)%Z || bool_decide (len baks < toad)%Z)
                    ValidationError) ;;;
        if bool_decide (len bindices < toad)%Z
        then Tever_escrowPWEvent serder seqner diger bigers ;;;
             raise MissingWitnessSignatureError
        else ret tt
   else ret tt) ;;;
  ret bigers.

(** *** [Tever.getBackerState] *)
Definition Tever_getBackerState (self : Tever) (kd : Ked)
    : M (pyarg * list pytext) :=
  rega <- lift (getitem (k_ra kd)) ;;
  let regi := seal_i rega in
  let regd := seal_d rega in
  lift (check (bool_decide (regi ≠ tv_prefixer self)) ValidationError) ;;;
  let dgkey := dgKey regi regd in
  revt <- getTvt dgkey ;;
  match revt with
  | None => raise ValidationError
  | Some rserder =>
      rtoad <- lift (getitem (k_bt (ked rserder))) ;;
      baks <- getBaks dgkey ;;
      ret (PyStr rtoad, Bytes <$> baks)
  end.

(** The anchor check of the simple issue and revoke paths. *)
Definition require_anchor (self : Tever) (serder : Serder)
    (seqner : Seqner) (diger : Diger) : M unit :=
  anchored <- verifyAnchorM self serder seqner diger ;;
  if negb anchored
  then escrowed <- Tever_escrowALEvent serder seqner diger [] [] ;;
       when escrowed (cue_query self seqner) ;;;
       raise MissingAnchorError
  else ret tt.

(** *** [Tever.issue] *)
Definition Tever_issue (self : Tever) (serder : Serder) (seqner : Seqner)
    (diger : Diger) (sn : Z) (bigers : option (list Siger)) : M unit :=
  let ked := ked serder in
  let vcpre := k_i ked in
  let ilk := k_t ked in
  let vci := nsKey [tv_prefixer self; vcpre] in
  let labels := if decide (ilk = Ilks.iss) then ISS_LABELS else BIS_LABELS in
  lift (check_labels labels ked) ;;;
  match ilk with
  | Ilks.iss =>
      lift (check (negb (tv_noBackers self)) ValidationError) ;;;
      regi <- lift (getitem (k_ri ked)) ;;
      lift (check (bool_decide (regi ≠ tv_prefixer self)) ValidationError) ;;;
      require_anchor self serder seqner diger ;;;
      Tever_logEvent vci sn serder seqner diger [] []
  | Ilks.bis =>
      lift (check (tv_noBackers self) ValidationError) ;;;
      state <- Tever_getBackerState self ked ;;
      bigers <- Tever_valAnchorBigs self serder seqner diger bigers
                  state.1 state.2 ;;
      Tever_logEvent vci sn serder seqner diger bigers []
  | _ => raise ValidationError
  end.

(** *** [Tever.revoke].  When the TEL index has nothing at [sn - 1] the
    key of the prior event is built from [None]: if [dgKey] lets that
    through nothing is found and the method takes its "revoke without
    issue" exit. *)
Definition Tever_revoke (self : Tever) (serder : Serder) (seqner : Seqner)
    (diger : Diger) (sn : Z) (bigers : option (list Siger)) : M unit :=
  let ked := ked serder in
  let vcpre := k_i ked in
  let ilk := k_t ked in
  let labels := if decide (ilk = Ilks.rev) then REV_LABELS else BRV_LABELS in
  lift (check_labels labels ked) ;;;
  let vci := nsKey [tv_prefixer self; vcpre] in
  dig <- getTel (snKey vci (sn - 1)) ;;
  ievt <- match dig with
          | Some d => getTvt (dgKey vci d)
          | None => lift dgKey_None ;;; ret None
          end ;;
  match ievt with
  | None => raise ValidationError
  | Some iserder =>
      p <- lift (getitem (k_p ked)) ;;
      lift (check (negb (Serder_compare iserder p)) ValidationError) ;;;
      match ilk with
      | Ilks.rev =>
          lift (check (negb (tv_noBackers self)) ValidationError) ;;;
          require_anchor self serder seqner diger ;;;
          Tever_logEvent vci sn serder seqner diger [] []
      | Ilks.brv =>
          lift (check (tv_noBackers self) ValidationError) ;;;
          state <- Tever_getBackerState self ked ;;
          bigers <- Tever_valAnchorBigs self serder seqner diger bigers
                      state.1 state.2 ;;
          Tever_logEvent vci sn serder seqner diger bigers []
      | _ => raise ValidationError
      end
  end.

(** *** [Tever.vcSn] *)
Definition Tever_vcSn (self : Tever) (vcpre : string) : M (option Z) :=
  let vci := nsKey [tv_prefixer self; vcpre] in
  cnt <- cntTels vci ;;
  ret (if bool_decide (cnt = 0%Z) then None else Some (cnt - 1)%Z).

(** *** [Tever.state] *)
Definition Tever_state (self : Tever) : M Ksn :=
  let br := tv_cuts self in
  let ba := tv_adds self in
  let cnfg := if tv_noBackers self then [TraitDex.NoBackers] else [] in
  regk <- lift (match tv_regk self with
                | Some r => Ok r
                | None => Raise TypeError
                end) ;;
  let dgkey := dgKey regk (dig (tv_serder self)) in
  couple <- getAnc dgkey ;;
  match couple with
  | None => raise TypeError
  | Some a =>
      lift (state (tv_pre self) (dig (tv_serder self)) (tv_sn self) regk
                  (tv_ilk self) br ba a None (Some (tv_toad self))
                  (Some (tv_baks self)) (Some cnfg))
  end.

(** *** [Tever.rotate]: validates a [vrt] against the verifier's state and
    returns [(toad, baks, cuts, adds)]; it changes nothing. *)
Definition Tever_rotate (self : Tever) (serder : Serder) (sn : Z)
    : result (Z * list string * list string * list string) :=
  (let ked := ked serder in
   dig <- getitem (k_p ked) ;;
   check (bool_decide (Serder_pre serder ≠ tv_prefixer self)) ValidationError ;;;
   check (negb (bool_decide (sn = (tv_sn self + 1)%Z))) ValidationError ;;;
   check (negb (Serder_compare (tv_serder self) dig)) ValidationError ;;;
   let witset := oset (tv_baks self) in
   cuts <- getitem (k_br ked) ;;
   let cutset := oset cuts in
   check (bool_decide (len cutset ≠ len cuts)) ValidationError ;;;
   check (bool_decide (oset_inter witset cutset ≠ cutset)) ValidationError ;;;
   adds <- getitem (k_ba ked) ;;
   let addset := oset adds in
   check (bool_decide (len addset ≠ len adds)) ValidationError ;;;
   check (truthy (oset_inter cutset addset)) ValidationError ;;;
   check (truthy (oset_inter witset addset)) ValidationError ;;;
   let baks := oset_union (oset_diff witset cutset) addset in
   check (bool_decide
            (len baks ≠ (len (tv_baks self) - len cuts + len adds)%Z))
         ValidationError ;;;
   bt <- getitem (k_bt ked) ;;
   toad <- int16 bt ;;
   (if truthy baks
    then check (bool_decide (toad < 1)%Z || bool_decide (len baks < toad)%Z)
               ValidationError
    else check (bool_decide (toad ≠ 0%Z)) ValidationError) ;;;
   Ok (toad, baks, cuts, adds))%res.

(** *** [Tever.incept]: returns the attributes it assigns,
    [(pre, sn, baks, toad)]. *)
Definition Tever_incept (serder : Serder) : result (string * Z * list string * Z) :=
  (let ked := ked serder in
   pre <- getitem (k_ii ked) ;;
   Prefixer (Serder_pre serder) ;;;
   check (negb (Prefixer_verify (Serder_pre serder) ked)) ValidationError ;;;
   sn <- validateSN (k_s ked) true ;;
   baks <- getitem (k_b ked) ;;
   check (bool_decide (len (oset baks) ≠ len baks)) ValidationError ;;;
   bt <- getitem (k_bt ked) ;;
   toad <- int16 bt ;;
   (if truthy baks
    then check (bool_decide (toad < 1)%Z || bool_decide (len baks < toad)%Z)
               ValidationError
    else check (bool_decide (toad ≠ 0%Z)) ValidationError) ;;;
   Ok (pre, sn, baks, toad))%res.

(** *** [Tever.config]: the [noBackers] it assigns; the class default
    [Tever.NoBackers] is [False]. *)
Definition Tever_config (serder : Serder) (noBackers : option bool)
    : result bool :=
  (cnfg <- getitem (k_c (ked serder)) ;;
   Ok (if bool_decide (TraitDex.NoBackers ∈ cnfg) then true
       else default false noBackers))%res.

(** *** [Tever.__init__] from an inception event (no [state] given).
    [regk] and [local] are those of the owning [Tevery]; the object exists
    for the caller only when the constructor returns. *)
Definition Tever_init (regk : option string) (local : bool)
    (noBackers : option bool) (serder : Serder) (seqner : Seqner)
    (diger : Diger) (bigers : option (list Siger)) : M Tever :=
  let ilk := k_t (ked serder) in
  lift (check (negb (bool_decide (ilk ∈ [Ilks.vcp]))) ValidationError) ;;;
  lift (check_labels VCP_LABELS (ked serder)) ;;;
  inc <- lift (Tever_incept serder) ;;
  nb <- lift (Tever_config serder noBackers) ;;
  let self := {| tv_regk := regk; tv_local := local;
                 tv_pre := inc.1.1.1; tv_prefixer := Serder_pre serder;
                 tv_sn := inc.1.1.2; tv_serder := serder; tv_ilk := ilk;
                 tv_toad := inc.2; tv_baks := inc.1.2;
                 tv_cuts := []; tv_adds := []; tv_noBackers := nb |} in
  bigers <- Tever_valAnchorBigs self serder seqner diger bigers
              (PyInt (tv_toad self)) (Str <$> tv_baks self) ;;
  Tever_logEvent (tv_prefixer self) 0 serder seqner diger bigers
                 (tv_baks self) ;;;
  let self := {| tv_regk := Some (tv_prefixer self); tv_local := local;
                 tv_pre := tv_pre self; tv_prefixer := tv_prefixer self;
                 tv_sn := tv_sn self; tv_serder := serder; tv_ilk := ilk;
                 tv_toad := tv_toad self; tv_baks := tv_baks self;
                 tv_cuts := []; tv_adds := []; tv_noBackers := nb |} in
  st <- Tever_state self ;;
  pinStates (tv_prefixer self) st ;;;
  ret self.

(** The seven assignments of the [vrt] branch of [update]
    (lines 925 to 931). *)
Definition Tever_assign (self : Tever) (sn : Z) (serder : Serder)
    (ilk : Ilks.t) (toad : Z) (baks cuts adds : list string) : Tever :=
  {| tv_regk := tv_regk self; tv_local := tv_local self;
     tv_pre := tv_pre self; tv_prefixer := tv_prefixer self;
     tv_sn := sn; tv_serder := serder; tv_ilk := ilk; tv_toad := toad;
     tv_baks := baks; tv_cuts := cuts; tv_adds := adds;
     tv_noBackers := tv_noBackers self |}.

(** *** [Tever.update].  The method works on [self] and on the shared
    stores; the result carries both as they stand when it returns or
    raises. *)
Definition Tever_update (self : Tever) (serder : Serder) (seqner : Seqner)
    (diger : Diger) (bigers : option (list Siger))
    : World → result unit * Tever * World :=
  fun w =>
    let kd := ked serder in
    let ilk := k_t kd in
    let icp := bool_decide (ilk ∈ [Ilks.iss; Ilks.bis]) in
    match validateSN (k_s kd) icp with
    | Raise e => (Raise e, self, w)
    | Ok sn =>
        match ilk with
        | Ilks.vrt =>
            if tv_noBackers self then (Raise ValidationError, self, w)
            else
              match Tever_rotate self serder sn with
              | Raise e => (Raise e, self, w)
              | Ok (toad, baks, cuts, adds) =>
                  match Tever_valAnchorBigs self serder seqner diger bigers
                          (PyInt toad) (Str <$> baks) w with
                  | (Raise e, w1) => (Raise e, self, w1)
                  | (Ok bigers, w1) =>
                      let self' := Tever_assign self sn serder ilk toad
                                     baks cuts adds in
                      let r := (Tever_logEvent (tv_prefixer self') sn serder
                                  seqner diger bigers (tv_baks self') ;;;
                                st <- Tever_state self' ;;
                                regk <- lift (match tv_regk self' with
                                              | Some r => Ok r
                                              | None => Raise TypeError
                                              end) ;;
                                pinStates regk st ;;;
                                ret tt) w1 in
                      (r.1, self', r.2)
                  end
              end
        | Ilks.iss | Ilks.bis =>
            let r := Tever_issue self serder seqner diger sn bigers w in
            (r.1, self, r.2)
        | Ilks.rev | Ilks.brv =>
            let r := Tever_revoke self serder seqner diger sn bigers w in
            (r.1, self, r.2)
        | _ => (Raise ValidationError, self, w)
        end
    end.

End Tever.

(** ** [Tevery]: the dispatcher *)

(** The attributes of a [Tevery] that are its own: the prefix of the local
    registry, if any, and the locality flag. *)
Record Tevery := {
  ty_regk : option string;
  ty_local : bool
}.

Section Tevery.
Context `{Externals}.

Local Open Scope M_scope.

(** *** [Tevery.registryKey] *)
Definition Tevery_registryKey (serder : Serder) : result string :=
  let ilk := k_t (ked serder) in
  match ilk with
  | Ilks.vcp | Ilks.vrt => Ok (Serder_pre serder)
  | Ilks.iss | Ilks.rev => getitem (k_ri (ked serder))
  | Ilks.bis | Ilks.brv =>
      (rega <- getitem (k_ra (ked serder)) ;; Ok (seal_i rega))%res
  | _ => Raise ValidationError
  end.

(** *** [Tevery.escrowOOEvent] *)
Definition Tevery_escrowOOEvent (serder : Serder) (seqner : Seqner)
    (diger : Diger) : M unit :=
  let key := dgKey (Serder_pre serder) (dig serder) in
  putTvt key serder ;;;
  let sealet := (seqner_sn seqner, diger_qb64 diger) in
  putAnc key sealet ;;;
  sn <- lift (Serder_sn serder) ;;
  putOot (snKey (Serder_pre serder) sn) (dig serder) ;;;
  ret tt.

Definition get_tever (regk : string) : M (option Tever) :=
  store_read (fun r => tevers r !! regk).

(** [self.tevers[regk] = tever], and the write-back of a verifier that
    [update] has worked on: the cache holds the object itself. *)
Definition set_tever (regk : string) (tever : Tever) : World → World :=
  fun w => set_reger (upd_tevers (insert regk tever) (reger w)) w.

(** The locality gate of [processEvent]. *)
Definition locality_gate (self : Tevery) (regk : string) : result unit :=
  if truthy_str (ty_regk self)
  then if ty_local self
       then check (bool_decide (ty_regk self ≠ Some regk)) ValueError
       else check (bool_decide (ty_regk self = Some regk)) ValueError
  else Ok tt.

(** *** [Tevery.processEvent] *)
Definition Tevery_processEvent (self : Tevery) (serder : Serder)
    (seqner : Seqner) (diger : Diger) (wigers : option (list Siger))
    : M unit :=
  lift (match Prefixer (Serder_pre serder) with
        | Ok _ => Ok tt
        | Raise _ => Raise ValidationError
        end) ;;;
  regk <- lift (Tevery_registryKey serder) ;;
  let pre := Serder_pre serder in
  let ilk := k_t (ked serder) in
  let inceptive := bool_decide (ilk ∈ [Ilks.vcp; Ilks.iss; Ilks.bis]) in
  sn <- lift (validateSN (k_s (ked serder)) inceptive) ;;
  lift (locality_gate self regk) ;;;
  known <- get_tever regk ;;
  match known with
  | None =>
      if bool_decide (ilk ∈ [Ilks.vcp])
      then tever <- Tever_init (ty_regk self) (ty_local self) None
                      serder seqner diger wigers ;;
           fun w => (Ok tt, set_tever regk tever w)
      else Tevery_escrowOOEvent serder seqner diger ;;;
           raise OutOfOrderError
  | Some tever =>
      if bool_decide (ilk ∈ [Ilks.vcp]) then raise LikelyDuplicitousError
      else
        sno <- (if bool_decide (ilk ∈ [Ilks.vrt])
                then ret (tv_sn tever + 1)%Z
                else esn <- Tever_vcSn tever pre ;;
                     ret (match esn with
                          | None => 0%Z
                          | Some n => (n + 1)%Z
                          end)) ;;
        if bool_decide (sno < sn)%Z
        then Tevery_escrowOOEvent serder seqner diger ;;;
             raise OutOfOrderError
        else if bool_decide (sn = sno)
        then fun w =>
               let r := Tever_update tever serder seqner diger wigers w in
               (r.1.1, set_tever regk r.1.2 r.2)
        else raise LikelyDuplicitousError
  end.

(** One turn of the loop of [processEscrowAnchorless]. *)
Definition unescrow_anchorless (self : Tevery) (item : SnKey * string)
    : M unit :=
  let pre := item.1.1 in
  let sn := item.1.2 in
  let digb := item.2 in
  let dgkey := dgKey pre digb in
  let attempt : M unit :=
    traw <- getTvt dgkey ;;
    match traw with
    | None => raise ValidationError
    | Some tserder =>
        tibs <- getTibs dgkey ;;
        let bigers := if truthy tibs then Some tibs else None in
        couple <- getAnc dgkey ;;
        match couple with
        | None => raise ValidationError
        | Some a =>
            Tevery_processEvent self tserder {| seqner_sn := a.1 |}
                                {| diger_qb64 := a.2 |} bigers
        end
    end in
  fun w =>
    match attempt w with
    | (Raise MissingAnchorError, w') => (Ok tt, w')
    | (Raise _, w') => (delTae (snKey pre sn) ;;; ret tt) w'
    | (Ok _, w') => (delTae (snKey pre sn) ;;; ret tt) w'
    end.

(** *** [Tevery.processEscrowAnchorless] *)
Definition Tevery_processEscrowAnchorless (self : Tevery) : M unit :=
  items <- getTaeItemIter ;;
  for_each items (unescrow_anchorless self).

(** *** [Tevery.processEscrowOutOfOrders]: the loop body prints the prefix
    of each entry and does nothing else. *)
Definition Tevery_processEscrowOutOfOrders (self : Tevery) : M unit :=
  items <- getOotItemIter ;;
  for_each items (fun _ => ret tt).

(** *** [Tevery.processEscrows]: whatever the two drains raise is logged
    and dropped. *)
Definition Tevery_processEscrows (self : Tevery) : M unit :=
  fun w =>
    let r := (Tevery_processEscrowAnchorless self ;;;
              Tevery_processEscrowOutOfOrders self) w in
    (Ok tt, r.2).

End Tevery.

(** ** Credential events, credential state and reload *)

(** The credential state notice built by [vcstate] ([ksd], lines 569 to
    577). *)
Record VcKsn := {
  vks_v : string;
  vks_i : string;
  vks_s : string;
  vks_d : string;
  vks_ri : string;
  vks_a : Z * string;
  vks_dt : string;
  vks_et : Ilks.t
}.

(** A state notice as [reload] receives it: the dict of any [ksn] message,
    a field being [None] when its label is absent. *)
Record KsnDict := {
  kd_v : option string;
  kd_i : option string;
  kd_s : option string;
  kd_t : option string;
  kd_d : option string;
  kd_ii : option string;
  kd_dt : option string;
  kd_et : option Ilks.t;
  kd_a : option (Z * string);
  kd_bt : option string;
  kd_br : option (list string);
  kd_ba : option (list string);
  kd_b : option (list string);
  kd_c : option (list string);
  kd_ri : option string
}.

(** The dict of a notice that [state] built: the thirteen labels of [ksd]
    (lines 503 to 517), neither [t] nor [ri] among them. *)
Definition Ksn_ked (n : Ksn) : KsnDict :=
  {| kd_v := Some (ksn_v n); kd_i := Some (ksn_i n); kd_s := Some (ksn_s n);
     kd_t := None; kd_d := Some (ksn_d n); kd_ii := Some (ksn_ii n);
     kd_dt := Some (ksn_dt n); kd_et := Some (ksn_et n);
     kd_a := Some (ksn_a n); kd_bt := Some (ksn_bt n);
     kd_br := Some (ksn_br n); kd_ba := Some (ksn_ba n);
     kd_b := Some (ksn_b n); kd_c := Some (ksn_c n); kd_ri := None |}.

Definition TSN_LABELS : list string :=
  ["v"; "i"; "s"; "t"; "d"; "ii"; "a"; "et"; "bt"; "b"; "c"; "br"; "ba"].

(** [k in ksn.ked]. *)
Definition ksn_has_label (k : KsnDict) (l : string) : bool :=
  if decide (l = "v") then bool_decide (is_Some (kd_v k))
  else if decide (l = "i") then bool_decide (is_Some (kd_i k))
  else if decide (l = "s") then bool_decide (is_Some (kd_s k))
  else if decide (l = "t") then bool_decide (is_Some (kd_t k))
  else if decide (l = "d") then bool_decide (is_Some (kd_d k))
  else if decide (l = "ii") then bool_decide (is_Some (kd_ii k))
  else if decide (l = "dt") then bool_decide (is_Some (kd_dt k))
  else if decide (l = "et") then bool_decide (is_Some (kd_et k))
  else if decide (l = "a") then bool_decide (is_Some (kd_a k))
  else if decide (l = "bt") then bool_decide (is_Some (kd_bt k))
  else if decide (l = "br") then bool_decide (is_Some (kd_br k))
  else if decide (l = "ba") then bool_decide (is_Some (kd_ba k))
  else if decide (l = "b") then bool_decide (is_Some (kd_b k))
  else if decide (l = "c") then bool_decide (is_Some (kd_c k))
  else if decide (l = "ri") then bool_decide (is_Some (kd_ri k))
  else false.

(** What [reload] ends in when it does not return: an exception of the
    module, or [kering.MissingEntryError]. *)
Inductive reload_exn :=
  | Raised (e : exn)
  | MissingEntryError.

(** The entries of the TEL index under [pre] in key order, as
    [getTelItemPreIter(pre)] of [viring.Registry] yields them: the key ends
    in the sequence number, zero padded, so the order is that of the
    sequence numbers. *)
Definition sn_le (x y : Z * string) : Prop := (x.1 ≤ y.1)%Z.

#[global] Instance sn_le_dec : RelDecision sn_le.
Proof. intros x y. unfold sn_le. apply _. Defined.

Definition tel_items (m : gmap SnKey string) (pre : string)
    : list (Z * string) :=
  merge_sort sn_le
    ((fun kv : SnKey * string => (kv.1.2, kv.2))
       <$> map_to_list (filter (fun kv : SnKey * string => kv.1.1 = pre) m)).

Section Credentials.
Context `{Externals}.

Local Open Scope M_scope.

(** *** [issue]: credential issuance ([iss]) *)
Definition issue (vcdig regk : string) (dt : option string) : result Serder :=
  (let vs := Versify in
   s <- format_x (PyInt 0) ;;
   let ked := {| k_v := vs; k_i := vcdig; k_s := s; k_t := Ilks.iss;
                 k_ii := None; k_c := None; k_bt := None; k_b := None;
                 k_p := None; k_br := None; k_ba := None;
                 k_ri := Some regk; k_ra := None;
                 k_dt := Some nowIso8601 |} in
   let ked := match dt with
              | Some d =>
                  {| k_v := k_v ked; k_i := k_i ked; k_s := k_s ked;
                     k_t := k_t ked; k_ii := k_ii ked; k_c := k_c ked;
                     k_bt := k_bt ked; k_b := k_b ked; k_p := k_p ked;
                     k_br := k_br ked; k_ba := k_ba ked; k_ri := k_ri ked;
                     k_ra := k_ra ked; k_dt := Some d |}
              | None => ked
              end in
   Ok (Serder_of_ked ked))%res.

(** *** [revoke]: backerless credential revocation ([rev]) *)
Definition revoke (vcdig regk dig : string) (dt : option string)
    : result Serder :=
  (let vs := Versify in
   let isn := 1%Z in
   let ilk := Ilks.rev in
   s <- format_x (PyInt isn) ;;
   let ked := {| k_v := vs; k_i := vcdig; k_s := s; k_t := ilk;
                 k_ii := None; k_c := None; k_bt := None; k_b := None;
                 k_p := Some dig; k_br := None; k_ba := None;
                 k_ri := Some regk; k_ra := None;
                 k_dt := Some nowIso8601 |} in
   let ked := match dt with
              | Some d =>
                  {| k_v := k_v ked; k_i := k_i ked; k_s := k_s ked;
                     k_t := k_t ked; k_ii := k_ii ked; k_c := k_c ked;
                     k_bt := k_bt ked; k_b := k_b ked; k_p := k_p ked;
                     k_br := k_br ked; k_ba := k_ba ked; k_ri := k_ri ked;
                     k_ra := k_ra ked; k_dt := Some d |}
              | None => ked
              end in
   Ok (Serder_of_ked ked))%res.

(** *** [vcstate]: the state notice of a credential *)
Definition vcstate (vcpre dig : string) (sn : Z) (ri : string)
    (eilk : Ilks.t) (a : Z * string) (dts : option string) : result VcKsn :=
  (let vs := Versify in
   check (bool_decide (sn < 0)%Z) ValueError ;;;
   check (negb (bool_decide
                  (eilk ∈ [Ilks.iss; Ilks.bis; Ilks.rev; Ilks.brv])))
         ValueError ;;;
   let dts := default nowIso8601 dts in
   s <- format_x (PyInt sn) ;;
   Ok {| vks_v := vs; vks_i := vcpre; vks_s := s; vks_d := dig;
         vks_ri := ri; vks_a := a; vks_dt := dts; vks_et := eilk |})%res.

Definition getTelItemPreIter (pre : string) : M (list (Z * string)) :=
  store_read (fun r => tel_items (tels r) pre).

(** *** [Tever.vcState]: [None] for a credential without a TEL entry *)
Definition Tever_vcState (self : Tever) (vcpre : string)
    : M (option VcKsn) :=
  let vci := nsKey [tv_prefixer self; vcpre] in
  items <- getTelItemPreIter vci ;;
  let digs := snd <$> items in
  if bool_decide (len digs = 0%Z) then ret None
  else
    let vcsn := (len digs - 1)%Z in
    match last digs with
    | None => raise IndexError
    | Some vcdig =>
        let vcilk :=
          if tv_noBackers self
          then if bool_decide (len digs = 1%Z) then Ilks.iss else Ilks.rev
          else if bool_decide (len digs = 1%Z) then Ilks.bis else Ilks.brv in
        let dgkey := dgKey vci vcdig in
        couple <- getAnc dgkey ;;
        match couple with
        | None => raise TypeError
        | Some a =>
            st <- lift (vcstate vcpre vcdig vcsn (tv_prefixer self) vcilk a
                          None) ;;
            ret (Some st)
        end
    end.

(** *** [Tever.reload], as [Tever.__init__] runs it when it is given a
    [state]: the attributes are read off the notice in the order of the
    source, and the event body is fetched under [dgKey(ri, d)]. *)
Definition Tever_reload (local : bool) (ksn : KsnDict) (r : Registry)
    : reload_exn + Tever :=
  if negb (forallb (ksn_has_label ksn) TSN_LABELS)
  then inl (Raised ValidationError)
  else
    match
      (pre <- getitem (kd_i ksn) ;;
       regk <- getitem (kd_ri ksn) ;;
       match Prefixer regk with
       | Raise e => Raise e
       | Ok _ =>
           s <- getitem (kd_s ksn) ;;
           sn <- int16 s ;;
           ilk <- getitem (kd_et ksn) ;;
           bt <- getitem (kd_bt ksn) ;;
           toad <- int16 bt ;;
           baks <- getitem (kd_b ksn) ;;
           cuts <- getitem (kd_br ksn) ;;
           adds <- getitem (kd_ba ksn) ;;
           cnfg <- getitem (kd_c ksn) ;;
           let noBackers := bool_decide (TraitDex.NoBackers ∈ cnfg) in
           d <- getitem (kd_d ksn) ;;
           Ok (pre, regk, sn, ilk, toad, baks, cuts, adds, noBackers, d)
       end)%res
    with
    | Raise e => inl (Raised e)
    | Ok (pre, regk, sn, ilk, toad, baks, cuts, adds, noBackers, d) =>
        match tvts r !! dgKey regk d with
        | None => inl MissingEntryError
        | Some serder =>
            inr {| tv_regk := Some regk; tv_local := local; tv_pre := pre;
                   tv_prefixer := regk; tv_sn := sn; tv_serder := serder;
                   tv_ilk := ilk; tv_toad := toad; tv_baks := baks;
                   tv_cuts := cuts; tv_adds := adds;
                   tv_noBackers := noBackers |}
        end
    end.

End Credentials.

(** ** A reference instance of the collaborators, and sample data

    Used to run the definitions: prefixes are the non-empty strings without
    a colon, every signature whose index is in range verifies, and the
    store never fills up. *)

Fixpoint no_colon (s : string) : bool :=
  match s with
  | EmptyString => true
  | String c s' => negb (Ascii.eqb c ":") && no_colon s'
  end.

Definition sample_prefixer (s : string) : result unit :=
  if no_colon s && negb (bool_decide (s = "")) then Ok tt else Raise ValueError.

Definition sample_ext : Externals := {|
  ample := fun n => Z.max 1 ((n + 1) / 2);
  verifySigs := fun _ sigers verfers =>
    let l := filter (fun g => siger_index g < length verfers)%nat (default [] sigers) in
    (l, siger_index <$> l);
  Verfer := Ok;
  Prefixer := sample_prefixer;
  Prefixer_verify := fun _ _ => true;
  Prefixer_derive := fun k => "E" ++ default "" (k_ii k);
  Serder_of_ked := fun k => {| ked := k; dig := "D" ++ k_i k ++ k_s k |};
  Versify := "KERI10JSON000000_";
  core_query := fun route _ _ _ =>
    {| ked := {| k_v := "KERI10JSON000000_"; k_i := ""; k_s := "0";
                 k_t := Ilks.qry; k_ii := None; k_c := None; k_bt := None;
                 k_b := None; k_p := None; k_br := None; k_ba := None;
                 k_ri := None; k_ra := None; k_dt := None |};
       dig := route |};
  nowIso8601 := "2021-01-01T00:00:00.000000+00:00";
  map_full := fun _ => false;
  dgKey_None := Raise TypeError;
  oset_inter := list_intersection;
  oset_inter_members := list_elem_of_intersection
|}.

(** The same collaborators over a store that is full once it holds one
    state notice. *)
Definition cramped_ext : Externals := {|
  ample := @ample sample_ext;
  verifySigs := @verifySigs sample_ext;
  Verfer := @Verfer sample_ext;
  Prefixer := @Prefixer sample_ext;
  Prefixer_verify := @Prefixer_verify sample_ext;
  Prefixer_derive := @Prefixer_derive sample_ext;
  Serder_of_ked := @Serder_of_ked sample_ext;
  Versify := @Versify sample_ext;
  core_query := @core_query sample_ext;
  nowIso8601 := @nowIso8601 sample_ext;
  map_full := fun r => bool_decide (1 ≤ size (states r))%nat;
  dgKey_None := @dgKey_None sample_ext;
  oset_inter := @oset_inter sample_ext;
  oset_inter_members := @oset_inter_members sample_ext
|}.

Definition empty_registry : Registry :=
  {| tvts := ∅; tels := ∅; ancs := ∅; tibs := ∅; baks := ∅; tets := ∅;
     taes := ∅; twes := ∅; oots := ∅; states := ∅; tevers := ∅ |}.

Definition empty_baser : Baser := {| kels := ∅; evts := ∅ |}.

Definition empty_world (kel : Baser) : World :=
  {| reger := empty_registry; db := kel; cues := [] |}.

(** A [Tevery] without a local registry (promiscuous mode). *)
Definition sample_tevery : Tevery := {| ty_regk := None; ty_local := false |}.

(** A backerless registry ["ER"] of issuer ["EI"], a backer registry
    ["EB"] with backers ["B1"], ["B2"], ["B3"], a credential ["EV"], and the
    KEL events that anchor them. *)
Definition mk_ked (i s : string) (t : Ilks.t) : Ked :=
  {| k_v := "KERI10JSON000000_"; k_i := i; k_s := s; k_t := t;
     k_ii := None; k_c := None; k_bt := None; k_b := None; k_p := None;
     k_br := None; k_ba := None; k_ri := None; k_ra := None; k_dt := None |}.

Definition sample_vcp : Serder :=
  {| ked := {| k_v := "KERI10JSON000000_"; k_i := "ER"; k_s := "0";
               k_t := Ilks.vcp; k_ii := Some "EI"; k_c := Some ["NB"];
               k_bt := Some "0"; k_b := Some []; k_p := None; k_br := None;
               k_ba := None; k_ri := None; k_ra := None; k_dt := None |};
     dig := "Dvcp" |}.

Definition sample_iss : Serder :=
  {| ked := {| k_v := "KERI10JSON000000_"; k_i := "EV"; k_s := "0";
               k_t := Ilks.iss; k_ii := None; k_c := None; k_bt := None;
               k_b := None; k_p := None; k_br := None; k_ba := None;
               k_ri := Some "ER"; k_ra := None;
               k_dt := Some "2021-01-01T00:00:00.000000+00:00" |};
     dig := "Diss" |}.

Definition sample_rev : Serder :=
  {| ked := {| k_v := "KERI10JSON000000_"; k_i := "EV"; k_s := "1";
               k_t := Ilks.rev; k_ii := None; k_c := None; k_bt := None;
               k_b := None; k_p := Some "Diss"; k_br := None; k_ba := None;
               k_ri := Some "ER"; k_ra := None;
               k_dt := Some "2021-01-02T00:00:00.000000+00:00" |};
     dig := "Drev" |}.

Definition sample_bvcp : Serder :=
  {| ked := {| k_v := "KERI10JSON000000_"; k_i := "EB"; k_s := "0";
               k_t := Ilks.vcp; k_ii := Some "EI"; k_c := Some [];
               k_bt := Some "2"; k_b := Some ["B1"; "B2"; "B3"]; k_p := None;
               k_br := None; k_ba := None; k_ri := None; k_ra := None;
               k_dt := None |};
     dig := "Dbvcp" |}.

Definition sample_vrt : Serder :=
  {| ked := {| k_v := "KERI10JSON000000_"; k_i := "EB"; k_s := "1";
               k_t := Ilks.vrt; k_ii := None; k_c := None;
               k_bt := Some "2"; k_b := None; k_p := Some "Dbvcp";
               k_br := Some ["B2"]; k_ba := Some ["B4"]; k_ri := None;
               k_ra := None; k_dt := None |};
     dig := "Dvrt" |}.

Definition seal_of (e : Serder) : Seal :=
  {| sl_i := Some (k_i (ked e)); sl_s := Some (k_s (ked e));
     sl_d := Some (dig e) |}.

(** The KEL of ["EI"]: event [n] anchors the [n]-th TEL event below. *)
Definition sample_kel : Baser :=
  {| kels := list_to_map [(("EI", 1%Z), ["K1"]); (("EI", 2%Z), ["K2"]);
                          (("EI", 3%Z), ["K3"]); (("EI", 4%Z), ["K4"]);
                          (("EI", 5%Z), ["K5"])];
     evts := list_to_map
       [(("EI", "K1"), {| kel_dig := "K1"; kel_a := Some [seal_of sample_vcp] |});
        (("EI", "K2"), {| kel_dig := "K2"; kel_a := Some [seal_of sample_iss] |});
        (("EI", "K3"), {| kel_dig := "K3"; kel_a := Some [seal_of sample_rev] |});
        (("EI", "K4"), {| kel_dig := "K4"; kel_a := Some [seal_of sample_bvcp] |});
        (("EI", "K5"), {| kel_dig := "K5"; kel_a := Some [seal_of sample_vrt] |})] |}.

(** A KEL of ["EI"] whose event at sequence number 1 holds one digest
    seal, a dict with the label [d] only. *)
Definition digest_seal_kel : Baser :=
  {| kels := {[ ("EI", 1%Z) := ["K1"] ]};
     evts := {[ ("EI", "K1") :=
                  {| kel_dig := "K1";
                     kel_a := Some [{| sl_i := None; sl_s := None;
                                       sl_d := Some "Dvcp" |}] |} ]} |}.

Definition anchor (n : Z) (d : string) : Seqner * Diger :=
  ({| seqner_sn := n |}, {| diger_qb64 := d |}).

Definition sample_sigs (l : list nat) : option (list Siger) :=
  Some ((fun n => {| siger_index := n; siger_qb64 := "sig" |}) <$> l).

(** ** Vocabulary of the properties *)

(** What the specification asks of a rotation of the backer list: [new] is
    the list after cutting [cuts] from [prev] and adding [adds]. *)
Definition backer_rotation (prev cuts adds new : list string) : Prop :=
  NoDup new
  ∧ (∀ x, x ∈ cuts → x ∈ prev)
  ∧ (∀ x, x ∈ cuts → x ∉ adds)
  ∧ (∀ x, x ∈ prev → x ∉ adds)
  ∧ new = (list_difference prev cuts ++ adds)%list
  ∧ (∀ x, x ∈ new ↔ (x ∈ prev ∧ x ∉ cuts) ∨ x ∈ adds)
  ∧ len new = (len prev - len cuts + len adds)%Z.

(** The three membership conditions on their own. *)
Definition rotation_admissible (prev cuts adds : list string) : Prop :=
  (∀ x, x ∈ cuts → x ∈ prev)
  ∧ (∀ x, x ∈ cuts → x ∉ adds)
  ∧ (∀ x, x ∈ prev → x ∉ adds).

(** The one seal of the anchoring event [verifyAnchor] looks up: the KEL
    store has a last digest at [(self.pre, seqner.sn)], the event under that
    digest is there and digests to [diger], and its [a] field is the list of
    that one seal. *)
Definition anchor_seal (self : Tever) (seqner : Seqner) (diger : Diger)
    (kel : Baser) (seal : Seal) : Prop :=
  ∃ dg ev,
    getKeLast kel (snKey (tv_pre self) (seqner_sn seqner)) = Some dg
    ∧ dg ≠ ""
    ∧ getEvt kel (dgKey (tv_pre self) dg) = Some ev
    ∧ kel_dig ev = diger_qb64 diger
    ∧ kel_a ev = Some [seal].

(** The seal names the identifier, the sequence number and the digest of
    the TEL event. *)
Definition seal_names (serder : Serder) (seal : Seal) : Prop :=
  sl_i seal = Some (k_i (ked serder))
  ∧ sl_s seal = Some (k_s (ked serder))
  ∧ sl_d seal = Some (dig serder).

(** The seal has the three labels of an event seal. *)
Definition seal_whole (seal : Seal) : Prop :=
  is_Some (sl_i seal) ∧ is_Some (sl_s seal) ∧ is_Some (sl_d seal).

(** The kinds a registry never takes: [vrt], [bis] and [brv] when it is
    backerless, [iss] and [rev] when it has backers. *)
Definition barred (noBackers : bool) (ilk : Ilks.t) : Prop :=
  if noBackers then ilk ∈ [Ilks.vrt; Ilks.bis; Ilks.brv]
  else ilk ∈ [Ilks.iss; Ilks.rev].

(** The three writes of [escrowOOEvent] on a store that takes them. *)
Definition oot_escrowed (serder : Serder) (seqner : Seqner) (diger : Diger)
    (sn : Z) (r : Registry) : Registry :=
  let key := dgKey (Serder_pre serder) (dig serder) in
  upd_oots (add_new (snKey (Serder_pre serder) sn) (dig serder))
    (upd_ancs (add_new key (seqner_sn seqner, diger_qb64 diger))
       (upd_tvts (add_new key serder) r)).

(** The writes of [escrowALEvent]: anchor couple, the signatures and the
    backers when there are any, the event body, and the digest under [tae]. *)
Definition tae_escrowed (serder : Serder) (seqner : Seqner) (diger : Diger)
    (bigers : list Siger) (baks : list string) (sn : Z) (r : Registry)
    : Registry :=
  let key := dgKey (Serder_pre serder) (dig serder) in
  let r := upd_ancs (add_new key (seqner_sn seqner, diger_qb64 diger)) r in
  let r := if truthy bigers then upd_tibs (add_vals key bigers) r else r in
  let r := if truthy baks
           then upd_baks (add_vals key baks) (upd_baks (delete key) r)
           else r in
  upd_taes (add_new (snKey (Serder_pre serder) sn) (dig serder))
    (upd_tvts (add_new key serder) r).



(** The verifier of the sample backer registry after its inception. *)
Definition sample_btever : Tever :=
  {| tv_regk := Some "EB"; tv_local := false; tv_pre := "EI";
     tv_prefixer := "EB"; tv_sn := 0; tv_serder := sample_bvcp;
     tv_ilk := Ilks.vcp; tv_toad := 2; tv_baks := ["B1"; "B2"; "B3"];
     tv_cuts := []; tv_adds := []; tv_noBackers := false |}.

Section Effects.
Context `{Externals}.

(** The writes of [logEvent] under prefix [pre] at [sn]. *)
Definition tel_logged (pre : string) (sn : Z) (serder : Serder)
    (seqner : Seqner) (diger : Diger) (bigers : list Siger)
    (baks : list string) (r : Registry) : Registry :=
  let key := dgKey pre (dig serder) in
  let r := upd_ancs (add_new key (seqner_sn seqner, diger_qb64 diger)) r in
  let r := if truthy bigers then upd_tibs (add_vals key bigers) r else r in
  let r := if truthy baks
           then upd_baks (add_vals key baks) (upd_baks (delete key) r)
           else r in
  upd_tels (add_new (snKey pre sn) (dig serder))
    (upd_tvts (add_new key serder)
       (upd_tets (insert (pre, dig serder) nowIso8601) r)).

End Effects.

(** *** Accepted events and the hash chain *)

(** The first-seen index is hash chained when every entry above sequence
    number zero points at a stored event whose prior digest [p] is the entry
    just below it. *)
Definition hash_chained (r : Registry) : Prop :=
  ∀ K n d, (0 < n)%Z → tels r !! snKey K n = Some d →
    ∃ e d0, tvts r !! dgKey K d = Some e
            ∧ dig e = d
            ∧ k_p (ked e) = Some d0
            ∧ tels r !! snKey K (n - 1) = Some d0.

Section Reachability.
Context `{Externals}.

(** The worlds a [Tevery] gets to from empty stores by processing events
    drawn from [U] and draining its escrows, while the KEL store changes
    under it. *)
Inductive reachable (U : Serder → Prop) (self : Tevery) : World → Prop :=
  | reach_empty kel :
      reachable U self (empty_world kel)
  | reach_kel w kel :
      reachable U self w → reachable U self (set_db kel w)
  | reach_event w serder seqner diger wigers :
      reachable U self w → U serder →
      reachable U self
        (Tevery_processEvent self serder seqner diger wigers w).2
  | reach_escrows w :
      reachable U self w →
      reachable U self (Tevery_processEscrows self w).2.

(** Every stored event body comes from [U] and sits under its digest. *)
Definition tvt_sound (U : Serder → Prop) (r : Registry) : Prop :=
  ∀ k e, tvts r !! k = Some e → U e ∧ dig e = k.2.

(** The entries of a prefix are those below its count. *)
Definition tel_dense (r : Registry) : Prop :=
  ∀ K n, is_Some (tels r !! snKey K n)
         ↔ (0 ≤ n < cntTels_of (tels r) K)%Z.

Definition store_inv (U : Serder → Prop) (r : Registry) : Prop :=
  tvt_sound U r ∧ hash_chained r ∧ tel_dense r.

(** A cached verifier sits at the tip of its registry's log, and a prefix
    with a log has a cached verifier. *)
Definition cache_inv (r : Registry) : Prop :=
  (∀ R t, tevers r !! R = Some t →
     tv_prefixer t = R
     ∧ is_ok (Prefixer R) = true
     ∧ tels r !! snKey R (tv_sn t) = Some (dig (tv_serder t))
     ∧ cntTels_of (tels r) R = (tv_sn t + 1)%Z)
  ∧ (∀ K, is_ok (Prefixer K) = true → (0 < cntTels_of (tels r) K)%Z →
       is_Some (tevers r !! K)).

Definition world_inv (U : Serder → Prop) (r : Registry) : Prop :=
  store_inv U r ∧ cache_inv r.

(** [r'] extends [r] without touching the first-seen index or the cache:
    event bodies are only added, each from [U] under its digest. *)
Definition tvt_ext (U : Serder → Prop) (r r' : Registry) : Prop :=
  tels r' = tels r
  ∧ tevers r' = tevers r
  ∧ (∀ k e, tvts r !! k = Some e → tvts r' !! k = Some e)
  ∧ (∀ k e, tvts r' !! k = Some e →
       tvts r !! k = Some e ∨ (U e ∧ dig e = k.2)).

(** A computation that only ever extends the stores in that way. *)
Definition frames {A} (U : Serder → Prop) (c : M A) : Prop :=
  ∀ w, tvt_ext U (reger w) (reger (c w).2).

(** [r'] is [r] after one [logEvent] of [e] under [K] at [n], up to such
    extensions before and after. *)
Definition log_step (U : Serder → Prop) (K : string) (n : Z) (e : Serder)
    (r r' : Registry) : Prop :=
  ∃ r1 sq dg bg bk,
    tvt_ext U r r1 ∧ tvt_ext U (tel_logged K n e sq dg bg bk r1) r'.

End Reachability.

(** ** Sample runs *)

(** One call of [processEvent] by the sample dispatcher over the sample
    collaborators, the event anchored at KEL sequence number [n] under
    digest [k]. *)
Definition run_event (e : Serder) (n : Z) (k : string)
    (sigs : option (list Siger)) (w : World) : result unit * World :=
  @Tevery_processEvent sample_ext sample_tevery e (anchor n k).1 (anchor n k).2
    sigs w.

(** The backerless registry incepted, then its credential issued, then
    revoked. *)
Definition world_vcp : World :=
  (run_event sample_vcp 1 "K1" None (empty_world sample_kel)).2.

Definition world_iss : World := (run_event sample_iss 2 "K2" None world_vcp).2.

Definition world_rev : World := (run_event sample_rev 3 "K3" None world_iss).2.

(** The backer registry incepted with the signatures of its first two
    backers. *)
Definition world_bvcp : World :=
  (run_event sample_bvcp 4 "K4" (sample_sigs [0; 1]%nat)
     (empty_world sample_kel)).2.

(** The issuance arriving first, then the inception of its registry, then a
    drain of the escrows. *)
Definition world_early_iss : World :=
  (run_event sample_iss 2 "K2" None (empty_world sample_kel)).2.

Definition world_recovered : World :=
  (@Tevery_processEscrows sample_ext sample_tevery
     (run_event sample_vcp 1 "K1" None world_early_iss).2).2.

(** The verifier of the sample backerless registry after its inception. *)
Definition sample_tever : Tever :=
  {| tv_regk := Some "ER"; tv_local := false; tv_pre := "EI";
     tv_prefixer := "ER"; tv_sn := 0; tv_serder := sample_vcp;
     tv_ilk := Ilks.vcp; tv_toad := 0; tv_baks := [];
     tv_cuts := []; tv_adds := []; tv_noBackers := true |}.

(** The issuance checked twice against a KEL event that is not there. *)
Definition world_parked : World :=
  (@Tever_valAnchorBigs sample_ext sample_tever sample_iss (anchor 9 "K9").1
     (anchor 9 "K9").2 None (PyInt 0) [] world_vcp).2.

(** The backer registry incepted over the store that then is full. *)
Definition world_cramped : World :=
  (@Tevery_processEvent cramped_ext sample_tevery sample_bvcp (anchor 4 "K4").1
     (anchor 4 "K4").2 (sample_sigs [0; 1]%nat) (empty_world sample_kel)).2.

(** The events of the sample backerless registry. *)
Definition sample_events (e : Serder) : Prop :=
  e ∈ [sample_vcp; sample_iss; sample_rev].

(** ** What an operation leaves in place *)

(** [r'] still holds every entry [r] held in the first-seen index, among
    the event bodies and the anchor couples, and in the out-of-order and
    partially-witnessed escrows. *)
Definition store_grows (r r' : Registry) : Prop :=
  (∀ k d, tels r !! k = Some d → tels r' !! k = Some d)
  ∧ (∀ k e, tvts r !! k = Some e → tvts r' !! k = Some e)
  ∧ (∀ k a, ancs r !! k = Some a → ancs r' !! k = Some a)
  ∧ (∀ k d, oots r !! k = Some d → oots r' !! k = Some d)
  ∧ (∀ k d, twes r !! k = Some d → twes r' !! k = Some d).

(** [w'] is [w] with stores that have grown, the same cache of verifiers,
    the same KEL store and a cue deck that was only appended to. *)
Definition extends (w w' : World) : Prop :=
  store_grows (reger w) (reger w')
  ∧ tevers (reger w') = tevers (reger w)
  ∧ db w' = db w
  ∧ ∃ more, cues w' = (cues w ++ more)%list.

(** The same, with a cache that may have changed but has lost no
    registry. *)
Definition world_grows (w w' : World) : Prop :=
  store_grows (reger w) (reger w')
  ∧ (∀ k, is_Some (tevers (reger w) !! k) → is_Some (tevers (reger w') !! k))
  ∧ db w' = db w
  ∧ ∃ more, cues w' = (cues w ++ more)%list.

Definition quiet {A} (c : M A) : Prop := ∀ w, extends w (c w).2.
(** The dict of a notice that [state] built, completed with labels that
    [state] does not write: [t], and [ri] when one is given. *)
Definition Ksn_ked_with (n : Ksn) (t : string) (ri : option string)
    : KsnDict :=
  {| kd_v := kd_v (Ksn_ked n); kd_i := kd_i (Ksn_ked n);
     kd_s := kd_s (Ksn_ked n); kd_t := Some t; kd_d := kd_d (Ksn_ked n);
     kd_ii := kd_ii (Ksn_ked n); kd_dt := kd_dt (Ksn_ked n);
     kd_et := kd_et (Ksn_ked n); kd_a := kd_a (Ksn_ked n);
     kd_bt := kd_bt (Ksn_ked n); kd_br := kd_br (Ksn_ked n);
     kd_ba := kd_ba (Ksn_ked n); kd_b := kd_b (Ksn_ked n);
     kd_c := kd_c (Ksn_ked n); kd_ri := ri |}.
(** [k] under another version string: [Serder(ked=ked)] sizes the version
    string of the dict it is given and leaves the other fields alone. *)
Definition set_v (v : string) (k : Ked) : Ked :=
  {| k_v := v; k_i := k_i k; k_s := k_s k; k_t := k_t k; k_ii := k_ii k;
     k_c := k_c k; k_bt := k_bt k; k_b := k_b k; k_p := k_p k;
     k_br := k_br k; k_ba := k_ba k; k_ri := k_ri k; k_ra := k_ra k;
     k_dt := k_dt k |}.
(** ** The sample registry again, from the constructors

    The events that [incept], [issue] and [revoke] build over the sample
    collaborators for issuer ["EI"] and credential ["EV"], the KEL that
    anchors them, and the worlds after the first and the second. *)
Definition built_vcp : Serder :=
  {| ked := {| k_v := "KERI10JSON000000_"; k_i := "EEI"; k_s := "0";
               k_t := Ilks.vcp; k_ii := Some "EI"; k_c := Some ["NB"];
               k_bt := Some "0"; k_b := Some []; k_p := None; k_br := None;
               k_ba := None; k_ri := None; k_ra := None; k_dt := None |};
     dig := "DEEI0" |}.

Definition built_iss : Serder :=
  {| ked := {| k_v := "KERI10JSON000000_"; k_i := "EV"; k_s := "0";
               k_t := Ilks.iss; k_ii := None; k_c := None; k_bt := None;
               k_b := None; k_p := None; k_br := None; k_ba := None;
               k_ri := Some "EEI"; k_ra := None;
               k_dt := Some "2021-01-01T00:00:00.000000+00:00" |};
     dig := "DEV0" |}.

Definition built_rev : Serder :=
  {| ked := {| k_v := "KERI10JSON000000_"; k_i := "EV"; k_s := "1";
               k_t := Ilks.rev; k_ii := None; k_c := None; k_bt := None;
               k_b := None; k_p := Some "DEV0"; k_br := None; k_ba := None;
               k_ri := Some "EEI"; k_ra := None;
               k_dt := Some "2021-01-01T00:00:00.000000+00:00" |};
     dig := "DEV1" |}.

Definition built_kel : Baser :=
  {| kels := list_to_map [(("EI", 1%Z), ["K1"]); (("EI", 2%Z), ["K2"]);
                          (("EI", 3%Z), ["K3"])];
     evts := list_to_map
       [(("EI", "K1"), {| kel_dig := "K1"; kel_a := Some [seal_of built_vcp] |});
        (("EI", "K2"), {| kel_dig := "K2"; kel_a := Some [seal_of built_iss] |});
        (("EI", "K3"), {| kel_dig := "K3"; kel_a := Some [seal_of built_rev] |})] |}.

Definition built_world_vcp : World :=
  (run_event built_vcp 1 "K1" None (empty_world built_kel)).2.

Definition built_world_iss : World :=
  (run_event built_iss 2 "K2" None built_world_vcp).2.

Definition built_tever : Tever :=
  {| tv_regk := Some "EEI"; tv_local := false; tv_pre := "EI";
     tv_prefixer := "EEI"; tv_sn := 0; tv_serder := built_vcp;
     tv_ilk := Ilks.vcp; tv_toad := 0; tv_baks := [];
     tv_cuts := []; tv_adds := []; tv_noBackers := true |}.

Definition built_events (e : Serder) : Prop :=
  e ∈ [built_vcp; built_iss; built_rev].

(** The state notice of the sample backerless registry after its
    inception. *)
Definition sample_ksn : Ksn :=
  {| ksn_v := "KERI10JSON000000_"; ksn_i := "ER"; ksn_s := "0";
     ksn_d := "Dvcp"; ksn_ii := "EI";
     ksn_dt := "2021-01-01T00:00:00.000000+00:00"; ksn_et := Ilks.vcp;
     ksn_a := (1%Z, "K1"); ksn_bt := "0"; ksn_br := []; ksn_ba := [];
     ksn_b := []; ksn_c := ["NB"] |}.

(** A backer issuance of credential ["EW"] against the inception of the
    sample backer registry. *)
Definition sample_bis : Serder :=
  {| ked := {| k_v := "KERI10JSON000000_"; k_i := "EW"; k_s := "0";
               k_t := Ilks.bis; k_ii := None; k_c := None; k_bt := None;
               k_b := None; k_p := None; k_br := None; k_ba := None;
               k_ri := None;
               k_ra := Some {| seal_i := "EB"; seal_s := "0";
                               seal_d := "Dbvcp" |};
               k_dt := Some "2021-01-03T00:00:00.000000+00:00" |};
     dig := "Dbis" |}.

(** The rotation of the sample backer registry as [rotate] builds it over
    the sample collaborators. *)
Definition built_vrt : Serder := {| ked := ked sample_vrt; dig := "DEB1" |}.

(** A cached verifier is well formed for registry [R] over the store [r]:
    it names [R] as its registry and prefix, its sequence number is not
    negative, its last event is an inception or a rotation, its backers,
    cuts and adds have no duplicates, its threshold is within the backers,
    and the anchor couple of its event is stored. *)
Definition tever_sound (R : string) (t : Tever) (r : Registry) : Prop :=
  tv_regk t = Some R ∧ tv_prefixer t = R
  ∧ (0 ≤ tv_sn t)%Z ∧ tv_ilk t ∈ [Ilks.vcp; Ilks.vrt]
  ∧ NoDup (tv_baks t) ∧ NoDup (tv_cuts t) ∧ NoDup (tv_adds t)
  ∧ (if truthy (tv_baks t)
     then (1 ≤ tv_toad t ∧ tv_toad t ≤ len (tv_baks t))%Z
     else tv_toad t = 0%Z)
  ∧ is_Some (ancs r !! dgKey R (dig (tv_serder t))).

Definition cache_sound (r : Registry) : Prop :=
  ∀ R t, tevers r !! R = Some t → tever_sound R t r.

(** ** A store fault between two rotations

    The sample collaborators over a store that is full once the backer
    registry is incepted and has room again once its verifier has moved
    on: the fault is transient, and the one state of the model that tells
    the two moments apart is the sequence number of the cached verifier. *)
Definition flaky_ext : Externals := {|
  ample := @ample sample_ext;
  verifySigs := @verifySigs sample_ext;
  Verfer := @Verfer sample_ext;
  Prefixer := @Prefixer sample_ext;
  Prefixer_verify := @Prefixer_verify sample_ext;
  Prefixer_derive := @Prefixer_derive sample_ext;
  Serder_of_ked := @Serder_of_ked sample_ext;
  Versify := @Versify sample_ext;
  core_query := @core_query sample_ext;
  nowIso8601 := @nowIso8601 sample_ext;
  map_full := fun r => bool_decide (tv_sn <$> tevers r !! "EB" = Some 0%Z);
  dgKey_None := @dgKey_None sample_ext;
  oset_inter := @oset_inter sample_ext;
  oset_inter_members := @oset_inter_members sample_ext
|}.

(** A second rotation of the sample backer registry, chained on the
    first, and the KEL that anchors the three events of the registry. *)
Definition sample_vrt2 : Serder :=
  {| ked := {| k_v := "KERI10JSON000000_"; k_i := "EB"; k_s := "2";
               k_t := Ilks.vrt; k_ii := None; k_c := None;
               k_bt := Some "2"; k_b := None; k_p := Some "Dvrt";
               k_br := Some []; k_ba := Some []; k_ri := None;
               k_ra := None; k_dt := None |};
     dig := "Dvrt2" |}.

Definition gap_kel : Baser :=
  {| kels := list_to_map [(("EI", 4%Z), ["K4"]); (("EI", 5%Z), ["K5"]);
                          (("EI", 6%Z), ["K6"])];
     evts := list_to_map
       [(("EI", "K4"), {| kel_dig := "K4"; kel_a := Some [seal_of sample_bvcp] |});
        (("EI", "K5"), {| kel_dig := "K5"; kel_a := Some [seal_of sample_vrt] |});
        (("EI", "K6"), {| kel_dig := "K6"; kel_a := Some [seal_of sample_vrt2] |})] |}.

Definition gap_events (e : Serder) : Prop :=
  e ∈ [sample_bvcp; sample_vrt; sample_vrt2].

(** The inception, the first rotation (whose writes the store refuses) and
    the second rotation, processed in that order. *)
Definition flaky_event (e : Serder) (n : Z) (k : string)
    (sigs : option (list Siger)) (w : World) : result unit * World :=
  @Tevery_processEvent flaky_ext sample_tevery e (anchor n k).1 (anchor n k).2
    sigs w.

Definition world_gap_vcp : World :=
  (flaky_event sample_bvcp 4 "K4" (sample_sigs [0; 1]%nat)
     (empty_world gap_kel)).2.

Definition world_gap_vrt : World :=
  (flaky_event sample_vrt 5 "K5" (sample_sigs [0; 2]%nat) world_gap_vcp).2.

Definition world_gap : World :=
  (flaky_event sample_vrt2 6 "K6" (sample_sigs [0; 1]%nat) world_gap_vrt).2.

(** A rotation and a revocation whose prior digest [p] is not the digest
    of the event they follow. *)
Definition sample_vrt_forked : Serder :=
  {| ked := {| k_v := "KERI10JSON000000_"; k_i := "EB"; k_s := "1";
               k_t := Ilks.vrt; k_ii := None; k_c := None;
               k_bt := Some "2"; k_b := None; k_p := Some "Dfork";
               k_br := Some ["B2"]; k_ba := Some ["B4"]; k_ri := None;
               k_ra := None; k_dt := None |};
     dig := "Dvrtf" |}.

Definition sample_rev_forked : Serder :=
  {| ked := {| k_v := "KERI10JSON000000_"; k_i := "EV"; k_s := "1";
               k_t := Ilks.rev; k_ii := None; k_c := None; k_bt := None;
               k_b := None; k_p := Some "Dfork"; k_br := None; k_ba := None;
               k_ri := Some "ER"; k_ra := None;
               k_dt := Some "2021-01-02T00:00:00.000000+00:00" |};
     dig := "Drevf" |}.

(** A backer revocation of the sample credential: a kind the backerless
    sample registry does not take. *)
Definition sample_brv : Serder :=
  {| ked := {| k_v := "KERI10JSON000000_"; k_i := "EV"; k_s := "1";
               k_t := Ilks.brv; k_ii := None; k_c := None; k_bt := None;
               k_b := None; k_p := Some "Diss"; k_br := None; k_ba := None;
               k_ri := None;
               k_ra := Some {| seal_i := "ER"; seal_s := "0";
                               seal_d := "Dvcp" |};
               k_dt := Some "2021-01-02T00:00:00.000000+00:00" |};
     dig := "Dbrv" |}.

(** The sample collaborators over a store that is full once the first
    rotation of the backer registry is in the first-seen index: every write
    of [logEvent] goes through and the pin of the state notice is
    refused. *)
Definition late_ext : Externals := {|
  ample := @ample sample_ext;
  verifySigs := @verifySigs sample_ext;
  Verfer := @Verfer sample_ext;
  Prefixer := @Prefixer sample_ext;
  Prefixer_verify := @Prefixer_verify sample_ext;
  Prefixer_derive := @Prefixer_derive sample_ext;
  Serder_of_ked := @Serder_of_ked sample_ext;
  Versify := @Versify sample_ext;
  core_query := @core_query sample_ext;
  nowIso8601 := @nowIso8601 sample_ext;
  map_full := fun r => bool_decide (is_Some (tels r !! snKey "EB" 1));
  dgKey_None := @dgKey_None sample_ext;
  oset_inter := @oset_inter sample_ext;
  oset_inter_members := @oset_inter_members sample_ext
|}.


(** * Properties *)

Local Open Scope list_scope.
Local Open Scope nat_scope.

(** ** Results and the monad *)

Lemma check_ok (b : bool) (e : exn) : check b e = Ok tt ↔ b = false.
Proof. destruct b; simpl; split; congruence. Qed.

Lemma check_raise (b : bool) (e e' : exn) : check b e = Raise e' → b = true ∧ e' = e.
Proof. destruct b; simpl; [intros [= <-] | intros [=]]; auto. Qed.

Lemma rbind_ok {A B} (c : result A) (k : A → result B) (b : B) :
  rbind c k = Ok b ↔ ∃ a, c = Ok a ∧ k a = Ok b.
Proof.
  destruct c as [a|e]; simpl; split.
  - eauto.
  - intros (a' & [= ->] & ?); done.
  - discriminate.
  - intros (a' & [=] & ?).
Qed.

(** ** Ordered sets *)

Section OrderedSets.
Context `{Externals}.
Implicit Types l a b : list string.

Lemma list_difference_length_le l k : length (list_difference l k) ≤ length l.
Proof.
  induction l as [|x l IH]; simpl; [lia|].
  destruct (decide_rel _ x k); simpl; lia.
Qed.

Lemma list_difference_disjoint l k :
  (∀ x, x ∈ l → x ∉ k) → list_difference l k = l.
Proof.
  induction l as [|x l IH]; simpl; intros Hd; [done|].
  destruct (decide_rel _ x k) as [Hin|_].
  - exfalso. apply (Hd x); [left | done].
  - f_equal. apply IH. intros y Hy. apply Hd. by right.
Qed.

Lemma list_difference_length_eq l k :
  length (list_difference l k) = length l → ∀ x, x ∈ l → x ∉ k.
Proof.
  induction l as [|x l IH]; simpl; intros Hlen y Hy.
  - by apply elem_of_nil in Hy.
  - pose proof (list_difference_length_le l k).
    destruct (decide_rel _ x k) as [Hin|Hnin]; simpl in Hlen; [lia|].
    apply elem_of_cons in Hy as [->|Hy]; [done|].
    apply IH; [lia | done].
Qed.

Lemma elem_of_oset l x : x ∈ oset l ↔ x ∈ l.
Proof.
  induction l as [|y l IH]; simpl; [done|].
  rewrite !elem_of_cons, list_elem_of_difference, list_elem_of_singleton, IH.
  destruct (decide (x = y)); naive_solver.
Qed.

Lemma NoDup_oset l : NoDup (oset l).
Proof.
  induction l as [|y l IH]; simpl; [by apply NoDup_nil|].
  apply NoDup_cons. split.
  - rewrite list_elem_of_difference, list_elem_of_singleton. naive_solver.
  - by apply NoDup_list_difference.
Qed.

Lemma oset_length_le l : length (oset l) ≤ length l.
Proof.
  induction l as [|y l IH]; simpl; [lia|].
  pose proof (list_difference_length_le (oset l) [y]). lia.
Qed.

Lemma oset_NoDup_id l : NoDup l → oset l = l.
Proof.
  induction l as [|y l IH]; simpl; intros Hnd; [done|].
  apply NoDup_cons in Hnd as [Hy Hnd]. rewrite (IH Hnd). f_equal.
  apply list_difference_disjoint. intros x Hx ->%list_elem_of_singleton. done.
Qed.

Lemma oset_length_NoDup l : length (oset l) = length l → NoDup l.
Proof.
  induction l as [|y l IH]; simpl; intros Hlen; [by apply NoDup_nil|].
  pose proof (list_difference_length_le (oset l) [y]).
  pose proof (oset_length_le l).
  assert (length (oset l) = length l) as Hl by lia.
  apply NoDup_cons. split; [|by apply IH].
  intros Hy. apply elem_of_oset in Hy.
  eapply (list_difference_length_eq (oset l) [y]); [lia | exact Hy |].
  by apply list_elem_of_singleton.
Qed.

Lemma len_oset_NoDup l : len (oset l) = len l ↔ NoDup l.
Proof.
  unfold len. split.
  - intros Hl. apply oset_length_NoDup. lia.
  - intros Hnd. by rewrite oset_NoDup_id.
Qed.

Lemma list_intersection_length_le l k :
  length (list_intersection l k) ≤ length l.
Proof.
  induction l as [|x l IH]; simpl; [lia|].
  destruct (decide_rel _ x k); simpl; lia.
Qed.

(** When [(a & b) == b] holds, every member of [b] is in [a]. *)
Lemma oset_inter_eq a b : oset_inter a b = b → ∀ x, x ∈ b → x ∈ a.
Proof.
  intros Heq x Hx. rewrite <- Heq in Hx.
  by apply oset_inter_members in Hx as [Ha _].
Qed.

(** [a & b] is empty exactly when [a] and [b] share no member. *)
Lemma oset_inter_empty a b :
  truthy (oset_inter a b) = false ↔ ∀ x, x ∈ b → x ∉ a.
Proof.
  split.
  - intros Ht x Hb Ha.
    assert (x ∈ oset_inter a b) as Hx by (by apply oset_inter_members).
    destruct (oset_inter a b); [by apply elem_of_nil in Hx | done].
  - intros Hd. destruct (oset_inter a b) as [|x l] eqn:E; [done|].
    exfalso. assert (x ∈ oset_inter a b) as Hx by (rewrite E; left).
    apply oset_inter_members in Hx as [Ha Hb]. by apply (Hd x).
Qed.

(** Cutting a duplicate-free subset shortens a duplicate-free list by the
    size of the subset. *)
Lemma list_difference_length_subset a b :
  NoDup a → NoDup b → (∀ x, x ∈ b → x ∈ a) →
  (length (list_difference a b) + length b = length a)%nat.
Proof.
  intros Ha Hb Hsub. rewrite <- length_app.
  apply Permutation_length, NoDup_Permutation; [|done|].
  - apply NoDup_app. split_and!; [by apply NoDup_list_difference| |done].
    intros x Hx. by apply list_elem_of_difference in Hx as [_ ?].
  - intros x. rewrite elem_of_app, list_elem_of_difference.
    destruct (decide (x ∈ b)); naive_solver.
Qed.

End OrderedSets.

(** ** Rotation of the backer list *)

Lemma rbind_check {B} (b : bool) (e : exn) (k : unit → result B) :
  rbind (check b e) k = if b then Raise e else k tt.
Proof. by destruct b. Qed.

(** The list arithmetic shared by the constructor and the verifier: with
    duplicate-free [cuts] and [adds] that pass the three membership checks,
    the union of the difference with [adds] is the rotated list. *)
Lemma rotated_list (prev cuts adds : list string) :
  NoDup prev → NoDup cuts → NoDup adds →
  rotation_admissible prev cuts adds →
  backer_rotation prev cuts adds (oset_union (oset_diff prev cuts) adds).
Proof.
  intros Hp Hc Ha (Hsub & Hca & Hpa).
  assert (oset_union (oset_diff prev cuts) adds = list_difference prev cuts ++ adds)
    as ->.
  { unfold oset_union, oset_diff. f_equal. apply list_difference_disjoint.
    intros x Hx [Hin _]%list_elem_of_difference. by apply (Hpa x). }
  unfold backer_rotation. split_and!; try done.
  - apply NoDup_app. split_and!; [by apply NoDup_list_difference| |done].
    intros x [Hin _]%list_elem_of_difference. by apply Hpa.
  - intros x. by rewrite elem_of_app, list_elem_of_difference.
  - pose proof (list_difference_length_subset prev cuts Hp Hc Hsub).
    unfold len. rewrite length_app. lia.
Qed.

Section Rotation.
Context `{Externals}.

Lemma rotate_newbakset_spec (baks cuts adds : list string) :
  match rotate_newbakset baks cuts adds with
  | Ok nb => NoDup baks ∧ backer_rotation baks cuts adds nb
  | Raise e => e = ValueError
  end.
Proof.
  unfold rotate_newbakset, rotation_admissible. rewrite !rbind_check.
  case_bool_decide as Hb; [done|]. apply len_oset_NoDup in Hb.
  case_bool_decide as Hc; [done|]. apply len_oset_NoDup in Hc.
  rewrite (oset_NoDup_id baks Hb), (oset_NoDup_id cuts Hc).
  case_bool_decide as Hsub; [done|].
  pose proof (oset_inter_eq _ _ Hsub) as Hsub'.
  case_bool_decide as Ha; [done|]. apply len_oset_NoDup in Ha.
  rewrite (oset_NoDup_id adds Ha).
  destruct (truthy (oset_inter cuts adds)) eqn:Hca; [done|].
  rewrite oset_inter_empty in Hca.
  destruct (truthy (oset_inter baks adds)) eqn:Hba; [done|].
  rewrite oset_inter_empty in Hba.
  assert (rotation_admissible baks cuts adds) as Hadm.
  { split_and!; [done| |]; intros x Hx Hx'; [by apply (Hca x)|by apply (Hba x)]. }
  pose proof (rotated_list baks cuts adds Hb Hc Ha Hadm) as Hrot.
  case_bool_decide as Hlen; simpl.
  - exfalso. apply Hlen. apply Hrot.
  - done.
Qed.


(** What [Tever.rotate] has established when it returns, and the class of
    what it raises when the prior digest or the membership conditions are
    the reason. *)
Lemma Tever_rotate_spec (self : Tever) (serder : Serder) (sn : Z)
    (p : string) (cuts adds : list string) :
  k_p (ked serder) = Some p →
  k_br (ked serder) = Some cuts →
  k_ba (ked serder) = Some adds →
  match Tever_rotate self serder sn with
  | Ok (toad, nb, cuts', adds') =>
      cuts' = cuts ∧ adds' = adds
      ∧ Serder_pre serder = tv_prefixer self
      ∧ sn = (tv_sn self + 1)%Z
      ∧ p = dig (tv_serder self)
      ∧ NoDup (tv_baks self) ∧ NoDup cuts ∧ NoDup adds
      ∧ backer_rotation (tv_baks self) cuts adds nb
      ∧ (if truthy nb then (1 ≤ toad ∧ toad ≤ len nb)%Z else toad = 0%Z)
  | Raise e =>
      (p ≠ dig (tv_serder self) ∨ ¬ rotation_admissible (tv_baks self) cuts adds)
      → e = ValidationError
  end.
Proof.
  intros Hp Hbr Hba. unfold Tever_rotate. rewrite Hp, Hbr, Hba. simpl.
  rewrite !rbind_check.
  case_bool_decide as Hpre; [done|].
  case_bool_decide as Hsn; simpl; [|done].
  unfold Serder_compare. case_bool_decide as Hdig; simpl; [|done].
  case_bool_decide as Hc; [done|]. apply len_oset_NoDup in Hc.
  rewrite (oset_NoDup_id cuts Hc).
  case_bool_decide as Hsub; [done|].
  pose proof (oset_inter_eq _ _ Hsub) as Hsub'.
  case_bool_decide as Ha; [done|]. apply len_oset_NoDup in Ha.
  rewrite (oset_NoDup_id adds Ha).
  destruct (truthy (oset_inter cuts adds)) eqn:Hca; [done|].
  rewrite oset_inter_empty in Hca.
  destruct (truthy (oset_inter (oset (tv_baks self)) adds)) eqn:Hwa; [done|].
  rewrite oset_inter_empty in Hwa.
  assert (rotation_admissible (oset (tv_baks self)) cuts adds) as Hadm.
  { split_and!; [done| |]; intros x Hx Hx'; [by apply (Hca x)|by apply (Hwa x)]. }
  pose proof (rotated_list _ cuts adds (NoDup_oset (tv_baks self)) Hc Ha Hadm)
    as Hrot.
  assert (rotation_admissible (tv_baks self) cuts adds) as Hadm'.
  { destruct Hadm as (H1 & H2 & H3). split_and!; [|done|].
    - intros x Hx. apply elem_of_oset. by apply H1.
    - intros x Hx. apply H3. by apply elem_of_oset. }
  case_bool_decide as Hlen.
  { intros [Hne|Hne]; [by symmetry in Hdig|done]. }
  assert (NoDup (tv_baks self)) as Hnd.
  { apply len_oset_NoDup.
    destruct Hrot as (_ & _ & _ & _ & _ & _ & Hl). rewrite Hl in Hlen. lia. }
  rewrite (oset_NoDup_id _ Hnd) in *.
  destruct (k_bt (ked serder)) as [bt|]; simpl; [|naive_solver].
  destruct (int16 bt) as [toad|]; simpl; [|naive_solver].
  destruct (truthy (oset_union (oset_diff (tv_baks self) cuts) adds)) eqn:Ht.
  - rewrite !rbind_check.
    destruct (bool_decide (toad < 1)%Z || bool_decide (_ < toad)%Z) eqn:Hb;
      simpl; [naive_solver|].
    apply orb_false_iff in Hb as [Hb1 Hb2].
    apply bool_decide_eq_false in Hb1, Hb2. rewrite Ht.
    split_and!; try done; lia.
  - rewrite rbind_check. case_bool_decide as Hz; simpl; [naive_solver|].
    rewrite Ht. split_and!; done.
Qed.

End Rotation.

(** ** The event constructors *)

Section ConstructorFacts.
Context `{Externals}.

(** C10. A [toad] passed as a string never yields an event: in [incept]
    and in [rotate] the string branch formats the [str] with ["{:x}"],
    which raises, so the call ends in [ValueError] whatever the other
    arguments are; an event comes only from an integer or an omitted
    [toad]. *)
Theorem toad_string_never_builds (s : string) :
  (∀ pre baks cnfg, incept pre (PyStr s) baks cnfg = Raise ValueError)
  ∧ (∀ regk dig sn baks cuts adds,
       rotate regk dig sn (PyStr s) baks cuts adds = Raise ValueError)
  ∧ (∀ pre toad baks cnfg ev,
       incept pre toad baks cnfg = Ok ev → toad = PyNone ∨ ∃ n, toad = PyInt n)
  ∧ (∀ regk dig sn toad baks cuts adds ev,
       rotate regk dig sn toad baks cuts adds = Ok ev →
       toad = PyNone ∨ ∃ n, toad = PyInt n).
Proof.
  assert (∀ pre baks cnfg, incept pre (PyStr s) baks cnfg = Raise ValueError)
    as Hinc.
  { intros pre baks cnfg. unfold incept. rewrite !rbind_check.
    destruct (_ && _); [done|]. by case_bool_decide. }
  assert (∀ regk dig sn baks cuts adds,
            rotate regk dig sn (PyStr s) baks cuts adds = Raise ValueError)
    as Hrot.
  { intros regk dig sn baks cuts adds. unfold rotate. rewrite rbind_check.
    case_bool_decide; [done|].
    pose proof (rotate_newbakset_spec (default [] baks) (default [] cuts)
                  (default [] adds)) as Hs.
    destruct (rotate_newbakset _ _ _) as [nb|e]; simpl; [done|].
    by rewrite Hs. }
  split_and!; [done|done| |].
  - intros pre toad baks cnfg ev Hev. destruct toad as [|n|s']; eauto.
    revert Hev. unfold incept. rewrite !rbind_check.
    destruct (_ && _); [done|]. by case_bool_decide.
  - intros regk dig sn toad baks cuts adds ev Hev.
    destruct toad as [|n|s']; eauto.
    revert Hev. unfold rotate. rewrite rbind_check.
    case_bool_decide; [done|].
    by destruct (rotate_newbakset _ _ _) as [nb|e].
Qed.

(** C9, as the code has it. Whenever [dta] is given, the ["dta"] entry of
    the query dict holds the value of [dt], and whenever [dtb] is given the
    ["dtb"] entry holds the value of [dt] too: neither field carries its
    own parameter. *)
Theorem query_dta_dtb_carry_dt (regk vcid : string) (dt dta dtb : option string)
    (d : string) :
  query_qry regk vcid dt (Some d) dtb !! "dta" = Some dt
  ∧ query_qry regk vcid dt dta (Some d) !! "dtb" = Some dt.
Proof.
  unfold query_qry. split.
  - destruct dt, dtb; by simplify_map_eq.
  - destruct dt, dta; by simplify_map_eq.
Qed.

End ConstructorFacts.

Section RotationClaim.
Context `{Externals}.



End RotationClaim.

(** ** Anchors *)

Section AnchorFacts.
Context `{Externals}.

Lemma anchor_seal_unique (self : Tever) (seqner : Seqner) (diger : Diger)
    (kel : Baser) (s1 s2 : Seal) :
  anchor_seal self seqner diger kel s1 → anchor_seal self seqner diger kel s2 →
  s1 = s2.
Proof.
  intros (dg1 & ev1 & Hk1 & _ & He1 & _ & Ha1) (dg2 & ev2 & Hk2 & _ & He2 & _ & Ha2).
  rewrite Hk1 in Hk2. injection Hk2 as <-.
  rewrite He1 in He2. injection He2 as <-.
  rewrite Ha1 in Ha2. by injection Ha2.
Qed.

(** With the anchoring event found, the answer is that of the three
    subscripts and the comparison. *)
Lemma verifyAnchor_found (self : Tever) (serder : Serder) (seqner : Seqner)
    (diger : Diger) (kel : Baser) (seal : Seal) :
  anchor_seal self seqner diger kel seal →
  Tever_verifyAnchor self serder seqner diger kel
  = (spre <- getitem (sl_i seal) ;;
     ssn <- getitem (sl_s seal) ;;
     sdig <- getitem (sl_d seal) ;;
     Ok (bool_decide (spre = k_i (ked serder))
         && bool_decide (ssn = k_s (ked serder))
         && bool_decide (dig serder = sdig)))%res.
Proof.
  intros (dg & ev & Hk & Hne & He & Hd & Ha). unfold Tever_verifyAnchor.
  rewrite Hk. rewrite bool_decide_eq_false_2 by done.
  rewrite He. rewrite bool_decide_eq_false_2 by (by intros ?).
  rewrite Ha. by rewrite bool_decide_eq_false_2 by (by intros ?).
Qed.

(** Without it, the answer is [False]. *)
Lemma verifyAnchor_not_found (self : Tever) (serder : Serder)
    (seqner : Seqner) (diger : Diger) (kel : Baser) :
  (∀ seal, ¬ anchor_seal self seqner diger kel seal) →
  Tever_verifyAnchor self serder seqner diger kel = Ok false.
Proof.
  intros Hno. unfold Tever_verifyAnchor.
  destruct (getKeLast kel _) as [dg|] eqn:Hk; [|done].
  case_bool_decide as Hne; [done|].
  destruct (getEvt kel _) as [ev|] eqn:He; [|done].
  case_bool_decide as Hd; [done|].
  destruct (kel_a ev) as [seal|] eqn:Ha; [|done].
  case_bool_decide as Hl; [done|].
  destruct seal as [|seal0 [|seal1 rest]].
  - done.
  - exfalso. apply (Hno seal0). exists dg, ev. by split_and!.
  - exfalso. unfold len in Hl. simpl in Hl. lia.
Qed.

Lemma anchor_seal_dec (self : Tever) (seqner : Seqner) (diger : Diger)
    (kel : Baser) :
  (∃ seal, anchor_seal self seqner diger kel seal)
  ∨ (∀ seal, ¬ anchor_seal self seqner diger kel seal).
Proof.
  unfold anchor_seal.
  destruct (getKeLast kel (snKey (tv_pre self) (seqner_sn seqner)))
    as [dg|] eqn:Hk; [|right; naive_solver].
  destruct (decide (dg = "")) as [->|Hne]; [right; naive_solver|].
  destruct (getEvt kel (dgKey (tv_pre self) dg)) as [ev|] eqn:He;
    [|right; naive_solver].
  destruct (decide (kel_dig ev = diger_qb64 diger)) as [Hd|Hd];
    [|right; naive_solver].
  destruct (kel_a ev) as [[|seal0 [|seal1 rest]]|] eqn:Ha;
    [right; naive_solver| |right; naive_solver|right; naive_solver].
  left. exists seal0, dg, ev. by split_and!.
Qed.

(** C3, as the code has it. [verifyAnchor] answers [True] exactly when the
    KEL store has a last digest at [(self.pre, seqner.sn)], the event stored
    under that digest is there and digests to [diger], its [a] field holds
    exactly one seal, and that seal names the identifier, the sequence
    number and the digest of the TEL event.  When that one seal lacks one of
    the labels [i], [s], [d] the call raises [KeyError] instead of
    answering; in every remaining case it answers [False]. *)
Theorem verifyAnchor_outcomes (self : Tever) (serder : Serder)
    (seqner : Seqner) (diger : Diger) (kel : Baser) :
  let run := Tever_verifyAnchor self serder seqner diger kel in
  let anchored :=
    ∃ seal, anchor_seal self seqner diger kel seal ∧ seal_names serder seal in
  let broken :=
    ∃ seal, anchor_seal self seqner diger kel seal ∧ ¬ seal_whole seal in
  (run = Ok true ↔ anchored)
  ∧ (run = Raise KeyError ↔ broken)
  ∧ (run = Ok false ↔ ¬ anchored ∧ ¬ broken)
  ∧ (run = Ok true ∨ run = Ok false ∨ run = Raise KeyError).
Proof.
  intros run anchored broken. unfold run, anchored, broken.
  destruct (anchor_seal_dec self seqner diger kel) as [[seal Hs]|Hno].
  - rewrite (verifyAnchor_found self serder seqner diger kel seal Hs).
    assert (∀ P : Seal → Prop,
              (∃ s, anchor_seal self seqner diger kel s ∧ P s) ↔ P seal)
      as Hone.
    { intros P. split; [|by exists seal].
      intros (s & Hs' & HP).
      by rewrite (anchor_seal_unique _ _ _ _ _ _ Hs Hs'). }
    rewrite !Hone. unfold seal_names, seal_whole, is_Some.
    destruct (sl_i seal) as [i|], (sl_s seal) as [s|], (sl_d seal) as [d|];
      simpl; repeat case_bool_decide; simpl;
      (split_and!; [naive_solver | naive_solver | naive_solver | auto]).
  - rewrite (verifyAnchor_not_found self serder seqner diger kel Hno).
    split_and!; [naive_solver|naive_solver| |auto].
    split; [|done]. intros _. naive_solver.
Qed.

End AnchorFacts.

(** ** Stepping through the monad *)

Section MonadSteps.
Context `{Externals}.

Local Open Scope M_scope.

Lemma bind_lift {A B} (r : result A) (k : A → M B) (w : World) :
  (x <- lift r ;; k x) w
  = match r with Ok a => k a w | Raise e => (Raise e, w) end.
Proof. unfold bind, lift. by destruct r. Qed.

Lemma bind_lift_check {B} (b : bool) (e : exn) (k : M B) (w : World) :
  (lift (check b e) ;;; k) w = if b then (Raise e, w) else k w.
Proof. unfold bind, lift. by destruct b. Qed.

Lemma bind_ret {A B} (a : A) (k : A → M B) (w : World) :
  (x <- ret a ;; k x) w = k a w.
Proof. done. Qed.

Lemma bind_raise {A B} (e : exn) (k : A → M B) (w : World) :
  (x <- raise e ;; k x) w = (Raise e, w).
Proof. done. Qed.

Lemma bind_read {A B} (f : Registry → A) (k : A → M B) (w : World) :
  (x <- store_read f ;; k x) w = k (f (reger w)) w.
Proof. done. Qed.

Lemma bind_assoc {A B C} (c : M A) (k : A → M B) (k' : B → M C) (w : World) :
  (y <- (x <- c ;; k x) ;; k' y) w = (x <- c ;; y <- k x ;; k' y) w.
Proof. unfold bind. destruct (c w) as [[a|e] w']; done. Qed.

Lemma bind_write {A B} (f : Registry → A * Registry) (k : A → M B) (w : World) :
  map_full (reger w) = false →
  (x <- store_write f ;; k x) w
  = k (f (reger w)).1 (set_reger (f (reger w)).2 w).
Proof. intros Hf. unfold bind, store_write. by rewrite Hf. Qed.

Lemma bind_write_full {A B} (f : Registry → A * Registry) (k : A → M B)
    (w : World) :
  map_full (reger w) = true →
  (x <- store_write f ;; k x) w = (Raise MapFullError, w).
Proof. intros Hf. unfold bind, store_write. by rewrite Hf. Qed.

Lemma bind_when {B} (b : bool) (c : M unit) (k : M B) (w : World) :
  (when b c ;;; k) w = if b then (c ;;; k) w else k w.
Proof. by destruct b. Qed.

Lemma check_labels_ok (labels : list string) (kd : Ked) :
  check_labels labels kd = Ok tt → ∀ l, l ∈ labels → has_label kd l = true.
Proof.
  unfold check_labels. intros Hc%check_ok l Hl.
  apply negb_false_iff in Hc. rewrite forallb_forall in Hc.
  apply Hc. by apply list_elem_of_In.
Qed.

Lemma check_labels_raise (labels : list string) (kd : Ked) (e : exn) :
  check_labels labels kd = Raise e → e = ValidationError.
Proof. unfold check_labels. by intros [_ ->]%check_raise. Qed.

End MonadSteps.

(** ** The configuration trait gates the event kinds *)

Section TraitGate.
Context `{Externals}.

Local Open Scope M_scope.

Lemma revoke_barred (self : Tever) (serder : Serder) (seqner : Seqner)
    (diger : Diger) (sn : Z) (bigers : option (list Siger)) (w : World) :
  let labels := if decide (k_t (ked serder) = Ilks.rev) then REV_LABELS
                else BRV_LABELS in
  let prior := tels (reger w)
                 !! snKey (nsKey [tv_prefixer self; k_i (ked serder)])
                      (sn - 1) in
  let run := Tever_revoke self serder seqner diger sn bigers w in
  barred (tv_noBackers self) (k_t (ked serder)) →
  (check_labels labels (ked serder) ≠ Ok tt ∨ is_Some prior
   ∨ dgKey_None = Ok tt →
   run = (Raise ValidationError, w))
  ∧ (check_labels labels (ked serder) = Ok tt → prior = None →
     ∀ e, dgKey_None = Raise e → run = (Raise e, w)).
Proof.
  intros labels prior run Hb. unfold run, Tever_revoke. fold labels.
  rewrite bind_lift.
  destruct (check_labels labels (ked serder)) as [[]|e] eqn:Hl.
  2: { rewrite (check_labels_raise _ _ _ Hl). split; [done|]. by intros. }
  unfold getTel. rewrite bind_read. fold prior.
  destruct prior as [d|] eqn:Htel.
  2: { rewrite bind_assoc, bind_lift. split.
       - intros [Hne|[[? Hs]|Hk]]; [done|done|].
         rewrite Hk. by rewrite bind_ret.
       - intros _ _ e He. by rewrite He. }
  split; [intros _|by intros].
  unfold getTvt. rewrite bind_read.
  destruct (tvts (reger w) !! _) as [iserder|]; [|done].
  assert (is_Some (k_p (ked serder))) as [p Hp].
  { pose proof (check_labels_ok _ _ Hl "p") as Hp. unfold labels in Hp.
    destruct (decide (k_t (ked serder) = Ilks.rev));
      (ospecialize* Hp; [set_solver|]);
      by apply bool_decide_eq_true in Hp. }
  rewrite Hp, bind_lift. simpl. rewrite bind_lift_check.
  destruct (negb _); [done|].
  unfold barred in Hb.
  destruct (tv_noBackers self), (k_t (ked serder)); simpl;
    try done; set_solver.
Qed.

Lemma issue_barred (self : Tever) (serder : Serder) (seqner : Seqner)
    (diger : Diger) (sn : Z) (bigers : option (list Siger)) (w : World) :
  barred (tv_noBackers self) (k_t (ked serder)) →
  Tever_issue self serder seqner diger sn bigers w
  = (Raise ValidationError, w).
Proof.
  intros Hb. unfold Tever_issue.
  rewrite bind_lift.
  destruct (check_labels _ _) as [[]|e] eqn:Hl;
    [|by rewrite (check_labels_raise _ _ _ Hl)].
  unfold barred in Hb.
  destruct (tv_noBackers self), (k_t (ked serder)); simpl;
    try done; set_solver.
Qed.

(** C6, as the code has it.  For a kind the trait bars ([vrt], [bis] and
    [brv] on a backerless registry, [iss] and [rev] on one with backers)
    [Tever.update] always raises, before any write: the verifier and the
    stores, the first-seen index [tels] among them, are as they were, and
    [update] never reassigns the trait.  An [sn] that [validateSN] refuses
    leaves with what [validateSN] raised.  Past that check a [vrt], [iss] or
    [bis] raises [ValidationError].  A [rev] or [brv] raises
    [ValidationError] when its labels are incomplete or when the credential
    has an entry at [sn - 1]; when it has none, [Tever.revoke] builds the
    key of the prior event from [None] (lines 1131 and 1132) ahead of its
    "revoke without issue" exit and of the trait checks, so the event
    leaves with whatever [dgKey] raises there, and with [ValidationError]
    only if [dgKey] lets [None] pass. *)
Theorem update_bars_kinds_by_trait (self : Tever) (serder : Serder)
    (seqner : Seqner) (diger : Diger) (bigers : option (list Siger))
    (w : World) :
  let kd := ked serder in
  let run := Tever_update self serder seqner diger bigers w in
  let icp := bool_decide (k_t kd ∈ [Ilks.iss; Ilks.bis]) in
  let labels := if decide (k_t kd = Ilks.rev) then REV_LABELS
                else BRV_LABELS in
  barred (tv_noBackers self) (k_t kd) →
  (∃ e, run = (Raise e, self, w))
  ∧ (∀ e, validateSN (k_s kd) icp = Raise e → run = (Raise e, self, w))
  ∧ (∀ sn, validateSN (k_s kd) icp = Ok sn →
       (k_t kd ∈ [Ilks.vrt; Ilks.iss; Ilks.bis] →
        run = (Raise ValidationError, self, w))
       ∧ (k_t kd ∈ [Ilks.rev; Ilks.brv] →
          let prior := tels (reger w)
                         !! snKey (nsKey [tv_prefixer self; k_i kd])
                              (sn - 1) in
          (check_labels labels kd ≠ Ok tt ∨ is_Some prior
           ∨ dgKey_None = Ok tt →
           run = (Raise ValidationError, self, w))
          ∧ (check_labels labels kd = Ok tt → prior = None →
             ∀ e, dgKey_None = Raise e → run = (Raise e, self, w))))
  ∧ ∀ serder' seqner' diger' bigers' w',
      tv_noBackers (Tever_update self serder' seqner' diger' bigers' w').1.2
      = tv_noBackers self.
Proof.
  intros kd run icp labels Hb.
  assert (∀ e, validateSN (k_s kd) icp = Raise e → run = (Raise e, self, w))
    as Hraise.
  { intros e He. unfold run, Tever_update. fold kd icp. by rewrite He. }
  assert (∀ sn, validateSN (k_s kd) icp = Ok sn →
            k_t kd ∈ [Ilks.vrt; Ilks.iss; Ilks.bis] →
            run = (Raise ValidationError, self, w)) as Hval.
  { intros sn Hsn Hk. unfold run, Tever_update. fold kd icp. rewrite Hsn.
    pose proof (issue_barred self serder seqner diger sn bigers w Hb) as Hi.
    unfold barred in Hb. fold kd in Hb.
    clear Hraise. clearbody icp. subst kd.
    rewrite !elem_of_cons, elem_of_nil in Hk.
    destruct (k_t (ked serder)) eqn:Ht; try (by rewrite ?Hi);
      try (by destruct Hk as [?|[?|[?|[]]]]).
    destruct (tv_noBackers self); [done|].
    rewrite !elem_of_cons, elem_of_nil in Hb.
    by destruct Hb as [?|[?|[]]]. }
  assert (∀ sn, validateSN (k_s kd) icp = Ok sn →
            k_t kd ∈ [Ilks.rev; Ilks.brv] →
            run = ((Tever_revoke self serder seqner diger sn bigers w).1,
                   self,
                   (Tever_revoke self serder seqner diger sn bigers w).2))
    as Hrun.
  { intros sn Hsn Hk. unfold run, Tever_update. fold kd icp. rewrite Hsn.
    clear -Hk. subst kd. rewrite !elem_of_cons, elem_of_nil in Hk.
    by destruct Hk as [->|[->|[]]]. }
  assert (∀ sn, validateSN (k_s kd) icp = Ok sn →
            k_t kd ∈ [Ilks.rev; Ilks.brv] →
            let prior := tels (reger w)
                           !! snKey (nsKey [tv_prefixer self; k_i kd])
                                (sn - 1) in
            (check_labels labels kd ≠ Ok tt ∨ is_Some prior
             ∨ dgKey_None = Ok tt →
             run = (Raise ValidationError, self, w))
            ∧ (check_labels labels kd = Ok tt → prior = None →
               ∀ e, dgKey_None = Raise e → run = (Raise e, self, w)))
    as Hrev.
  { intros sn Hsn Hk prior. rewrite (Hrun sn Hsn Hk).
    destruct (revoke_barred self serder seqner diger sn bigers w Hb)
      as [Hv Hd].
    split.
    - intros Hc. by rewrite (Hv Hc).
    - intros Hl Hp e He. by rewrite (Hd Hl Hp e He). }
  split_and!; [|done|by intros sn Hsn; split; eauto|].
  - destruct (validateSN (k_s kd) icp) as [sn|e] eqn:Hsn;
      [|rewrite (Hraise e eq_refl); eauto].
    destruct (decide (k_t kd ∈ [Ilks.vrt; Ilks.iss; Ilks.bis]))
      as [Hk|Hk]; [rewrite (Hval sn eq_refl Hk); eauto|].
    assert (k_t kd ∈ [Ilks.rev; Ilks.brv]) as Hrv.
    { clear -Hb Hk. unfold barred in Hb. subst kd.
      destruct (tv_noBackers self);
        rewrite !elem_of_cons, elem_of_nil in *; tauto. }
    destruct (Hrev sn eq_refl Hrv) as [Hv Hd].
    destruct (check_labels labels kd) as [[]|e] eqn:Hl;
      [|rewrite Hv; [eauto|by left]].
    destruct (tels (reger w)
                !! snKey (nsKey [tv_prefixer self; k_i kd]) (sn - 1))
      as [d|] eqn:Hp;
      [rewrite Hv; [eauto|right; left; by eexists]|].
    destruct dgKey_None as [[]|e] eqn:He;
      [rewrite Hv; [eauto|by right; right]|].
    rewrite (Hd eq_refl eq_refl e eq_refl). eauto.
  - clear. intros serder' seqner' diger' bigers' w'. unfold Tever_update.
    destruct (validateSN _ _) as [sn|e]; [|done].
    destruct (k_t (ked serder')); try done.
    destruct (tv_noBackers self) eqn:Hnb; [done|].
    destruct (Tever_rotate _ _ _) as [[[[toad baks] cuts] adds]|]; [|by simpl].
    destruct (Tever_valAnchorBigs _ _ _ _ _ _ _ _) as [[b|e] w1]; by simpl.
Qed.

End TraitGate.

(** ** Ordering at the dispatcher *)

Section Dispatch.
Context `{Externals}.

Local Open Scope M_scope.

Lemma validateSN_sn (s : string) (inceptive : bool) (n : Z) :
  validateSN s inceptive = Ok n →
  int16 s = Ok n ∧ (if inceptive then n = 0 else 1 ≤ n)%Z.
Proof.
  unfold validateSN. destruct (canonical_hex s); simpl; [|done].
  destruct (int16 s) as [m|]; [|done].
  destruct inceptive; rewrite rbind_check; case_bool_decide; try done;
    intros [= ->]; split; try done; lia.
Qed.

Lemma escrowOOEvent_run (serder : Serder) (seqner : Seqner) (diger : Diger)
    (sn : Z) (w : World) :
  (∀ r, map_full r = false) →
  Serder_sn serder = Ok sn →
  Tevery_escrowOOEvent serder seqner diger w
  = (Ok tt, set_reger (oot_escrowed serder seqner diger sn (reger w)) w).
Proof.
  intros Hfull Hsn. unfold Tevery_escrowOOEvent, putTvt, putAnc, putOot.
  rewrite bind_write by done. rewrite bind_write by done.
  rewrite bind_lift, Hsn. rewrite bind_write by done. done.
Qed.

Lemma add_new_lookup `{Countable K} {V} (k : K) (v : V) (m : gmap K V) :
  add_new k v m !! k = Some (default v (m !! k)).
Proof.
  unfold add_new. destruct (m !! k) as [v'|] eqn:E; simpl; [done|].
  by rewrite lookup_insert_eq.
Qed.

Lemma add_new_lookup_ne `{Countable K} {V} (k k' : K) (v : V) (m : gmap K V) :
  k ≠ k' → add_new k v m !! k' = m !! k'.
Proof.
  intros Hne. unfold add_new. destruct (m !! k); [done|].
  by rewrite lookup_insert_ne.
Qed.

(** The known-registry branch of [processEvent], once the checks that
    precede it have passed. *)
Lemma processEvent_known_run (self : Tevery) (serder : Serder)
    (seqner : Seqner) (diger : Diger) (wigers : option (list Siger))
    (w : World) (regk : string) (tever : Tever) (sn : Z) :
  let ilk := k_t (ked serder) in
  let pre := Serder_pre serder in
  let cnt := cntTels_of (tels (reger w)) (nsKey [tv_prefixer tever; pre]) in
  let sno := if decide (ilk = Ilks.vrt) then (tv_sn tever + 1)%Z
             else if decide (cnt = 0%Z) then 0%Z else (cnt - 1 + 1)%Z in
  is_ok (Prefixer pre) = true →
  Tevery_registryKey serder = Ok regk →
  validateSN (k_s (ked serder))
             (bool_decide (ilk ∈ [Ilks.vcp; Ilks.iss; Ilks.bis])) = Ok sn →
  locality_gate self regk = Ok tt →
  tevers (reger w) !! regk = Some tever →
  Tevery_processEvent self serder seqner diger wigers w
  = (if bool_decide (ilk ∈ [Ilks.vcp])
     then (Raise LikelyDuplicitousError, w)
     else if bool_decide (sno < sn)%Z
          then (Tevery_escrowOOEvent serder seqner diger ;;;
                raise OutOfOrderError) w
          else if bool_decide (sn = sno)
               then ((Tever_update tever serder seqner diger wigers w).1.1,
                     set_tever regk
                       (Tever_update tever serder seqner diger wigers w).1.2
                       (Tever_update tever serder seqner diger wigers w).2)
               else (Raise LikelyDuplicitousError, w)).
Proof.
  intros ilk pre cnt sno Hpre Hkey Hsn Hgate Hknown.
  unfold Tevery_processEvent. fold pre. fold ilk.
  rewrite bind_lift. destruct (Prefixer pre) as [[]|]; [|done].
  rewrite bind_lift, Hkey. rewrite bind_lift, Hsn. rewrite bind_lift, Hgate.
  unfold get_tever. rewrite bind_read, Hknown.
  destruct (bool_decide (ilk ∈ [Ilks.vcp])) eqn:Hvcp; [done|].
  unfold sno, cnt.
  destruct (decide (ilk = Ilks.vrt)) as [Hvrt|Hvrt].
  - rewrite (bool_decide_eq_true_2 (ilk ∈ [Ilks.vrt]))
      by (rewrite Hvrt; set_solver).
    rewrite bind_ret.
    destruct (bool_decide (_ < sn)%Z); [done|].
    by destruct (bool_decide (sn = _)).
  - rewrite (bool_decide_eq_false_2 (ilk ∈ [Ilks.vrt])) by set_solver.
    unfold Tever_vcSn, cntTels. rewrite !bind_assoc, bind_read, !bind_ret.
    destruct (decide (_ = 0%Z)) as [Hz|Hz].
    + rewrite (bool_decide_eq_true_2 _ Hz).
      destruct (bool_decide (_ < sn)%Z); [done|].
      by destruct (bool_decide (sn = _)).
    + rewrite (bool_decide_eq_false_2 _ Hz).
      destruct (bool_decide (_ < sn)%Z); [done|].
      by destruct (bool_decide (sn = _)).
Qed.

(** C1. For an event whose registry is in the cache (and that has passed
    the prefix, sequence-number and locality checks that come first),
    [processEvent] compares the event's [sn] with the expected [sno]:
    [tever.sn + 1] for a [vrt], for a credential event [0] when the
    credential has no TEL entry and its current sequence number plus one
    otherwise.  A [vcp] raises likely-duplicitous with nothing written; a
    smaller [sn] does the same; an equal [sn] is the call of
    [tever.update], whose outcome and verifier are the outcome and the
    cached verifier; a larger [sn] is written to the out-of-order escrow
    (event body, anchor couple and the digest under [oot]) and raises
    out-of-order. *)
Theorem processEvent_known_registry (self : Tevery) (serder : Serder)
    (seqner : Seqner) (diger : Diger) (wigers : option (list Siger))
    (w : World) (regk : string) (tever : Tever) (sn : Z) :
  let ilk := k_t (ked serder) in
  let pre := Serder_pre serder in
  let cnt := cntTels_of (tels (reger w)) (nsKey [tv_prefixer tever; pre]) in
  let sno := if decide (ilk = Ilks.vrt) then (tv_sn tever + 1)%Z
             else if decide (cnt = 0%Z) then 0%Z else (cnt - 1 + 1)%Z in
  let run := Tevery_processEvent self serder seqner diger wigers w in
  is_ok (Prefixer pre) = true →
  Tevery_registryKey serder = Ok regk →
  validateSN (k_s (ked serder))
             (bool_decide (ilk ∈ [Ilks.vcp; Ilks.iss; Ilks.bis])) = Ok sn →
  locality_gate self regk = Ok tt →
  tevers (reger w) !! regk = Some tever →
  (ilk = Ilks.vcp → run = (Raise LikelyDuplicitousError, w))
  ∧ (ilk ≠ Ilks.vcp → (sn < sno)%Z → run = (Raise LikelyDuplicitousError, w))
  ∧ (ilk ≠ Ilks.vcp → sn = sno →
     run = ((Tever_update tever serder seqner diger wigers w).1.1,
            set_tever regk (Tever_update tever serder seqner diger wigers w).1.2
                      (Tever_update tever serder seqner diger wigers w).2))
  ∧ (ilk ≠ Ilks.vcp → (sno < sn)%Z → (∀ r, map_full r = false) →
     run = (Raise OutOfOrderError,
            set_reger (oot_escrowed serder seqner diger sn (reger w)) w)
     ∧ oots (oot_escrowed serder seqner diger sn (reger w)) !! snKey pre sn
       = Some (default (dig serder) (oots (reger w) !! snKey pre sn))).
Proof.
  intros ilk pre cnt sno run Hpre Hkey Hsn Hgate Hknown.
  pose proof (processEvent_known_run self serder seqner diger wigers w regk
                tever sn Hpre Hkey Hsn Hgate Hknown) as Hrun.
  fold ilk pre cnt sno run in Hrun.
  split_and!.
  - intros Hi. rewrite Hrun. rewrite bool_decide_eq_true_2; [done|].
    rewrite Hi. set_solver.
  - intros Hi Hlt. rewrite Hrun.
    rewrite bool_decide_eq_false_2 by set_solver.
    rewrite bool_decide_eq_false_2 by lia.
    by rewrite bool_decide_eq_false_2 by lia.
  - intros Hi Heq. rewrite Hrun.
    rewrite bool_decide_eq_false_2 by set_solver.
    rewrite bool_decide_eq_false_2 by lia.
    by rewrite bool_decide_eq_true_2 by done.
  - intros Hi Hgt Hfull. split.
    + rewrite Hrun.
      rewrite bool_decide_eq_false_2 by set_solver.
      rewrite bool_decide_eq_true_2 by done.
      apply validateSN_sn in Hsn as [Hsn _].
      unfold bind.
      by rewrite (escrowOOEvent_run serder seqner diger sn w Hfull Hsn).
    + unfold oot_escrowed. simpl. apply add_new_lookup.
Qed.

End Dispatch.

(** ** Anchor and backer signatures *)

Section AnchorBigs.
Context `{Externals}.

Local Open Scope M_scope.

Lemma escrowALEvent_run (serder : Serder) (seqner : Seqner) (diger : Diger)
    (bigers : list Siger) (baks : list pytext) (vals : list string) (sn : Z)
    (w : World) :
  (∀ r, map_full r = false) →
  encode_all baks = Ok vals →
  Serder_sn serder = Ok sn →
  Tever_escrowALEvent serder seqner diger bigers baks w
  = (Ok (is_new (snKey (Serder_pre serder) sn) (taes (reger w))),
     set_reger (tae_escrowed serder seqner diger bigers vals sn (reger w)) w).
Proof.
  intros Hfull Henc Hsn.
  assert (truthy vals = truthy baks) as Htr.
  { destruct baks as [|b baks]; simpl in *; [by injection Henc as <-|].
    destruct (encode b); simpl in *; [|done].
    destruct (encode_all baks); simpl in *; [|done]. by injection Henc as <-. }
  unfold Tever_escrowALEvent, tae_escrowed, putAnc, putTibs, putTvt, putTae,
    delBaks, putBaks.
  rewrite Htr.
  destruct (truthy bigers), (truthy baks);
    repeat (first [ rewrite bind_write by done
                  | rewrite bind_when
                  | rewrite bind_lift, ?Henc, ?Hsn
                  | rewrite bind_ret
                  | rewrite bind_assoc ]; cbn [fst snd]);
    unfold store_write; rewrite Hfull; done.
Qed.



End AnchorBigs.

(** ** Logging and the state notice *)

Section Logging.
Context `{Externals}.

Local Open Scope M_scope.

Lemma logEvent_run (pre : string) (sn : Z) (serder : Serder)
    (seqner : Seqner) (diger : Diger) (bigers : list Siger)
    (bks : list string) (w : World) :
  (∀ r, map_full r = false) →
  Tever_logEvent pre sn serder seqner diger bigers bks w
  = (Ok tt, set_reger (tel_logged pre sn serder seqner diger bigers bks
                         (reger w)) w).
Proof.
  intros Hfull.
  unfold Tever_logEvent, tel_logged, putAnc, putTibs, putTvt, putTel,
    delBaks, putBaks, pinTets.
  destruct (truthy bigers), (truthy bks);
    repeat (first [ rewrite bind_write by done
                  | rewrite bind_when
                  | rewrite bind_ret
                  | rewrite bind_assoc ]; cbn [fst snd]);
    done.
Qed.

(** [state] returns for a sequence number, kind, backer list and
    threshold that the verifier has validated. *)
Lemma state_ok (pre dg : string) (sn : Z) (ri : string) (eilk : Ilks.t)
    (br ba : list string) (a : Z * string) (toad : Z)
    (wits cnfg : list string) :
  (0 ≤ sn)%Z → eilk ∈ [Ilks.vcp; Ilks.vrt] →
  NoDup wits → NoDup br → NoDup ba →
  (if truthy wits then (1 ≤ toad ∧ toad ≤ len wits)%Z else toad = 0%Z) →
  is_ok (state pre dg sn ri eilk br ba a None (Some toad) (Some wits)
               (Some cnfg)) = true.
Proof.
  intros Hsn Hilk Hw Hbr Hba Htoad. unfold state. rewrite !rbind_check.
  rewrite bool_decide_eq_false_2 by lia.
  rewrite (bool_decide_eq_true_2 _ Hilk). simpl.
  rewrite (bool_decide_eq_false_2 (len (oset wits) ≠ len wits))
    by (intros Hne; apply Hne; by apply len_oset_NoDup).
  rewrite (oset_NoDup_id wits Hw).
  rewrite (bool_decide_eq_false_2 (len (oset br) ≠ len br))
    by (intros Hne; apply Hne; by apply len_oset_NoDup).
  rewrite (bool_decide_eq_false_2 (len (oset ba) ≠ len ba))
    by (intros Hne; apply Hne; by apply len_oset_NoDup).
  destruct (truthy wits).
  - rewrite rbind_check.
    rewrite orb_false_intro by (apply bool_decide_eq_false; lia). done.
  - rewrite rbind_check. by rewrite bool_decide_eq_false_2 by (by intros ?).
Qed.

End Logging.

(** ** When [update] assigns the verifier's fields *)

Section UpdateOrder.
Context `{Externals}.

Local Open Scope M_scope.

Lemma Tever_rotate_ok (self : Tever) (serder : Serder) (sn toad : Z)
    (nb cuts adds : list string) :
  Tever_rotate self serder sn = Ok (toad, nb, cuts, adds) →
  Serder_pre serder = tv_prefixer self
  ∧ sn = (tv_sn self + 1)%Z
  ∧ k_p (ked serder) = Some (dig (tv_serder self))
  ∧ NoDup nb ∧ NoDup cuts ∧ NoDup adds
  ∧ (if truthy nb then (1 ≤ toad ∧ toad ≤ len nb)%Z else toad = 0%Z).
Proof.
  intros Hrot.
  destruct (k_p (ked serder)) as [p|] eqn:Hp;
    [|by unfold Tever_rotate in Hrot; rewrite Hp in Hrot].
  destruct (k_br (ked serder)) as [cuts0|] eqn:Hbr.
  2: { revert Hrot. unfold Tever_rotate. rewrite Hp, Hbr. simpl.
       rewrite !rbind_check. by repeat case_match. }
  destruct (k_ba (ked serder)) as [adds0|] eqn:Hba.
  2: { revert Hrot. unfold Tever_rotate. rewrite Hp, Hbr, Hba. simpl.
       rewrite !rbind_check. by repeat case_match. }
  pose proof (Tever_rotate_spec self serder sn p cuts0 adds0 Hp Hbr Hba) as Hs.
  rewrite Hrot in Hs.
  destruct Hs as (-> & -> & Hpre & Hsn & -> & _ & Hc & Ha & Hb & Ht).
  split_and!; try done. apply Hb.
Qed.

(** After the assignments of a validated [vrt], logging, rebuilding the
    state notice and pinning it all go through on a store that takes the
    writes. *)
Lemma update_vrt_tail (self : Tever) (serder : Serder) (seqner : Seqner)
    (diger : Diger) (sn toad : Z) (nb cuts adds : list string)
    (bigers : list Siger) (w : World) :
  (∀ r, map_full r = false) →
  tv_regk self = Some (tv_prefixer self) →
  (1 ≤ sn)%Z →
  Tever_rotate self serder sn = Ok (toad, nb, cuts, adds) →
  let self' := Tever_assign self sn serder Ilks.vrt toad nb cuts adds in
  ∃ st,
    (Tever_logEvent (tv_prefixer self') sn serder seqner diger bigers
       (tv_baks self') ;;;
     st <- Tever_state self' ;;
     regk <- lift (match tv_regk self' with
                   | Some r => Ok r
                   | None => Raise TypeError
                   end) ;;
     pinStates regk st ;;;
     ret tt) w
    = (Ok tt,
       set_reger (upd_states (insert (tv_prefixer self) st)
                    (tel_logged (tv_prefixer self) sn serder seqner diger
                       bigers nb (reger w))) w).
Proof.
  intros Hfull Hregk Hsn Hrot self'.
  apply Tever_rotate_ok in Hrot as (_ & _ & _ & Hnb & Hc & Ha & Ht).
  pose proof (state_ok (tv_pre self) (dig serder) sn (tv_prefixer self)
                Ilks.vrt cuts adds
                (default (seqner_sn seqner, diger_qb64 diger)
                   (ancs (reger w) !! dgKey (tv_prefixer self) (dig serder)))
                toad nb
                (if tv_noBackers self then [TraitDex.NoBackers] else [])
                ltac:(lia) ltac:(set_solver) Hnb Hc Ha Ht) as Hst.
  destruct (state _ _ _ _ _ _ _ _ _ _ _ _) as [st|] eqn:Est; [|done].
  exists st. unfold bind at 1.
  rewrite (logEvent_run _ _ _ _ _ _ _ w Hfull).
  unfold Tever_state. simpl tv_regk. rewrite Hregk.
  rewrite bind_assoc, bind_lift. unfold getAnc.
  rewrite bind_assoc, bind_read.
  assert (ancs (reger (set_reger
            (tel_logged (tv_prefixer self') sn serder seqner diger bigers
               (tv_baks self') (reger w)) w))
          !! dgKey (tv_prefixer self) (dig (tv_serder self'))
          = Some (default (seqner_sn seqner, diger_qb64 diger)
                    (ancs (reger w) !! dgKey (tv_prefixer self) (dig serder))))
    as ->.
  { unfold tel_logged. simpl.
    destruct (truthy bigers), (truthy nb); simpl; apply add_new_lookup. }
  simpl tv_pre. simpl tv_serder. simpl tv_sn. simpl tv_ilk. simpl tv_cuts.
  simpl tv_adds. simpl tv_toad. simpl tv_baks. simpl tv_noBackers.
  rewrite bind_lift, Est. rewrite bind_lift.
  unfold pinStates. rewrite bind_write by done. done.
Qed.

Lemma bind_run_ok {A B} (c : M A) (k : A → M B) (w w' : World) (a : A) :
  c w = (Ok a, w') → (x <- c ;; k x) w = k a w'.
Proof. intros Hc. unfold bind. by rewrite Hc. Qed.

Lemma bind_run_raise {A B} (c : M A) (k : A → M B) (w w' : World) (e : exn) :
  c w = (Raise e, w') → (x <- c ;; k x) w = (Raise e, w').
Proof. intros Hc. unfold bind. by rewrite Hc. Qed.

(** When [logEvent] raises, the first-seen index is as it was: its entry is
    the last write of the method. *)
Lemma logEvent_raise_tels (pre : string) (sn : Z) (serder : Serder)
    (seqner : Seqner) (diger : Diger) (bigers : list Siger)
    (bks : list string) (w w' : World) (e : exn) :
  Tever_logEvent pre sn serder seqner diger bigers bks w = (Raise e, w') →
  tels (reger w') = tels (reger w).
Proof.
  unfold Tever_logEvent, putAnc, putTibs, putTvt, putTel, delBaks, putBaks,
    pinTets, when, bind, store_write, ret.
  destruct (truthy bigers), (truthy bks); simpl;
    repeat (match goal with
            | |- context [map_full ?r] => destruct (map_full r); simpl
            end);
    by intros [= <- <-].
Qed.

(** When [logEvent] returns, every write went through. *)
Lemma logEvent_ok_inv (pre : string) (sn : Z) (serder : Serder)
    (seqner : Seqner) (diger : Diger) (bigers : list Siger)
    (bks : list string) (w w' : World) :
  Tever_logEvent pre sn serder seqner diger bigers bks w = (Ok tt, w') →
  w' = set_reger (tel_logged pre sn serder seqner diger bigers bks (reger w)) w.
Proof.
  unfold Tever_logEvent, tel_logged, putAnc, putTibs, putTvt, putTel, delBaks,
    putBaks, pinTets, when, bind, store_write, ret.
  destruct (truthy bigers), (truthy bks); simpl;
    repeat (match goal with
            | |- context [map_full ?r] => destruct (map_full r); simpl
            end);
    by intros [= <-].
Qed.

(** Rebuilding the state notice and pinning it leave the first-seen index
    alone. *)
Lemma pin_state_tels (self : Tever) (w : World) :
  tels (reger ((st <- Tever_state self ;;
                regk <- lift (match tv_regk self with
                              | Some r => Ok r
                              | None => Raise TypeError
                              end) ;;
                pinStates regk st ;;;
                ret tt) w).2)
  = tels (reger w).
Proof.
  unfold Tever_state.
  rewrite bind_assoc, bind_lift.
  destruct (tv_regk self) as [regk|]; [|done].
  unfold getAnc. rewrite bind_assoc, bind_read.
  destruct (ancs (reger w) !! _) as [a|]; [|done].
  rewrite bind_lift.
  destruct (state _ _ _ _ _ _ _ _ _ _ _ _) as [st|]; [|done].
  rewrite bind_lift. unfold pinStates, bind, store_write.
  by destruct (map_full (reger w)).
Qed.

(** C8, as the code has it.  [update] assigns the verifier's seven fields
    in the [vrt] branch only, once [validateSN], [Tever.rotate] and
    [valAnchorBigs] have all returned, and before [logEvent] and the pin of
    the state notice run.  A kind other than [vrt] leaves the verifier as
    it was, and so does a [vrt] that [validateSN], the trait check,
    [Tever.rotate] or [valAnchorBigs] turns away.  Once they have returned
    the verifier holds the new fields whatever follows: when [logEvent]
    raises, [update] raises the same with the first-seen index as it was
    (a store that refuses the first write raises [MapFullError] with the
    stores as [valAnchorBigs] left them); when [logEvent] returns, the
    event is in the first-seen index, also when the pin then raises.  Over
    a store that takes the writes, for a verifier that names its own
    registry, nothing raises after the assignments, so a raise always
    leaves the fields unchanged. *)
Theorem update_assigns_after_validation (self : Tever) (serder : Serder)
    (seqner : Seqner) (diger : Diger) (bigers : option (list Siger))
    (w : World) :
  let kd := ked serder in
  let run := Tever_update self serder seqner diger bigers w in
  (k_t kd ≠ Ilks.vrt → run.1.2 = self)
  ∧ (k_t kd = Ilks.vrt →
     (∀ e, validateSN (k_s kd) false = Raise e → run = (Raise e, self, w))
     ∧ ∀ sn, validateSN (k_s kd) false = Ok sn →
         (tv_noBackers self = true → run = (Raise ValidationError, self, w))
         ∧ (tv_noBackers self = false →
            (∀ e, Tever_rotate self serder sn = Raise e →
               run = (Raise e, self, w))
            ∧ ∀ toad nb cuts adds,
                Tever_rotate self serder sn = Ok (toad, nb, cuts, adds) →
                let val := Tever_valAnchorBigs self serder seqner diger bigers
                             (PyInt toad) (Str <$> nb) w in
                let self' := Tever_assign self sn serder Ilks.vrt toad nb
                               cuts adds in
                let key := snKey (tv_prefixer self) sn in
                (∀ e w1, val = (Raise e, w1) → run = (Raise e, self, w1))
                ∧ ∀ verified w1, val = (Ok verified, w1) →
                    let log := Tever_logEvent (tv_prefixer self) sn serder
                                 seqner diger verified nb w1 in
                    let pin := (st <- Tever_state self' ;;
                                regk <- lift (match tv_regk self' with
                                              | Some r => Ok r
                                              | None => Raise TypeError
                                              end) ;;
                                pinStates regk st ;;;
                                ret tt) in
                    run.1.2 = self'
                    ∧ (∀ e w2, log = (Raise e, w2) →
                         run = (Raise e, self', w2)
                         ∧ tels (reger w2) = tels (reger w1))
                    ∧ (map_full (reger w1) = true →
                       run = (Raise MapFullError, self', w1))
                    ∧ (∀ w2, log = (Ok tt, w2) →
                         run = ((pin w2).1, self', (pin w2).2)
                         ∧ tels (reger run.2) !! key
                           = Some (default (dig serder)
                                     (tels (reger w1) !! key)))
                    ∧ ((∀ r, map_full r = false) →
                       tv_regk self = Some (tv_prefixer self) →
                       run.1.1 = Ok tt)))
  ∧ ((∀ r, map_full r = false) → tv_regk self = Some (tv_prefixer self) →
     is_ok run.1.1 = false → run.1.2 = self).
Proof.
  intros kd run.
  assert (k_t kd ≠ Ilks.vrt → run.1.2 = self) as Hother.
  { intros Hk. unfold run, Tever_update. fold kd.
    destruct (validateSN _ _); [|done].
    by destruct (k_t kd). }
  assert (k_t kd = Ilks.vrt → ∀ sn, validateSN (k_s kd) false = Ok sn →
          tv_noBackers self = false →
          ∀ toad nb cuts adds,
            Tever_rotate self serder sn = Ok (toad, nb, cuts, adds) →
            ∀ verified w1,
              Tever_valAnchorBigs self serder seqner diger bigers
                (PyInt toad) (Str <$> nb) w = (Ok verified, w1) →
              let self' := Tever_assign self sn serder Ilks.vrt toad nb
                             cuts adds in
              run = (((Tever_logEvent (tv_prefixer self) sn serder seqner diger
                         verified nb ;;;
                       st <- Tever_state self' ;;
                       regk <- lift (match tv_regk self' with
                                     | Some r => Ok r
                                     | None => Raise TypeError
                                     end) ;;
                       pinStates regk st ;;;
                       ret tt) w1).1, self',
                     ((Tever_logEvent (tv_prefixer self) sn serder seqner diger
                         verified nb ;;;
                       st <- Tever_state self' ;;
                       regk <- lift (match tv_regk self' with
                                     | Some r => Ok r
                                     | None => Raise TypeError
                                     end) ;;
                       pinStates regk st ;;;
                       ret tt) w1).2)) as Htail.
  { intros Hk sn Hsn Hnb toad nb cuts adds Hrot verified w1 Hval self'.
    unfold run, Tever_update. fold kd. rewrite Hk. simpl.
    rewrite Hsn, Hnb, Hrot, Hval. done. }
  split_and!; [done| |].
  - intros Hk. split.
    { intros e He. unfold run, Tever_update. fold kd. rewrite Hk. simpl.
      by rewrite He. }
    intros sn Hsn. split.
    { intros Hnb. unfold run, Tever_update. fold kd. rewrite Hk. simpl.
      by rewrite Hsn, Hnb. }
    intros Hnb. split.
    { intros e He. unfold run, Tever_update. fold kd. rewrite Hk. simpl.
      by rewrite Hsn, Hnb, He. }
    intros toad nb cuts adds Hrot val self' key. split.
    { intros e w1 Hval. unfold run, Tever_update. fold kd. rewrite Hk. simpl.
      rewrite Hsn, Hnb, Hrot. fold val. by rewrite Hval. }
    intros verified w1 Hval log pin.
    pose proof (Htail Hk sn Hsn Hnb toad nb cuts adds Hrot verified w1 Hval)
      as Hrun.
    cbv zeta in Hrun. fold self' in Hrun.
    split_and!.
    + by rewrite Hrun.
    + intros e w2 Hlog. split; [|exact (logEvent_raise_tels _ _ _ _ _ _ _ _ _ _ Hlog)].
      rewrite Hrun. by rewrite (bind_run_raise _ _ _ _ _ Hlog).
    + intros Hfull.
      assert (log = (Raise MapFullError, w1)) as Hlog.
      { unfold log, Tever_logEvent, putAnc.
        by rewrite (bind_write_full _ _ w1 Hfull). }
      rewrite Hrun. by rewrite (bind_run_raise _ _ _ _ _ Hlog).
    + intros w2 Hlog.
      assert (run = ((pin w2).1, self', (pin w2).2)) as Hrun'.
      { rewrite Hrun. by rewrite (bind_run_ok _ _ _ _ _ Hlog). }
      split; [done|].
      rewrite Hrun'. cbn [snd]. unfold pin. rewrite pin_state_tels.
      apply logEvent_ok_inv in Hlog as ->. unfold tel_logged. simpl.
      destruct (truthy verified), (truthy nb); simpl; apply add_new_lookup.
    + intros Hfull Hregk. rewrite Hrun.
      apply validateSN_sn in Hsn as [_ Hsn].
      destruct (update_vrt_tail self serder seqner diger sn toad nb cuts adds
                  verified w1 Hfull Hregk Hsn Hrot) as [st Hst].
      cbv zeta in Hst. fold self' in Hst. simpl in Hst. simpl.
      by rewrite Hst.
  - intros Hfull Hregk Hfail.
    destruct (decide (k_t kd = Ilks.vrt)) as [Hk|Hk]; [|by apply Hother].
    revert Hfail. unfold run, Tever_update. fold kd. rewrite Hk. simpl.
    destruct (validateSN _ _) as [sn|] eqn:Hsn; [|done].
    destruct (tv_noBackers self) eqn:Hnb; [done|].
    destruct (Tever_rotate self serder sn) as [[[[toad nb] cuts] adds]|]
      eqn:Hrot; [|done].
    destruct (Tever_valAnchorBigs _ _ _ _ _ _ _ _) as [[verified|] w1]
      eqn:Hval; [|done].
    apply validateSN_sn in Hsn as [_ Hsn].
    destruct (update_vrt_tail self serder seqner diger sn toad nb cuts adds
                verified w1 Hfull Hregk Hsn Hrot) as [st Hst].
    simpl in Hst. simpl. by rewrite Hst.
Qed.

End UpdateOrder.

(** ** Out-of-order events *)

Section OutOfOrder.
Context `{Externals}.

Local Open Scope M_scope.

Lemma for_each_skip {A} (l : list A) (w : World) :
  for_each l (fun _ => ret tt) w = (Ok tt, w).
Proof. induction l as [|x l IH]; [done|]. simpl. by rewrite bind_ret. Qed.

(** The out-of-order drain returns with the world it was given: it
    reprocesses nothing and removes nothing from [oot]. *)
Lemma processEscrowOutOfOrders_skip (self : Tevery) (w : World) :
  Tevery_processEscrowOutOfOrders self w = (Ok tt, w).
Proof.
  unfold Tevery_processEscrowOutOfOrders, getOotItemIter.
  rewrite bind_read. apply for_each_skip.
Qed.

(** C7, as the code has it. An event other than a [vcp] whose registry is
    not in the cache (an [iss] that arrives before the [vcp] of its
    registry) is escrowed out of order and [processEvent] raises
    out-of-order: the body goes under [tvt], the anchor under [anc], and
    the digest under [oot] at [snKey] of the event's own identifier (the
    credential for an [iss], with [sn = 0]) unless that slot is taken. *)
Theorem first_sight_escrows_out_of_order (self : Tevery) (serder : Serder)
    (seqner : Seqner) (diger : Diger) (wigers : option (list Siger))
    (w : World) (regk : string) (sn : Z) :
  let ilk := k_t (ked serder) in
  let pre := Serder_pre serder in
  (∀ r, map_full r = false) →
  is_ok (Prefixer pre) = true →
  Tevery_registryKey serder = Ok regk →
  validateSN (k_s (ked serder))
             (bool_decide (ilk ∈ [Ilks.vcp; Ilks.iss; Ilks.bis])) = Ok sn →
  locality_gate self regk = Ok tt →
  tevers (reger w) !! regk = None →
  ilk ≠ Ilks.vcp →
  Tevery_processEvent self serder seqner diger wigers w
  = (Raise OutOfOrderError,
     set_reger (oot_escrowed serder seqner diger sn (reger w)) w)
  ∧ oots (oot_escrowed serder seqner diger sn (reger w)) !! snKey pre sn
    = Some (default (dig serder) (oots (reger w) !! snKey pre sn))
  ∧ (∀ key, key ≠ snKey pre sn →
       oots (oot_escrowed serder seqner diger sn (reger w)) !! key
       = oots (reger w) !! key)
  ∧ tels (oot_escrowed serder seqner diger sn (reger w)) = tels (reger w)
  ∧ (ilk = Ilks.iss → sn = 0%Z).
Proof.
  intros ilk pre Hfull Hpre Hkey Hsn Hgate Hnew Hilk. split_and!.
  - unfold Tevery_processEvent. fold pre. fold ilk.
    rewrite bind_lift. destruct (Prefixer pre) as [[]|]; [|done].
    rewrite bind_lift, Hkey. rewrite bind_lift, Hsn. rewrite bind_lift, Hgate.
    unfold get_tever. rewrite bind_read, Hnew.
    rewrite (bool_decide_eq_false_2 (ilk ∈ [Ilks.vcp])) by set_solver.
    apply validateSN_sn in Hsn as [Hsn _]. unfold bind.
    by rewrite (escrowOOEvent_run serder seqner diger sn w Hfull Hsn).
  - unfold oot_escrowed. simpl. apply add_new_lookup.
  - intros key Hne. unfold oot_escrowed. simpl. by apply add_new_lookup_ne.
  - done.
  - intros Hiss. apply validateSN_sn in Hsn as [_ Hsn].
    rewrite bool_decide_eq_true_2 in Hsn by (rewrite Hiss; set_solver). done.
Qed.

End OutOfOrder.

(** ** Writes that leave the first-seen index alone *)

Section Frames.
Context `{Externals}.
Variable U : Serder → Prop.

Local Open Scope M_scope.

Lemma tvt_ext_refl (r : Registry) : tvt_ext U r r.
Proof. unfold tvt_ext. split_and!; auto. Qed.

Lemma tvt_ext_trans (r1 r2 r3 : Registry) :
  tvt_ext U r1 r2 → tvt_ext U r2 r3 → tvt_ext U r1 r3.
Proof.
  intros (Ht1 & Hc1 & Hm1 & Hn1) (Ht2 & Hc2 & Hm2 & Hn2).
  unfold tvt_ext. split_and!; [congruence|congruence|auto|].
  intros k e He. destruct (Hn2 k e He) as [He'|]; auto.
Qed.

Lemma frames_ret {A} (a : A) : frames U (ret a).
Proof. intros w. apply tvt_ext_refl. Qed.

Lemma frames_raise {A} (e : exn) : frames U (raise e : M A).
Proof. intros w. apply tvt_ext_refl. Qed.

Lemma frames_lift {A} (r : result A) : frames U (lift r).
Proof. intros w. apply tvt_ext_refl. Qed.

Lemma frames_read {A} (f : Registry → A) : frames U (store_read f).
Proof. intros w. apply tvt_ext_refl. Qed.

Lemma frames_bind {A B} (c : M A) (k : A → M B) :
  frames U c → (∀ a, frames U (k a)) → frames U (x <- c ;; k x).
Proof.
  intros Hc Hk w. unfold bind. specialize (Hc w).
  destruct (c w) as [[a|e] w1]; simpl in *; [|done].
  eapply tvt_ext_trans; [exact Hc|apply Hk].
Qed.

Lemma frames_when (b : bool) (c : M unit) : frames U c → frames U (when b c).
Proof. intros Hc. destruct b; [done|apply frames_ret]. Qed.

Lemma frames_if {A} (b : bool) (c1 c2 : M A) :
  frames U c1 → frames U c2 → frames U (if b then c1 else c2).
Proof. by destruct b. Qed.

Lemma frames_write {A} (f : Registry → A * Registry) :
  (∀ r, tvt_ext U r (f r).2) → frames U (store_write f).
Proof.
  intros Hf w. unfold store_write.
  destruct (map_full (reger w)); simpl; [apply tvt_ext_refl|apply Hf].
Qed.

Lemma tvt_ext_add (key : DgKey) (e : Serder) (r : Registry) :
  U e → dig e = key.2 → tvt_ext U r (upd_tvts (add_new key e) r).
Proof.
  intros HU Hd. unfold tvt_ext. simpl. split_and!; [done|done| |].
  - intros k e0 He0. destruct (decide (key = k)) as [->|Hne].
    + by rewrite add_new_lookup, He0.
    + by rewrite add_new_lookup_ne.
  - intros k e0 He0. destruct (decide (key = k)) as [->|Hne].
    + rewrite add_new_lookup in He0.
      destruct (tvts r !! k) as [x|]; simpl in He0; injection He0 as <-; auto.
    + rewrite add_new_lookup_ne in He0 by done. auto.
Qed.

Lemma frames_putTvt (key : DgKey) (e : Serder) :
  U e → dig e = key.2 → frames U (putTvt key e).
Proof. intros HU Hd. apply frames_write. intros r. by apply tvt_ext_add. Qed.

Lemma frames_putAnc key val : frames U (putAnc key val).
Proof. apply frames_write. intros r. unfold tvt_ext. simpl. auto. Qed.

Lemma frames_putTibs key vals : frames U (putTibs key vals).
Proof. apply frames_write. intros r. unfold tvt_ext. simpl. auto. Qed.

Lemma frames_delBaks key : frames U (delBaks key).
Proof. apply frames_write. intros r. unfold tvt_ext. simpl. auto. Qed.

Lemma frames_putBaks key vals : frames U (putBaks key vals).
Proof. apply frames_write. intros r. unfold tvt_ext. simpl. auto. Qed.

Lemma frames_putTae key val : frames U (putTae key val).
Proof. apply frames_write. intros r. unfold tvt_ext. simpl. auto. Qed.

Lemma frames_delTae key : frames U (delTae key).
Proof. apply frames_write. intros r. unfold tvt_ext. simpl. auto. Qed.

Lemma frames_putTwe key val : frames U (putTwe key val).
Proof. apply frames_write. intros r. unfold tvt_ext. simpl. auto. Qed.

Lemma frames_putOot key val : frames U (putOot key val).
Proof. apply frames_write. intros r. unfold tvt_ext. simpl. auto. Qed.

Lemma frames_pinStates key val : frames U (pinStates key val).
Proof. apply frames_write. intros r. unfold tvt_ext. simpl. auto. Qed.

Lemma frames_cue_query (self : Tever) (seqner : Seqner) :
  frames U (cue_query self seqner).
Proof. intros w. apply tvt_ext_refl. Qed.

Lemma frames_verifyAnchorM self serder seqner diger :
  frames U (verifyAnchorM self serder seqner diger).
Proof. intros w. apply tvt_ext_refl. Qed.

Create HintDb frames.

#[local] Hint Resolve frames_ret frames_raise frames_lift frames_read frames_putAnc
  frames_putTibs frames_delBaks frames_putBaks frames_putTae frames_delTae
  frames_putTwe frames_putOot frames_pinStates frames_cue_query
  frames_verifyAnchorM : frames.

Ltac frame_steps :=
  repeat first
    [ apply frames_bind; [|intros ?]
    | apply frames_when
    | apply frames_if
    | solve [auto with frames]
    | apply frames_putTvt; [assumption|reflexivity] ].

Lemma frames_escrowOOEvent serder seqner diger :
  U serder → frames U (Tevery_escrowOOEvent serder seqner diger).
Proof. intros HU. unfold Tevery_escrowOOEvent. frame_steps. Qed.

Lemma frames_escrowALEvent serder seqner diger bigers bks :
  U serder → frames U (Tever_escrowALEvent serder seqner diger bigers bks).
Proof. intros HU. unfold Tever_escrowALEvent. frame_steps. Qed.

Lemma frames_escrowPWEvent serder seqner diger bigers :
  U serder → frames U (Tever_escrowPWEvent serder seqner diger bigers).
Proof. intros HU. unfold Tever_escrowPWEvent. frame_steps. Qed.

Lemma frames_valAnchorBigs self serder seqner diger bigers toad bks :
  U serder →
  frames U (Tever_valAnchorBigs self serder seqner diger bigers toad bks).
Proof.
  intros HU. unfold Tever_valAnchorBigs.
  pose proof (frames_escrowALEvent serder seqner diger) as Hal.
  pose proof (frames_escrowPWEvent serder seqner diger) as Hpw.
  frame_steps; auto.
Qed.

Lemma frames_require_anchor self serder seqner diger :
  U serder → frames U (require_anchor self serder seqner diger).
Proof.
  intros HU. unfold require_anchor.
  pose proof (frames_escrowALEvent serder seqner diger) as Hal.
  frame_steps; auto.
Qed.

Lemma frames_getBackerState self kd : frames U (Tever_getBackerState self kd).
Proof.
  unfold Tever_getBackerState, getTvt, getBaks. frame_steps.
  match goal with |- frames _ (match ?x with _ => _ end) => destruct x end;
    frame_steps.
Qed.

End Frames.

(** ** The invariant of the stores *)

Section StoreInvariant.
Context `{Externals}.
Variable U : Serder → Prop.
Hypothesis U_inj : ∀ e1 e2, U e1 → U e2 → dig e1 = dig e2 → e1 = e2.

Lemma cntTels_nonneg (m : gmap SnKey string) (K : string) :
  (0 ≤ cntTels_of m K)%Z.
Proof. unfold cntTels_of. lia. Qed.

Lemma cntTels_insert_same (m : gmap SnKey string) (K : string) (n : Z)
    (d : string) :
  m !! snKey K n = None →
  cntTels_of (<[snKey K n := d]> m) K = (cntTels_of m K + 1)%Z.
Proof.
  intros Hnone. unfold cntTels_of.
  rewrite map_filter_insert_True by done.
  rewrite map_size_insert_None; [lia|].
  apply map_lookup_filter_None. by left.
Qed.

Lemma cntTels_insert_other (m : gmap SnKey string) (K K' : string) (n : Z)
    (d : string) :
  K' ≠ K → cntTels_of (<[snKey K n := d]> m) K' = cntTels_of m K'.
Proof.
  intros Hne. unfold cntTels_of.
  rewrite map_filter_insert_not; [done|].
  intros y. simpl. congruence.
Qed.

Lemma cntTels_empty (K : string) : cntTels_of ∅ K = 0%Z.
Proof. unfold cntTels_of. by rewrite map_filter_empty, map_size_empty. Qed.

Lemma ext_store_inv (r r' : Registry) :
  store_inv U r → tvt_ext U r r' → store_inv U r'.
Proof.
  intros (Hs & Hc & Hd) (Ht & _ & Hm & Hn). split_and!.
  - intros k e He. destruct (Hn k e He) as [He'|]; [by apply Hs|done].
  - intros K n d Hpos Hl. rewrite Ht in Hl.
    destruct (Hc K n d Hpos Hl) as (e & d0 & He & Hdig & Hp & Hprev).
    exists e, d0. rewrite Ht. split_and!; auto.
  - intros K n. rewrite Ht. apply Hd.
Qed.

Lemma ext_cache_inv (r r' : Registry) :
  cache_inv r → tvt_ext U r r' → cache_inv r'.
Proof.
  intros [Hc1 Hc2] (Ht & Hv & _ & _). unfold cache_inv.
  rewrite Ht, Hv. done.
Qed.

Lemma tel_logged_tels K n e sq dg bg bk (r : Registry) :
  tels (tel_logged K n e sq dg bg bk r) = add_new (snKey K n) (dig e) (tels r).
Proof. unfold tel_logged. by destruct (truthy bg), (truthy bk). Qed.

Lemma tel_logged_tevers K n e sq dg bg bk (r : Registry) :
  tevers (tel_logged K n e sq dg bg bk r) = tevers r.
Proof. unfold tel_logged. by destruct (truthy bg), (truthy bk). Qed.

Lemma tel_logged_tvts K n e sq dg bg bk (r : Registry) :
  tvts (tel_logged K n e sq dg bg bk r) = add_new (dgKey K (dig e)) e (tvts r).
Proof. unfold tel_logged. by destruct (truthy bg), (truthy bk). Qed.

(** Logging a fresh event at the next free sequence number of its prefix,
    linked to the entry below, keeps the stores sound, chained and
    dense. *)
Lemma logged_store_inv K n e sq dg bg bk (r : Registry) :
  store_inv U r → U e →
  cntTels_of (tels r) K = n →
  ((0 < n)%Z → ∃ d0, k_p (ked e) = Some d0
                      ∧ tels r !! snKey K (n - 1) = Some d0) →
  store_inv U (tel_logged K n e sq dg bg bk r)
  ∧ tels (tel_logged K n e sq dg bg bk r) = <[snKey K n := dig e]> (tels r)
  ∧ tels r !! snKey K n = None.
Proof.
  intros (Hs & Hc & Hd) HU Hcnt Hlink.
  assert (tels r !! snKey K n = None) as Hfresh.
  { destruct (tels r !! snKey K n) as [d|] eqn:E; [|done].
    assert (is_Some (tels r !! snKey K n)) as Hsome by (by rewrite E).
    apply Hd in Hsome. lia. }
  assert (tels (tel_logged K n e sq dg bg bk r)
          = <[snKey K n := dig e]> (tels r)) as Htels.
  { rewrite tel_logged_tels. unfold add_new. by rewrite Hfresh. }
  assert (∀ k e0, tvts r !! k = Some e0 →
                  tvts (tel_logged K n e sq dg bg bk r) !! k = Some e0)
    as Hmono.
  { intros k e0 He0. rewrite tel_logged_tvts.
    destruct (decide (dgKey K (dig e) = k)) as [<-|Hne].
    - by rewrite add_new_lookup, He0.
    - by rewrite add_new_lookup_ne. }
  assert (tvts (tel_logged K n e sq dg bg bk r) !! dgKey K (dig e) = Some e)
    as Hnew.
  { rewrite tel_logged_tvts, add_new_lookup.
    destruct (tvts r !! dgKey K (dig e)) as [e'|] eqn:E; simpl; [|done].
    destruct (Hs _ _ E) as [HU' Hd']. simpl in Hd'.
    f_equal. by apply U_inj. }
  split_and!; [|done|done]. split_and!.
  - intros k e0 He0. rewrite tel_logged_tvts in He0.
    destruct (decide (dgKey K (dig e) = k)) as [<-|Hne].
    + rewrite add_new_lookup in He0.
      destruct (tvts r !! dgKey K (dig e)) as [e'|] eqn:E; simpl in He0;
        injection He0 as <-; [by apply Hs|done].
    + rewrite add_new_lookup_ne in He0 by done. by apply Hs.
  - intros K' n' d Hpos Hl. rewrite Htels in Hl |- *.
    destruct (decide (snKey K n = snKey K' n')) as [Heq|Hne].
    + injection Heq as <- <-. rewrite lookup_insert_eq in Hl.
      injection Hl as <-.
      destruct (Hlink Hpos) as (d0 & Hp & Hprev).
      exists e, d0. split_and!; try done.
      rewrite lookup_insert_ne; [done|]. unfold snKey. intros [=]. lia.
    + rewrite lookup_insert_ne in Hl by done.
      destruct (Hc K' n' d Hpos Hl) as (e0 & d0 & He0 & Hdig & Hp & Hprev).
      exists e0, d0. split_and!; auto.
      rewrite lookup_insert_ne; [done|].
      unfold snKey. intros [= -> Hn].
      assert (is_Some (tels r !! snKey K' n')) as Hsome by (by rewrite Hl).
      apply Hd in Hsome. lia.
  - intros K' n'. rewrite Htels.
    destruct (decide (K' = K)) as [->|HneK].
    + rewrite cntTels_insert_same by done.
      destruct (decide (n' = n)) as [->|Hnen].
      * rewrite lookup_insert_eq. split; [intros _|by eauto].
        pose proof (cntTels_nonneg (tels r) K). lia.
      * rewrite lookup_insert_ne by (unfold snKey; congruence).
        rewrite (Hd K n'). lia.
    + rewrite cntTels_insert_other by done.
      rewrite lookup_insert_ne by (unfold snKey; congruence).
      apply Hd.
Qed.

Lemma log_step_inv K n e (r r' : Registry) :
  store_inv U r → U e →
  cntTels_of (tels r) K = n →
  ((0 < n)%Z → ∃ d0, k_p (ked e) = Some d0
                      ∧ tels r !! snKey K (n - 1) = Some d0) →
  log_step U K n e r r' →
  store_inv U r'
  ∧ tels r' = <[snKey K n := dig e]> (tels r)
  ∧ tels r !! snKey K n = None
  ∧ tevers r' = tevers r.
Proof.
  intros Hinv HU Hcnt Hlink (r1 & sq & dg & bg & bk & He1 & He2).
  pose proof (ext_store_inv _ _ Hinv He1) as Hinv1.
  destruct He1 as (Ht1 & Hv1 & _ & _).
  rewrite <- Ht1 in Hcnt, Hlink.
  destruct (logged_store_inv K n e sq dg bg bk r1 Hinv1 HU Hcnt Hlink)
    as (Hinv2 & Htels & Hfresh).
  pose proof (ext_store_inv _ _ Hinv2 He2) as Hinv3.
  destruct He2 as (Ht2 & Hv2 & _ & _).
  split_and!; [done| | |].
  - by rewrite Ht2, Htels, Ht1.
  - by rewrite <- Ht1.
  - by rewrite Hv2, tel_logged_tevers, Hv1.
Qed.

End StoreInvariant.

(** ** What one call does to the stores *)

Section Steps.
Context `{Externals}.
Variable U : Serder → Prop.
Hypothesis no_fault : ∀ r, map_full r = false.

Local Open Scope M_scope.

Lemma frames_Tever_state (self : Tever) : frames U (Tever_state self).
Proof.
  unfold Tever_state, getAnc.
  apply frames_bind; [apply frames_lift|intros regk].
  apply frames_bind; [apply frames_read|intros couple].
  destruct couple; [apply frames_lift|apply frames_raise].
Qed.

Lemma log_last (K : string) (n : Z) (e : Serder) (sq : Seqner)
    (dg : Diger) (bg : list Siger) (bk : list string) (r0 r r' : Registry) :
  tvt_ext U r0 r →
  tvt_ext U (tel_logged K n e sq dg bg bk r) r' →
  log_step U K n e r0 r'.
Proof. intros Hext Hext'. by exists r, sq, dg, bg, bk. Qed.

Lemma issue_steps (self : Tever) (serder : Serder) (sq : Seqner) (dg : Diger)
    (sn : Z) (bigers : option (list Siger)) (w w' : World) (res : result unit) :
  U serder →
  Tever_issue self serder sq dg sn bigers w = (res, w') →
  tvt_ext U (reger w) (reger w')
  ∨ log_step U (nsKey [tv_prefixer self; k_i (ked serder)]) sn serder
      (reger w) (reger w').
Proof.
  intros HU. unfold Tever_issue. rewrite bind_lift.
  destruct (check_labels _ _) as [[]|];
    [|intros [= <- <-]; left; apply tvt_ext_refl].
  destruct (k_t (ked serder));
    try (intros [= <- <-]; left; apply tvt_ext_refl).
  - rewrite bind_lift_check.
    destruct (negb _); [intros [= <- <-]; left; apply tvt_ext_refl|].
    rewrite bind_lift.
    destruct (getitem _) as [regi|];
      [|intros [= <- <-]; left; apply tvt_ext_refl].
    rewrite bind_lift_check.
    destruct (bool_decide _); [intros [= <- <-]; left; apply tvt_ext_refl|].
    unfold bind at 1.
    pose proof (frames_require_anchor U self serder sq dg HU w) as Hf.
    destruct (require_anchor self serder sq dg w) as [[[]|] w1];
      simpl in Hf; [|intros [= <- <-]; by left].
    rewrite (logEvent_run _ _ _ _ _ _ _ w1 no_fault). intros [= <- <-].
    right. eapply log_last; [exact Hf|apply tvt_ext_refl].
  - rewrite bind_lift_check.
    destruct (tv_noBackers self);
      [intros [= <- <-]; left; apply tvt_ext_refl|].
    unfold bind at 1.
    pose proof (frames_getBackerState U self (ked serder) w) as Hf1.
    destruct (Tever_getBackerState self (ked serder) w) as [[st|] w1];
      simpl in Hf1; [|intros [= <- <-]; by left].
    unfold bind at 1.
    pose proof (frames_valAnchorBigs U self serder sq dg bigers st.1 st.2
                  HU w1) as Hf2.
    destruct (Tever_valAnchorBigs self serder sq dg bigers st.1 st.2 w1)
      as [[bg|] w2]; simpl in Hf2.
    + rewrite (logEvent_run _ _ _ _ _ _ _ w2 no_fault). intros [= <- <-].
      right. eapply log_last; [|apply tvt_ext_refl]. by eapply tvt_ext_trans.
    + intros [= <- <-]. left. by eapply tvt_ext_trans.
Qed.

Lemma revoke_steps (self : Tever) (serder : Serder) (sq : Seqner) (dg : Diger)
    (sn : Z) (bigers : option (list Siger)) (w w' : World) (res : result unit) :
  U serder →
  let K := nsKey [tv_prefixer self; k_i (ked serder)] in
  Tever_revoke self serder sq dg sn bigers w = (res, w') →
  tvt_ext U (reger w) (reger w')
  ∨ (log_step U K sn serder (reger w) (reger w')
     ∧ ∃ d0 ie, tels (reger w) !! snKey K (sn - 1) = Some d0
                ∧ tvts (reger w) !! dgKey K d0 = Some ie
                ∧ k_p (ked serder) = Some (dig ie)).
Proof.
  intros HU K. unfold Tever_revoke. fold K. rewrite bind_lift.
  destruct (check_labels _ _) as [[]|];
    [|intros [= <- <-]; left; apply tvt_ext_refl].
  unfold getTel. rewrite bind_read.
  destruct (tels (reger w) !! snKey K (sn - 1)) as [d0|] eqn:Htel.
  2: { rewrite bind_assoc, bind_lift.
       destruct dgKey_None as [[]|]; rewrite ?bind_ret;
         intros [= <- <-]; left; apply tvt_ext_refl. }
  unfold getTvt. rewrite bind_read.
  destruct (tvts (reger w) !! dgKey K d0) as [ie|] eqn:Htvt;
    [|intros [= <- <-]; left; apply tvt_ext_refl].
  rewrite bind_lift.
  destruct (k_p (ked serder)) as [p|] eqn:Hp; simpl;
    [|intros [= <- <-]; left; apply tvt_ext_refl].
  rewrite bind_lift_check. unfold Serder_compare.
  case_bool_decide as Hcmp; simpl;
    [|intros [= <- <-]; left; apply tvt_ext_refl].
  assert (∃ d0' ie', Some d0 = Some d0'
                     ∧ tvts (reger w) !! dgKey K d0' = Some ie'
                     ∧ Some p = Some (dig ie')) as Hlink.
  { exists d0, ie. by rewrite Hcmp. }
  destruct (k_t (ked serder));
    try (intros [= <- <-]; left; apply tvt_ext_refl).
  - rewrite bind_lift_check.
    destruct (negb _); [intros [= <- <-]; left; apply tvt_ext_refl|].
    unfold bind at 1.
    pose proof (frames_require_anchor U self serder sq dg HU w) as Hf.
    destruct (require_anchor self serder sq dg w) as [[[]|] w1];
      simpl in Hf; [|intros [= <- <-]; by left].
    rewrite (logEvent_run _ _ _ _ _ _ _ w1 no_fault). intros [= <- <-].
    right. split; [|done]. eapply log_last; [exact Hf|apply tvt_ext_refl].
  - rewrite bind_lift_check.
    destruct (tv_noBackers self);
      [intros [= <- <-]; left; apply tvt_ext_refl|].
    unfold bind at 1.
    pose proof (frames_getBackerState U self (ked serder) w) as Hf1.
    destruct (Tever_getBackerState self (ked serder) w) as [[st|] w1];
      simpl in Hf1; [|intros [= <- <-]; by left].
    unfold bind at 1.
    pose proof (frames_valAnchorBigs U self serder sq dg bigers st.1 st.2
                  HU w1) as Hf2.
    destruct (Tever_valAnchorBigs self serder sq dg bigers st.1 st.2 w1)
      as [[bg|] w2]; simpl in Hf2.
    + rewrite (logEvent_run _ _ _ _ _ _ _ w2 no_fault). intros [= <- <-].
      right. split; [|done].
      eapply log_last; [|apply tvt_ext_refl]. by eapply tvt_ext_trans.
    + intros [= <- <-]. left. by eapply tvt_ext_trans.
Qed.

Lemma Tever_incept_ok (serder : Serder) (pre : string) (sn : Z)
    (bks : list string) (toad : Z) :
  Tever_incept serder = Ok (pre, sn, bks, toad) →
  sn = 0%Z ∧ NoDup bks
  ∧ (if truthy bks then (1 ≤ toad ∧ toad ≤ len bks)%Z else toad = 0%Z).
Proof.
  unfold Tever_incept.
  destruct (k_ii (ked serder)) as [ii|]; simpl; [|done].
  destruct (Prefixer _) as [[]|]; simpl; [|done].
  rewrite rbind_check. destruct (negb _); [done|].
  destruct (validateSN _ _) as [sn0|] eqn:Hsn; simpl; [|done].
  destruct (k_b (ked serder)) as [bks0|]; simpl; [|done].
  rewrite rbind_check. case_bool_decide as Hnd; [done|].
  apply len_oset_NoDup in Hnd.
  destruct (k_bt (ked serder)) as [bt|]; simpl; [|done].
  destruct (int16 bt) as [toad0|]; simpl; [|done].
  apply validateSN_sn in Hsn as [_ Hsn].
  destruct (truthy bks0) eqn:Ht; rewrite rbind_check.
  - destruct (_ || _) eqn:E; [done|]. intros [= <- <- <- <-].
    apply orb_false_iff in E as [E1 E2].
    apply bool_decide_eq_false in E1, E2. rewrite Ht. split_and!; try done; lia.
  - case_bool_decide as Hz; [done|]. intros [= <- <- <- <-].
    rewrite Ht. split_and!; done.
Qed.

(** The state notice of a verifier whose event has just been logged under
    its own prefix. *)
Lemma Tever_state_logged (self : Tever) (n : Z) (sq : Seqner) (dg : Diger)
    (bg : list Siger) (bk : list string) (w : World) :
  tv_regk self = Some (tv_prefixer self) →
  (0 ≤ tv_sn self)%Z → tv_ilk self ∈ [Ilks.vcp; Ilks.vrt] →
  NoDup (tv_baks self) → NoDup (tv_cuts self) → NoDup (tv_adds self) →
  (if truthy (tv_baks self)
   then (1 ≤ tv_toad self ∧ tv_toad self ≤ len (tv_baks self))%Z
   else tv_toad self = 0%Z) →
  let w' := set_reger (tel_logged (tv_prefixer self) n (tv_serder self)
                         sq dg bg bk (reger w)) w in
  ∃ st, Tever_state self w' = (Ok st, w').
Proof.
  intros Hregk Hsn Hilk Hb Hc Ha Ht w'.
  pose proof (state_ok (tv_pre self) (dig (tv_serder self)) (tv_sn self)
                (tv_prefixer self) (tv_ilk self) (tv_cuts self)
                (tv_adds self)
                (default (seqner_sn sq, diger_qb64 dg)
                   (ancs (reger w)
                      !! dgKey (tv_prefixer self) (dig (tv_serder self))))
                (tv_toad self) (tv_baks self)
                (if tv_noBackers self then [TraitDex.NoBackers] else [])
                Hsn Hilk Hb Hc Ha Ht) as Hst.
  destruct (state _ _ _ _ _ _ _ _ _ _ _ _) as [st|] eqn:Est; [|done].
  exists st. unfold Tever_state. rewrite Hregk, bind_lift.
  unfold getAnc. rewrite bind_read.
  assert (ancs (reger w') !! dgKey (tv_prefixer self) (dig (tv_serder self))
          = Some (default (seqner_sn sq, diger_qb64 dg)
                    (ancs (reger w)
                       !! dgKey (tv_prefixer self) (dig (tv_serder self)))))
    as ->.
  { unfold w', tel_logged. simpl.
    destruct (truthy bg), (truthy bk); simpl; apply add_new_lookup. }
  unfold lift. by rewrite Est.
Qed.

Lemma init_steps (regk : option string) (local : bool) (nb : option bool)
    (serder : Serder) (sq : Seqner) (dg : Diger)
    (bigers : option (list Siger)) (w w' : World) (res : result Tever) :
  U serder →
  Tever_init regk local nb serder sq dg bigers w = (res, w') →
  (is_ok res = false ∧ tvt_ext U (reger w) (reger w'))
  ∨ (∃ t, res = Ok t
          ∧ tv_prefixer t = Serder_pre serder
          ∧ tv_sn t = 0%Z
          ∧ tv_serder t = serder
          ∧ log_step U (Serder_pre serder) 0 serder (reger w) (reger w')).
Proof.
  intros HU. unfold Tever_init. rewrite bind_lift_check.
  destruct (negb (bool_decide (k_t (ked serder) ∈ [Ilks.vcp]))) eqn:Hilk;
    [intros [= <- <-]; left; split; [done|apply tvt_ext_refl]|].
  apply negb_false_iff, bool_decide_eq_true in Hilk.
  rewrite bind_lift.
  destruct (check_labels _ _) as [[]|];
    [|intros [= <- <-]; left; split; [done|apply tvt_ext_refl]].
  rewrite bind_lift.
  destruct (Tever_incept serder) as [[[[pre sn] bks] toad]|] eqn:Hinc;
    [|intros [= <- <-]; left; split; [done|apply tvt_ext_refl]].
  apply Tever_incept_ok in Hinc as (-> & Hnd & Ht).
  rewrite bind_lift.
  destruct (Tever_config serder nb) as [nbk|];
    [|intros [= <- <-]; left; split; [done|apply tvt_ext_refl]].
  cbv zeta. simpl tv_toad. simpl tv_baks. simpl tv_prefixer. simpl tv_pre.
  simpl tv_sn.
  unfold bind at 1.
  match goal with
  | |- context [Tever_valAnchorBigs ?s serder sq dg bigers ?t ?b w] =>
      pose proof (frames_valAnchorBigs U s serder sq dg bigers t b HU w) as Hf;
      destruct (Tever_valAnchorBigs s serder sq dg bigers t b w)
        as [[bg|] w1]; simpl in Hf
  end; [|intros [= <- <-]; left; by split].
  unfold bind at 1.
  rewrite (logEvent_run _ _ _ _ _ _ _ w1 no_fault).
  match goal with
  | |- context [Tever_state ?s] =>
      destruct (Tever_state_logged s 0 sq dg bg bks w1) as [st Hst];
        [done|done|simpl; set_solver|done|by apply NoDup_nil
        |by apply NoDup_nil|done|]
  end.
  simpl in Hst. unfold bind at 1. rewrite Hst.
  unfold pinStates. rewrite bind_write by done. cbn [fst snd].
  intros [= <- <-]. right. eexists. split_and!; try done.
  eapply log_last; [exact Hf|]. simpl.
  unfold tvt_ext. simpl. auto.
Qed.

Lemma validateSN_flag (s : string) (b1 b2 : bool) (n : Z) :
  b1 = b2 → validateSN s b1 = Ok n → validateSN s b2 = Ok n.
Proof. by intros ->. Qed.

Lemma update_steps (self : Tever) (serder : Serder) (sq : Seqner)
    (dg : Diger) (bigers : option (list Siger)) (w w' : World)
    (res : result unit) (self' : Tever) :
  U serder →
  let K := nsKey [tv_prefixer self; k_i (ked serder)] in
  let icp := bool_decide (k_t (ked serder) ∈ [Ilks.iss; Ilks.bis]) in
  Tever_update self serder sq dg bigers w = (res, self', w') →
  (self' = self ∧ tvt_ext U (reger w) (reger w'))
  ∨ (∃ sn, validateSN (k_s (ked serder)) icp = Ok sn
           ∧ k_t (ked serder) ≠ Ilks.vrt
           ∧ self' = self
           ∧ log_step U K sn serder (reger w) (reger w')
           ∧ ((0 < sn)%Z →
              ∃ d0 ie, tels (reger w) !! snKey K (sn - 1) = Some d0
                       ∧ tvts (reger w) !! dgKey K d0 = Some ie
                       ∧ k_p (ked serder) = Some (dig ie)))
  ∨ (∃ sn toad nb cuts adds,
       validateSN (k_s (ked serder)) icp = Ok sn
       ∧ k_t (ked serder) = Ilks.vrt
       ∧ Tever_rotate self serder sn = Ok (toad, nb, cuts, adds)
       ∧ self' = Tever_assign self sn serder Ilks.vrt toad nb cuts adds
       ∧ log_step U (tv_prefixer self) sn serder (reger w) (reger w')).
Proof.
  intros HU K icp. unfold Tever_update. fold icp.
  destruct (validateSN (k_s (ked serder)) icp) as [sn|] eqn:Hsn;
    [|intros [= <- <- <-]; left; split; [done|apply tvt_ext_refl]].
  destruct (k_t (ked serder)) eqn:Hilk;
    try (intros [= <- <- <-]; left; split; [done|apply tvt_ext_refl]).
  - (* vrt *)
    destruct (tv_noBackers self);
      [intros [= <- <- <-]; left; split; [done|apply tvt_ext_refl]|].
    destruct (Tever_rotate self serder sn) as [[[[toad nb] cuts] adds]|]
      eqn:Hrot;
      [|intros [= <- <- <-]; left; split; [done|apply tvt_ext_refl]].
    pose proof (frames_valAnchorBigs U self serder sq dg bigers (PyInt toad)
                  (Str <$> nb) HU w) as Hf.
    destruct (Tever_valAnchorBigs _ _ _ _ _ _ _ w) as [[bg|] w1];
      simpl in Hf; [|intros [= <- <- <-]; left; by split].
    match goal with
    | |- context [bind ?a ?b w1] =>
        destruct (bind a b w1) as [r2 w2] eqn:Hrun
    end.
    simpl. intros [= <- <- <-].
    revert Hrun. unfold bind at 1.
    rewrite (logEvent_run _ _ _ _ _ _ _ w1 no_fault).
    set (tail := bind (Tever_state _) _).
    assert (frames U tail) as Hk.
    { apply frames_bind; [apply frames_Tever_state|intros st].
      apply frames_bind; [apply frames_lift|intros rk].
      apply frames_bind; [apply frames_pinStates|intros ?].
      apply frames_ret. }
    intros Hrun.
    match type of Hrun with
    | tail ?W = _ => specialize (Hk W)
    end.
    rewrite Hrun in Hk. simpl in Hk.
    right. right. exists sn, toad, nb, cuts, adds. split_and!; try done.
    eapply log_last; [exact Hf|exact Hk].
  - (* iss *)
    simpl. destruct (Tever_issue _ _ _ _ _ _ _) as [r1 w1] eqn:Hrun.
    simpl. intros [= <- <- <-].
    destruct (issue_steps _ _ _ _ _ _ _ _ _ HU Hrun) as [Hext|Hlog];
      [by left|].
    right. left. exists sn. split_and!; try done.
    apply validateSN_sn in Hsn as [_ Hsn]. unfold icp in Hsn.
    rewrite bool_decide_eq_true_2 in Hsn by set_solver. lia.
  - (* rev *)
    simpl. destruct (Tever_revoke _ _ _ _ _ _ _) as [r1 w1] eqn:Hrun.
    simpl. intros [= <- <- <-].
    destruct (revoke_steps _ _ _ _ _ _ _ _ _ HU Hrun) as [Hext|[Hlog Hlink]];
      [by left|].
    right. left. exists sn. by split_and!.
  - (* bis *)
    simpl. destruct (Tever_issue _ _ _ _ _ _ _) as [r1 w1] eqn:Hrun.
    simpl. intros [= <- <- <-].
    destruct (issue_steps _ _ _ _ _ _ _ _ _ HU Hrun) as [Hext|Hlog];
      [by left|].
    right. left. exists sn. split_and!; try done.
    apply validateSN_sn in Hsn as [_ Hsn]. unfold icp in Hsn.
    rewrite bool_decide_eq_true_2 in Hsn by set_solver. lia.
  - (* brv *)
    simpl. destruct (Tever_revoke _ _ _ _ _ _ _) as [r1 w1] eqn:Hrun.
    simpl. intros [= <- <- <-].
    destruct (revoke_steps _ _ _ _ _ _ _ _ _ HU Hrun) as [Hext|[Hlog Hlink]];
      [by left|].
    right. left. exists sn. by split_and!.
Qed.

End Steps.

(** ** The invariant of the dispatcher *)

Section WorldInvariant.
Context `{Externals}.
Variable U : Serder → Prop.
Hypothesis U_inj : ∀ e1 e2, U e1 → U e2 → dig e1 = dig e2 → e1 = e2.
Hypothesis no_fault : ∀ r, map_full r = false.
Hypothesis ns_sep : ∀ a b, is_ok (Prefixer (nsKey [a; b])) = false.

Local Open Scope M_scope.

Lemma ext_world_inv (r r' : Registry) :
  world_inv U r → tvt_ext U r r' → world_inv U r'.
Proof.
  intros [Hs Hc] Hext. split.
  - by eapply ext_store_inv.
  - by eapply ext_cache_inv.
Qed.

Lemma frames_world_inv {A} (c : M A) (w : World) :
  frames U c → world_inv U (reger w) → world_inv U (reger (c w).2).
Proof. intros Hf Hinv. eapply ext_world_inv; [exact Hinv|apply Hf]. Qed.

Lemma store_inv_set_tever (f : gmap string Tever → gmap string Tever)
    (r : Registry) :
  store_inv U r → store_inv U (upd_tevers f r).
Proof. done. Qed.

(** Writing back the verifier that was read leaves the cache as it is. *)
Lemma cache_inv_same (r : Registry) (regk : string) (t : Tever) :
  cache_inv r → tevers r !! regk = Some t →
  cache_inv (upd_tevers (insert regk t) r).
Proof.
  intros Hc Hl. unfold cache_inv. simpl. by rewrite (insert_id _ _ _ Hl).
Qed.

(** A credential entry (its prefix is no registry prefix) does not disturb
    the cache. *)
Lemma cache_inv_credential (r r' : Registry) (K : string) (n : Z)
    (d regk : string) (t : Tever) :
  cache_inv r →
  tels r' = <[snKey K n := d]> (tels r) →
  tevers r' = tevers r →
  is_ok (Prefixer K) = false →
  tevers r !! regk = Some t →
  cache_inv (upd_tevers (insert regk t) r').
Proof.
  intros [Hc1 Hc2] Htels Htev HK Hl. unfold cache_inv. simpl.
  rewrite Htels, Htev, (insert_id _ _ _ Hl). split.
  - intros R t0 Ht0. destruct (Hc1 R t0 Ht0) as (Hp & Hok & Htip & Hcnt).
    assert (R ≠ K) as Hne by (intros ->; congruence).
    split_and!; [done|done| |].
    + rewrite lookup_insert_ne; [done|]. unfold snKey. congruence.
    + by rewrite cntTels_insert_other.
  - intros K' Hok Hpos.
    assert (K' ≠ K) as Hne by (intros ->; congruence).
    rewrite cntTels_insert_other in Hpos by done. by apply Hc2.
Qed.

(** A registry entry at the next sequence number moves the tip of that
    registry's verifier. *)
Lemma cache_inv_registry (r r' : Registry) (n : Z) (regk : string)
    (t : Tever) :
  cache_inv r →
  tels r' = <[snKey regk n := dig (tv_serder t)]> (tels r) →
  tels r !! snKey regk n = None →
  tevers r' = tevers r →
  is_ok (Prefixer regk) = true →
  tv_prefixer t = regk → tv_sn t = n →
  cntTels_of (tels r) regk = n →
  cache_inv (upd_tevers (insert regk t) r').
Proof.
  intros [Hc1 Hc2] Htels Hfresh Htev Hok Hp Hsn Hcnt. unfold cache_inv. simpl.
  rewrite Htels, Htev. split.
  - intros R t0 Ht0. destruct (decide (regk = R)) as [<-|Hne].
    + rewrite lookup_insert_eq in Ht0. injection Ht0 as <-.
      split_and!; [done|done| |].
      * by rewrite Hsn, lookup_insert_eq.
      * rewrite cntTels_insert_same by done. lia.
    + rewrite lookup_insert_ne in Ht0 by done.
      destruct (Hc1 R t0 Ht0) as (Hp0 & Hok0 & Htip & Hcnt0).
      split_and!; [done|done| |].
      * rewrite lookup_insert_ne; [done|]. unfold snKey. congruence.
      * by rewrite cntTels_insert_other.
  - intros K' Hok' Hpos. destruct (decide (regk = K')) as [<-|Hne].
    + rewrite lookup_insert_eq. eauto.
    + rewrite lookup_insert_ne by done.
      rewrite cntTels_insert_other in Hpos by done. by apply Hc2.
Qed.

Lemma inceptive_flag (ilk : Ilks.t) :
  ilk ≠ Ilks.vcp →
  bool_decide (ilk ∈ [Ilks.vcp; Ilks.iss; Ilks.bis])
  = bool_decide (ilk ∈ [Ilks.iss; Ilks.bis]).
Proof.
  intros Hne. apply bool_decide_ext. rewrite !elem_of_cons. naive_solver.
Qed.

(** The branch of [processEvent] for a registry that is not in the
    cache. *)
Lemma processEvent_unknown_run (self : Tevery) (serder : Serder)
    (seqner : Seqner) (diger : Diger) (wigers : option (list Siger))
    (w : World) (regk : string) (sn : Z) :
  let ilk := k_t (ked serder) in
  is_ok (Prefixer (Serder_pre serder)) = true →
  Tevery_registryKey serder = Ok regk →
  validateSN (k_s (ked serder))
             (bool_decide (ilk ∈ [Ilks.vcp; Ilks.iss; Ilks.bis])) = Ok sn →
  locality_gate self regk = Ok tt →
  tevers (reger w) !! regk = None →
  Tevery_processEvent self serder seqner diger wigers w
  = (if bool_decide (ilk ∈ [Ilks.vcp])
     then (tever <- Tever_init (ty_regk self) (ty_local self) None
                      serder seqner diger wigers ;;
           fun w => (Ok tt, set_tever regk tever w)) w
     else (Tevery_escrowOOEvent serder seqner diger ;;;
           raise OutOfOrderError) w).
Proof.
  intros ilk Hpre Hkey Hsn Hgate Hnew.
  unfold Tevery_processEvent. fold ilk.
  rewrite bind_lift. destruct (Prefixer _) as [[]|]; [|done].
  rewrite bind_lift, Hkey. rewrite bind_lift, Hsn. rewrite bind_lift, Hgate.
  unfold get_tever. rewrite bind_read, Hnew.
  by destruct (bool_decide (ilk ∈ [Ilks.vcp])).
Qed.

Lemma escrow_then_raise_inv (serder : Serder) (seqner : Seqner)
    (diger : Diger) (e : exn) (w : World) :
  U serder → world_inv U (reger w) →
  world_inv U (reger ((Tevery_escrowOOEvent serder seqner diger ;;;
                     (raise e : M unit)) w).2).
Proof.
  intros HU Hinv. apply frames_world_inv; [|done].
  apply frames_bind; [by apply frames_escrowOOEvent|intros ?].
  apply frames_raise.
Qed.

(** [processEvent] keeps the invariant, whatever it returns or raises. *)
Lemma processEvent_inv (self : Tevery) (serder : Serder) (seqner : Seqner)
    (diger : Diger) (wigers : option (list Siger)) (w : World) :
  U serder → world_inv U (reger w) →
  world_inv U
    (reger (Tevery_processEvent self serder seqner diger wigers w).2).
Proof.
  intros HU Hinv.
  destruct (Prefixer (Serder_pre serder)) as [[]|] eqn:Hpre.
  2: { unfold Tevery_processEvent. rewrite bind_lift, Hpre. done. }
  destruct (Tevery_registryKey serder) as [regk|] eqn:Hkey.
  2: { unfold Tevery_processEvent. rewrite bind_lift, Hpre.
       rewrite bind_lift, Hkey. done. }
  destruct (validateSN (k_s (ked serder))
              (bool_decide (k_t (ked serder)
                            ∈ [Ilks.vcp; Ilks.iss; Ilks.bis])))
    as [sn|] eqn:Hsn.
  2: { unfold Tevery_processEvent. rewrite bind_lift, Hpre.
       rewrite bind_lift, Hkey. rewrite bind_lift, Hsn. done. }
  destruct (locality_gate self regk) as [[]|] eqn:Hgate.
  2: { unfold Tevery_processEvent. rewrite bind_lift, Hpre.
       rewrite bind_lift, Hkey. rewrite bind_lift, Hsn.
       rewrite bind_lift, Hgate. done. }
  assert (is_ok (Prefixer (Serder_pre serder)) = true) as Hpre'
    by (by rewrite Hpre).
  destruct Hinv as [Hstore Hcache].
  destruct (tevers (reger w) !! regk) as [t|] eqn:Hknown.
  - (* a registry in the cache *)
    rewrite (processEvent_known_run self serder seqner diger wigers w regk t
               sn Hpre' Hkey Hsn Hgate Hknown).
    destruct (bool_decide (k_t (ked serder) ∈ [Ilks.vcp])) eqn:Hvcp;
      [done|].
    apply bool_decide_eq_false in Hvcp.
    assert (k_t (ked serder) ≠ Ilks.vcp) as Hnvcp by set_solver.
    destruct (bool_decide (_ < sn)%Z) eqn:Hgt;
      [by apply escrow_then_raise_inv|].
    destruct (bool_decide (sn = _)) eqn:Heq; [|done].
    apply bool_decide_eq_true in Heq.
    destruct (Tever_update t serder seqner diger wigers w)
      as [[res t'] w2] eqn:Hrun. simpl.
    destruct Hcache as [Hc1 Hc2].
    destruct (Hc1 regk t Hknown) as (Hpt & Hokr & Htip & Hcnt).
    rewrite (inceptive_flag _ Hnvcp) in Hsn.
    destruct (update_steps U no_fault t serder seqner diger wigers w w2 res
                t' HU Hrun)
      as [[-> Hext]|[(sn' & Hsn' & Hnvrt & -> & Hlog & Hlink)
                    |(sn' & toad & nb & cuts & adds & Hsn' & Hvrt & Hrot
                      & -> & Hlog)]].
    + (* nothing logged *)
      unfold set_tever. simpl.
      split; [apply store_inv_set_tever; by eapply ext_store_inv|].
      apply cache_inv_same.
      * by eapply ext_cache_inv.
      * destruct Hext as (_ & -> & _). done.
    + (* a credential event logged *)
      rewrite Hsn in Hsn'. injection Hsn' as <-.
      set (K := nsKey [tv_prefixer t; k_i (ked serder)]) in *.
      assert (cntTels_of (tels (reger w)) K = sn) as HcntK.
      { rewrite Heq. destruct (decide (k_t (ked serder) = Ilks.vrt)); [done|].
        unfold Serder_pre. fold K.
        destruct (decide (cntTels_of (tels (reger w)) K = 0%Z)); lia. }
      assert ((0 < sn)%Z →
              ∃ d0, k_p (ked serder) = Some d0
                    ∧ tels (reger w) !! snKey K (sn - 1) = Some d0) as Hlink'.
      { intros Hpos. destruct (Hlink Hpos) as (d0 & ie & Htel & Htvt & Hp).
        exists d0. split; [|done].
        destruct Hstore as (Hsound & _).
        destruct (Hsound _ _ Htvt) as [_ Hd]. simpl in Hd. by rewrite Hp, Hd. }
      destruct (log_step_inv U U_inj K sn serder (reger w) (reger w2) Hstore
                  HU HcntK Hlink' Hlog) as (Hstore' & Htels & Hfresh & Htev).
      unfold set_tever. simpl. split; [by apply store_inv_set_tever|].
      eapply cache_inv_credential; try done. apply ns_sep.
    + (* a rotation logged *)
      rewrite Hsn in Hsn'. injection Hsn' as <-.
      apply Tever_rotate_ok in Hrot as Hfacts.
      destruct Hfacts as (Hpre_e & Hsn_e & Hp & _).
      rewrite Hpt in Hlog.
      assert (cntTels_of (tels (reger w)) regk = sn) as HcntK by lia.
      assert ((0 < sn)%Z →
              ∃ d0, k_p (ked serder) = Some d0
                    ∧ tels (reger w) !! snKey regk (sn - 1) = Some d0)
        as Hlink'.
      { intros _. exists (dig (tv_serder t)). split; [done|].
        replace (sn - 1)%Z with (tv_sn t) by lia. done. }
      destruct (log_step_inv U U_inj regk sn serder (reger w) (reger w2)
                  Hstore HU HcntK Hlink' Hlog)
        as (Hstore' & Htels & Hfresh & Htev).
      unfold set_tever. simpl. split; [by apply store_inv_set_tever|].
      eapply (cache_inv_registry (reger w) (reger w2) sn regk); try done.
  - (* a registry that is not in the cache *)
    rewrite (processEvent_unknown_run self serder seqner diger wigers w regk
               sn Hpre' Hkey Hsn Hgate Hknown).
    destruct (bool_decide (k_t (ked serder) ∈ [Ilks.vcp])) eqn:Hvcp;
      [|by apply escrow_then_raise_inv].
    apply bool_decide_eq_true in Hvcp.
    assert (k_t (ked serder) = Ilks.vcp) as Hilk by set_solver.
    assert (regk = Serder_pre serder) as ->.
    { unfold Tevery_registryKey in Hkey. rewrite Hilk in Hkey. congruence. }
    unfold bind.
    destruct (Tever_init _ _ _ _ _ _ _ w) as [rt w1] eqn:Hinit.
    destruct (init_steps U no_fault _ _ _ _ _ _ _ _ _ _ HU Hinit)
      as [[Hfail Hext]|(t & -> & Hpt & Hsnt & Hst & Hlog)].
    + destruct rt; [done|]. simpl. by eapply ext_world_inv.
    + simpl.
      assert (cntTels_of (tels (reger w)) (Serder_pre serder) = 0%Z) as Hcnt.
      { destruct Hcache as [_ Hc2].
        pose proof (cntTels_nonneg (tels (reger w)) (Serder_pre serder)).
        destruct (decide (0 < cntTels_of (tels (reger w))
                                (Serder_pre serder))%Z) as [Hpos|]; [|lia].
        destruct (Hc2 _ Hpre' Hpos) as [t0 Ht0]. congruence. }
      destruct (log_step_inv U U_inj (Serder_pre serder) 0 serder (reger w)
                  (reger w1) Hstore HU Hcnt ltac:(lia) Hlog)
        as (Hstore' & Htels & Hfresh & Htev).
      unfold set_tever. simpl. split; [by apply store_inv_set_tever|].
      eapply (cache_inv_registry (reger w) (reger w1) 0 (Serder_pre serder));
        try done.
      by rewrite Hst.
Qed.

Lemma bind_inv {A B} (c : M A) (k : A → M B) (w : World) :
  world_inv U (reger (c w).2) →
  (∀ a w1, world_inv U (reger w1) → world_inv U (reger (k a w1).2)) →
  world_inv U (reger ((x <- c ;; k x) w).2).
Proof.
  intros Hc Hk. unfold bind. destruct (c w) as [[a|e] w1]; simpl in *; auto.
Qed.

Lemma for_each_inv {A} (l : list A) (f : A → M unit) (w : World) :
  (∀ x w1, world_inv U (reger w1) → world_inv U (reger (f x w1).2)) →
  world_inv U (reger w) → world_inv U (reger (for_each l f w).2).
Proof.
  intros Hf. revert w. induction l as [|x l IH]; intros w Hinv; [done|].
  simpl. apply bind_inv; [by apply Hf|]. intros _ w1 Hw1. by apply IH.
Qed.

Lemma unescrow_anchorless_inv (self : Tevery) (item : SnKey * string)
    (w : World) :
  world_inv U (reger w) →
  world_inv U (reger (unescrow_anchorless self item w).2).
Proof.
  intros Hinv. unfold unescrow_anchorless.
  set (attempt := bind (getTvt _) _).
  assert (world_inv U (reger (attempt w).2)) as Hatt.
  { unfold attempt, getTvt. rewrite bind_read.
    destruct (tvts (reger w) !! _) as [tserder|] eqn:Htvt; [|done].
    unfold getTibs. rewrite bind_read. unfold getAnc. rewrite bind_read.
    destruct (ancs (reger w) !! _) as [a|]; [|done].
    apply processEvent_inv; [|done].
    destruct Hinv as [(Hsound & _) _]. by destruct (Hsound _ _ Htvt). }
  assert (∀ w', world_inv U (reger w') →
                world_inv U
                  (reger ((delTae (snKey item.1.1 item.1.2) ;;; ret tt) w').2))
    as Hdel.
  { intros w' Hw'. apply frames_world_inv; [|done].
    apply frames_bind; [apply frames_delTae|intros ?; apply frames_ret]. }
  destruct (attempt w) as [[[]|e] w']; simpl in Hatt; [by apply Hdel|].
  destruct e; try (by apply Hdel). done.
Qed.

Lemma processEscrows_inv (self : Tevery) (w : World) :
  world_inv U (reger w) →
  world_inv U (reger (Tevery_processEscrows self w).2).
Proof.
  intros Hinv. unfold Tevery_processEscrows. simpl.
  apply bind_inv.
  - unfold Tevery_processEscrowAnchorless, getTaeItemIter. rewrite bind_read.
    apply for_each_inv; [|done]. intros x w1. apply unescrow_anchorless_inv.
  - intros _ w1 Hw1. by rewrite processEscrowOutOfOrders_skip.
Qed.

Lemma empty_world_inv (kel : Baser) : world_inv U (reger (empty_world kel)).
Proof.
  split; [split_and!|split].
  - intros k e He. simpl in He. by rewrite lookup_empty in He.
  - intros K n d _ Hl. simpl in Hl. by rewrite lookup_empty in Hl.
  - intros K n. simpl. rewrite lookup_empty, cntTels_empty.
    split; [by intros [? ?]|lia].
  - intros R t Ht. simpl in Ht. by rewrite lookup_empty in Ht.
  - intros K _ Hpos. simpl in Hpos. rewrite cntTels_empty in Hpos. lia.
Qed.

Lemma reachable_inv (self : Tevery) (w : World) :
  reachable U self w → world_inv U (reger w).
Proof.
  induction 1 as [kel|w kel _ IH|w serder seqner diger wigers _ IH HU|w _ IH].
  - apply empty_world_inv.
  - done.
  - by apply processEvent_inv.
  - by apply processEscrows_inv.
Qed.

End WorldInvariant.

(** ** Hash-chain continuity *)

Section HashChain.
Context `{Externals}.

Local Open Scope M_scope.

Lemma rotate_rejects_prior (tever : Tever) (serder : Serder) (sn : Z)
    (p : string) :
  k_p (ked serder) = Some p → p ≠ dig (tv_serder tever) →
  Tever_rotate tever serder sn = Raise ValidationError.
Proof.
  intros Hp Hne. unfold Tever_rotate. rewrite Hp. simpl.
  rewrite !rbind_check.
  case_bool_decide; [done|].
  destruct (negb (bool_decide (sn = _))); [done|].
  unfold Serder_compare. by rewrite bool_decide_eq_false_2 by congruence.
Qed.

Lemma revoke_rejects_prior (tever : Tever) (serder : Serder) (sq : Seqner)
    (dg : Diger) (sn : Z) (bigers : option (list Siger)) (w : World)
    (d0 : string) (ie : Serder) :
  let K := nsKey [tv_prefixer tever; k_i (ked serder)] in
  tels (reger w) !! snKey K (sn - 1) = Some d0 →
  tvts (reger w) !! dgKey K d0 = Some ie →
  k_p (ked serder) ≠ Some (dig ie) →
  Tever_revoke tever serder sq dg sn bigers w = (Raise ValidationError, w).
Proof.
  intros K Htel Htvt Hne. unfold Tever_revoke. fold K. rewrite bind_lift.
  destruct (check_labels _ _) as [[]|e] eqn:Hl;
    [|by rewrite (check_labels_raise _ _ _ Hl)].
  unfold getTel. rewrite bind_read, Htel.
  unfold getTvt. rewrite bind_read, Htvt.
  assert (is_Some (k_p (ked serder))) as [p Hp].
  { pose proof (check_labels_ok _ _ Hl "p") as Hp.
    destruct (decide (k_t (ked serder) = Ilks.rev));
      (ospecialize* Hp; [set_solver|]);
      by apply bool_decide_eq_true in Hp. }
  rewrite Hp, bind_lift. simpl. rewrite bind_lift_check.
  unfold Serder_compare.
  by rewrite bool_decide_eq_false_2 by congruence.
Qed.

(** C2, as the code has it.  Over a store that takes its writes, with
    digests that tell the processed events apart and registry prefixes that
    are not namespaced keys: in every world the dispatcher reaches, each
    first-seen entry above sequence number zero points at a stored event of
    that digest whose prior digest [p] is the first-seen entry just below
    it.  Over any store, [Tever.rotate] rejects a [vrt] whose [p] is not
    the digest of the verifier's current event, and [Tever.revoke] rejects
    a [rev] or [brv] whose [p] is not the digest of the event logged at
    [sn - 1] for the credential, with nothing written. *)
Theorem hash_chain_continuity (U : Serder → Prop) (self : Tevery) :
  (∀ w,
     (∀ e1 e2, U e1 → U e2 → dig e1 = dig e2 → e1 = e2) →
     (∀ r, map_full r = false) →
     (∀ a b, is_ok (Prefixer (nsKey [a; b])) = false) →
     reachable U self w →
     hash_chained (reger w))
  ∧ (∀ tever serder sn p,
       k_p (ked serder) = Some p → p ≠ dig (tv_serder tever) →
       Tever_rotate tever serder sn = Raise ValidationError)
  ∧ (∀ tever serder sq dg sn bigers w0 d0 ie,
       let K := nsKey [tv_prefixer tever; k_i (ked serder)] in
       tels (reger w0) !! snKey K (sn - 1) = Some d0 →
       tvts (reger w0) !! dgKey K d0 = Some ie →
       k_p (ked serder) ≠ Some (dig ie) →
       Tever_revoke tever serder sq dg sn bigers w0
       = (Raise ValidationError, w0)).
Proof.
  split_and!.
  - intros w Hinj Hfull Hns Hreach.
    pose proof (reachable_inv U Hinj Hfull Hns self w Hreach) as Hinv.
    apply Hinv.
  - apply rotate_rejects_prior.
  - intros tever serder sq dg sn bigers w0 d0 ie K.
    by apply revoke_rejects_prior.
Qed.

End HashChain.

(** ** The properties on the sample runs *)

Ltac by_run := vm_compute; first [reflexivity | discriminate].

Lemma sample_events_apart (e1 e2 : Serder) :
  sample_events e1 → sample_events e2 → dig e1 = dig e2 → e1 = e2.
Proof.
  unfold sample_events. rewrite !elem_of_cons, !elem_of_nil.
  intros [->|[->|[->|[]]]] [->|[->|[->|[]]]]; simpl; intros Hd;
    first [reflexivity | discriminate Hd].
Qed.

Lemma no_colon_joined (a b : string) : no_colon (a ++ ":" ++ b) = false.
Proof.
  induction a as [|c a IH]; simpl; [done|].
  rewrite IH. apply andb_false_r.
Qed.

Lemma sample_prefixer_namespaced (a b : string) :
  is_ok (sample_prefixer (nsKey [a; b])) = false.
Proof.
  unfold sample_prefixer, nsKey. simpl.
  by rewrite no_colon_joined.
Qed.

Lemma world_rev_reachable : @reachable sample_ext sample_events sample_tevery world_rev.
Proof.
  unfold world_rev, world_iss, world_vcp, run_event.
  repeat (apply @reach_event; [|unfold sample_events; set_solver]).
  apply @reach_empty.
Qed.

Lemma processEvent_known_registry_witness :
  let sq := (anchor 3 "K3").1 in
  let dg := (anchor 3 "K3").2 in
  run_event sample_rev 3 "K3" None world_vcp
  = (Raise OutOfOrderError,
     set_reger (oot_escrowed sample_rev sq dg 1 (reger world_vcp)) world_vcp)
  ∧ oots (oot_escrowed sample_rev sq dg 1 (reger world_vcp)) !! snKey "EV" 1
    = Some "Drev".
Proof.
  intros sq dg.
  destruct (@processEvent_known_registry sample_ext sample_tevery sample_rev
              sq dg None world_vcp "ER" sample_tever 1%Z)
    as (_ & _ & _ & Hgt); [by_run..|].
  apply Hgt; [discriminate | by_run | reflexivity].
Defined.

Lemma hash_chain_continuity_witness :
  tels (reger world_rev) !! snKey "ER:EV" 1 = Some "Drev"
  ∧ hash_chained (reger world_rev)
  ∧ (Serder_pre sample_vrt_forked = tv_prefixer sample_btever
     ∧ is_ok (@Tever_rotate sample_ext sample_btever sample_vrt 1) = true
     ∧ @Tever_rotate sample_ext sample_btever sample_vrt_forked 1
       = Raise ValidationError)
  ∧ (tels (reger world_iss) !! snKey "ER:EV" 0 = Some "Diss"
     ∧ (@Tever_revoke sample_ext sample_tever sample_rev (anchor 3 "K3").1
          (anchor 3 "K3").2 1 None world_iss).1 = Ok tt
     ∧ @Tever_revoke sample_ext sample_tever sample_rev_forked
         (anchor 3 "K3").1 (anchor 3 "K3").2 1 None world_iss
       = (Raise ValidationError, world_iss)).
Proof.
  destruct (@hash_chain_continuity sample_ext sample_events sample_tevery)
    as (Hchain & Hrot & Hrev).
  split_and!; [by_run | | reflexivity | by_run | | by_run | by_run |].
  - exact (Hchain world_rev sample_events_apart (fun _ => eq_refl)
             sample_prefixer_namespaced world_rev_reachable).
  - apply (Hrot sample_btever sample_vrt_forked 1%Z "Dfork");
      [reflexivity | discriminate].
  - apply (Hrev sample_tever sample_rev_forked (anchor 3 "K3").1
             (anchor 3 "K3").2 1%Z None world_iss "Diss" sample_iss);
      [by_run | by_run | discriminate].
Defined.



Lemma update_bars_kinds_by_trait_witness :
  let sq := (anchor 3 "K3").1 in
  let dg := (anchor 3 "K3").2 in
  @Tever_update sample_ext sample_tever sample_vrt (anchor 5 "K5").1
    (anchor 5 "K5").2 None world_vcp
  = (Raise ValidationError, sample_tever, world_vcp)
  ∧ @Tever_update sample_ext sample_tever sample_brv sq dg None world_iss
    = (Raise ValidationError, sample_tever, world_iss)
  ∧ @Tever_update sample_ext sample_tever sample_brv sq dg None world_vcp
    = (Raise TypeError, sample_tever, world_vcp)
  ∧ @Tever_update sample_ext sample_btever sample_rev sq dg None world_bvcp
    = (Raise TypeError, sample_btever, world_bvcp).
Proof.
  intros sq dg. split_and!.
  - destruct (@update_bars_kinds_by_trait sample_ext sample_tever sample_vrt
                (anchor 5 "K5").1 (anchor 5 "K5").2 None world_vcp)
      as (_ & _ & Hok & _); [unfold barred; simpl; set_solver|].
    destruct (Hok 1%Z) as (Hval & _); [by_run|].
    apply Hval. simpl. set_solver.
  - destruct (@update_bars_kinds_by_trait sample_ext sample_tever sample_brv
                sq dg None world_iss)
      as (_ & _ & Hok & _); [unfold barred; simpl; set_solver|].
    destruct (Hok 1%Z) as (_ & Hrev); [by_run|].
    destruct Hrev as (Hval & _); [clear; simpl; set_solver|].
    apply Hval. right. left. exists "Diss". by_run.
  - destruct (@update_bars_kinds_by_trait sample_ext sample_tever sample_brv
                sq dg None world_vcp)
      as (_ & _ & Hok & _); [unfold barred; simpl; set_solver|].
    destruct (Hok 1%Z) as (_ & Hrev); [by_run|].
    destruct Hrev as (_ & Hkey); [clear; simpl; set_solver|].
    apply Hkey; by_run.
  - destruct (@update_bars_kinds_by_trait sample_ext sample_btever sample_rev
                sq dg None world_bvcp)
      as (_ & _ & Hok & _); [unfold barred; simpl; set_solver|].
    destruct (Hok 1%Z) as (_ & Hrev); [by_run|].
    destruct Hrev as (_ & Hkey); [clear; simpl; set_solver|].
    apply Hkey; by_run.
Defined.

Lemma first_sight_escrows_out_of_order_witness :
  run_event sample_iss 2 "K2" None (empty_world sample_kel)
  = (Raise OutOfOrderError, world_early_iss)
  ∧ oots (reger world_early_iss) !! snKey "EV" 0 = Some "Diss".
Proof.
  destruct (@first_sight_escrows_out_of_order sample_ext sample_tevery
              sample_iss (anchor 2 "K2").1 (anchor 2 "K2").2 None
              (empty_world sample_kel) "ER" 0%Z)
    as (Hrun & Hoot & _); [reflexivity | by_run.. | discriminate |].
  split; [|by_run].
  unfold world_early_iss. unfold run_event at 1. rewrite Hrun. by_run.
Defined.

Lemma update_assigns_after_validation_witness :
  let sq := (anchor 5 "K5").1 in
  let dg := (anchor 5 "K5").2 in
  let sigs := default [] (sample_sigs [0; 2]) in
  let upd := @Tever_update sample_ext sample_btever sample_vrt sq dg
               (sample_sigs [0; 2]) world_bvcp in
  let late := @Tever_update late_ext sample_btever sample_vrt sq dg
                (sample_sigs [0; 2]) world_bvcp in
  let turned := @Tever_update sample_ext sample_btever sample_vrt_forked sq dg
                  (sample_sigs [0; 2]) world_bvcp in
  (upd.1.1 = Ok tt
   ∧ tv_baks upd.1.2 = ["B1"; "B3"; "B4"]
   ∧ tels (reger upd.2) !! snKey "EB" 1 = Some "Dvrt")
  ∧ (late.1.1 = Raise MapFullError
     ∧ tv_sn late.1.2 = 1%Z
     ∧ tv_baks late.1.2 = ["B1"; "B3"; "B4"]
     ∧ tels (reger late.2) !! snKey "EB" 1 = Some "Dvrt")
  ∧ turned = (Raise ValidationError, sample_btever, world_bvcp).
Proof.
  intros sq dg sigs upd late turned. split_and!.
  - destruct (@update_assigns_after_validation sample_ext sample_btever
                sample_vrt sq dg (sample_sigs [0; 2]) world_bvcp)
      as (_ & Hvrt & _).
    destruct (Hvrt eq_refl) as (_ & Hsn).
    destruct (Hsn 1%Z) as (_ & Hnb); [by_run|].
    destruct (Hnb eq_refl) as (_ & Hrot).
    destruct (Hrot 2%Z ["B1"; "B3"; "B4"] ["B2"] ["B4"]) as (_ & Hval);
      [by_run|].
    destruct (Hval sigs world_bvcp) as (_ & _ & _ & _ & Hok); [by_run|].
    apply Hok; [done | reflexivity].
  - by_run.
  - destruct (@update_assigns_after_validation sample_ext sample_btever
                sample_vrt sq dg (sample_sigs [0; 2]) world_bvcp)
      as (_ & Hvrt & _).
    destruct (Hvrt eq_refl) as (_ & Hsn).
    destruct (Hsn 1%Z) as (_ & Hnb); [by_run|].
    destruct (Hnb eq_refl) as (_ & Hrot).
    destruct (Hrot 2%Z ["B1"; "B3"; "B4"] ["B2"] ["B4"]) as (_ & Hval);
      [by_run|].
    destruct (Hval sigs world_bvcp) as (_ & _ & _ & Hlog & _); [by_run|].
    destruct (Hlog (@Tever_logEvent sample_ext "EB" 1 sample_vrt sq dg sigs
                      ["B1"; "B3"; "B4"] world_bvcp).2) as (_ & Htel);
      [by_run|].
    refine (eq_trans Htel _). by_run.
  - by_run.
  - by_run.
  - by_run.
  - destruct (@update_assigns_after_validation late_ext sample_btever
                sample_vrt sq dg (sample_sigs [0; 2]) world_bvcp)
      as (_ & Hvrt & _).
    destruct (Hvrt eq_refl) as (_ & Hsn).
    destruct (Hsn 1%Z) as (_ & Hnb); [by_run|].
    destruct (Hnb eq_refl) as (_ & Hrot).
    destruct (Hrot 2%Z ["B1"; "B3"; "B4"] ["B2"] ["B4"]) as (_ & Hval);
      [by_run|].
    destruct (Hval sigs world_bvcp) as (_ & _ & _ & Hlog & _); [by_run|].
    destruct (Hlog (@Tever_logEvent late_ext "EB" 1 sample_vrt sq dg sigs
                      ["B1"; "B3"; "B4"] world_bvcp).2) as (_ & Htel);
      [by_run|].
    refine (eq_trans Htel _). by_run.
  - destruct (@update_assigns_after_validation sample_ext sample_btever
                sample_vrt_forked sq dg (sample_sigs [0; 2]) world_bvcp)
      as (_ & Hvrt & _).
    destruct (Hvrt eq_refl) as (_ & Hsn).
    destruct (Hsn 1%Z) as (_ & Hnb); [by_run|].
    destruct (Hnb eq_refl) as (Hrot & _).
    apply Hrot. by_run.
Defined.

(** Against C3 as stated: the anchoring event is there and digests to
    [diger], but its one seal is a digest seal; [verifyAnchor] does not
    answer [False], it raises [KeyError], and so does [processEvent] on the
    inception anchored there. *)
Lemma verifyAnchor_digest_seal_raises :
  Tever_verifyAnchor sample_tever sample_vcp (anchor 1 "K1").1
    (anchor 1 "K1").2 digest_seal_kel
  = Raise KeyError
  ∧ (run_event sample_vcp 1 "K1" None (empty_world digest_seal_kel)).1
    = Raise KeyError.
Proof. split; by_run. Qed.


(** Against C7 as stated: the issuance that arrives before
    the inception of its registry is parked under the key of the
    credential, not of the registry, and after the inception and a drain of
    the escrows it is still parked and not in the first-seen index. *)
Lemma early_issuance_stays_parked :
  (run_event sample_iss 2 "K2" None (empty_world sample_kel)).1
  = Raise OutOfOrderError
  ∧ oots (reger world_early_iss) !! snKey "ER" 0 = None
  ∧ oots (reger world_early_iss) !! snKey "EV" 0 = Some "Diss"
  ∧ tels (reger world_recovered) !! snKey "ER" 0 = Some "Dvcp"
  ∧ oots (reger world_recovered) !! snKey "EV" 0 = Some "Diss"
  ∧ tels (reger world_recovered) !! snKey (nsKey ["ER"; "EV"]) 0 = None.
Proof. split_and!; by_run. Qed.

(** Against C8 as stated: over a store that refuses the
    writes of [logEvent], a validated rotation raises with the verifier's
    fields already assigned and nothing logged. *)
Lemma update_assigns_before_logging :
  let upd := @Tever_update cramped_ext sample_btever sample_vrt
               (anchor 5 "K5").1 (anchor 5 "K5").2 (sample_sigs [0; 2])
               world_cramped in
  tevers (reger world_cramped) !! "EB" = Some sample_btever
  ∧ upd.1.1 = Raise MapFullError
  ∧ tv_sn upd.1.2 = 1%Z
  ∧ tv_baks upd.1.2 = ["B1"; "B3"; "B4"]
  ∧ upd.1.2 ≠ sample_btever
  ∧ tels (reger upd.2) !! snKey "EB" 1 = None.
Proof. intros upd. split_and!; by_run. Qed.

(** Against C2 as stated: over a store that refuses the writes of the
    first rotation and takes those of the second, the dispatcher accepts
    the inception, raises on the first rotation with the verifier already
    at sequence number 1, and accepts the second rotation: the first-seen
    index then holds an entry at 2 whose event names the digest of the
    first rotation as prior, and nothing at 1. *)
Lemma store_fault_breaks_chain :
  @reachable flaky_ext gap_events sample_tevery world_gap
  ∧ (flaky_event sample_bvcp 4 "K4" (sample_sigs [0; 1])
       (empty_world gap_kel)).1 = Ok tt
  ∧ (flaky_event sample_vrt 5 "K5" (sample_sigs [0; 2]) world_gap_vcp).1
    = Raise MapFullError
  ∧ (flaky_event sample_vrt2 6 "K6" (sample_sigs [0; 1]) world_gap_vrt).1
    = Ok tt
  ∧ tels (reger world_gap) !! snKey "EB" 2 = Some "Dvrt2"
  ∧ tvts (reger world_gap) !! dgKey "EB" "Dvrt2" = Some sample_vrt2
  ∧ k_p (ked sample_vrt2) = Some "Dvrt"
  ∧ tels (reger world_gap) !! snKey "EB" 1 = None
  ∧ ¬ hash_chained (reger world_gap).
Proof.
  split_and!; try by_run.
  - unfold world_gap, world_gap_vrt, world_gap_vcp, flaky_event.
    repeat (apply @reach_event;
            [|unfold gap_events; rewrite !elem_of_cons; tauto]).
    apply @reach_empty.
  - intros Hchain.
    destruct (Hchain "EB" 2%Z "Dvrt2") as (e & d0 & _ & _ & _ & Hprior);
      [done | by_run |].
    revert Hprior. by_run.
Qed.

(** Against C6 as stated: a backer revocation of a credential that was
    never issued, sent to the backerless sample registry, and a revocation
    of such a credential sent to the sample registry with backers, do not
    leave with [ValidationError]: the key of the prior event is built from
    [None] first, and over the sample collaborators that raises
    [TypeError]. *)
Lemma unissued_revocation_raises_TypeError :
  tv_noBackers sample_tever = true
  ∧ tels (reger world_vcp) !! snKey "ER:EV" 0 = None
  ∧ @Tever_update sample_ext sample_tever sample_brv (anchor 3 "K3").1
      (anchor 3 "K3").2 None world_vcp
    = (Raise TypeError, sample_tever, world_vcp)
  ∧ tv_noBackers sample_btever = false
  ∧ @Tever_update sample_ext sample_btever sample_rev (anchor 3 "K3").1
      (anchor 3 "K3").2 None world_bvcp
    = (Raise TypeError, sample_btever, world_bvcp).
Proof. split_and!; by_run. Qed.

(** * Further properties of the code *)

(** ** Entries that stay *)

Section Further.
Context `{Externals}.

Local Open Scope M_scope.

Lemma store_grows_refl (r : Registry) : store_grows r r.
Proof. unfold store_grows. split_and!; auto. Qed.

Lemma store_grows_trans (r1 r2 r3 : Registry) :
  store_grows r1 r2 → store_grows r2 r3 → store_grows r1 r3.
Proof.
  intros (A1 & A2 & A3 & A4 & A5) (B1 & B2 & B3 & B4 & B5).
  unfold store_grows. split_and!; eauto.
Qed.

Lemma extends_refl (w : World) : extends w w.
Proof.
  unfold extends. split_and!; [apply store_grows_refl|done|done|].
  exists []. by rewrite app_nil_r.
Qed.

Lemma extends_trans (w1 w2 w3 : World) :
  extends w1 w2 → extends w2 w3 → extends w1 w3.
Proof.
  intros (A1 & A2 & A3 & m1 & A4) (B1 & B2 & B3 & m2 & B4).
  unfold extends. split_and!; [by eapply store_grows_trans|congruence|congruence|].
  exists (m1 ++ m2). by rewrite B4, A4, app_assoc.
Qed.

Lemma extends_world_grows (w w' : World) : extends w w' → world_grows w w'.
Proof.
  intros (A1 & A2 & A3 & A4). unfold world_grows. split_and!; try done.
  intros k. by rewrite A2.
Qed.

Lemma world_grows_trans (w1 w2 w3 : World) :
  world_grows w1 w2 → world_grows w2 w3 → world_grows w1 w3.
Proof.
  intros (A1 & A2 & A3 & m1 & A4) (B1 & B2 & B3 & m2 & B4).
  unfold world_grows. split_and!; [by eapply store_grows_trans|auto|congruence|].
  exists (m1 ++ m2). by rewrite B4, A4, app_assoc.
Qed.

Lemma add_new_grows `{Countable K} {V} (k k' : K) (v v' : V) (m : gmap K V) :
  m !! k' = Some v' → add_new k v m !! k' = Some v'.
Proof.
  intros Hk. destruct (decide (k = k')) as [->|Hne].
  - by rewrite add_new_lookup, Hk.
  - by rewrite add_new_lookup_ne.
Qed.

Lemma quiet_ret {A} (a : A) : quiet (ret a).
Proof. intros w. apply extends_refl. Qed.

Lemma quiet_raise {A} (e : exn) : quiet (raise e : M A).
Proof. intros w. apply extends_refl. Qed.

Lemma quiet_lift {A} (r : result A) : quiet (lift r).
Proof. intros w. apply extends_refl. Qed.

Lemma quiet_read {A} (f : Registry → A) : quiet (store_read f).
Proof. intros w. apply extends_refl. Qed.

Lemma quiet_bind {A B} (c : M A) (k : A → M B) :
  quiet c → (∀ a, quiet (k a)) → quiet (x <- c ;; k x).
Proof.
  intros Hc Hk w. unfold bind. specialize (Hc w).
  destruct (c w) as [[a|e] w1]; simpl in *; [|done].
  eapply extends_trans; [exact Hc|apply Hk].
Qed.

Lemma quiet_when (b : bool) (c : M unit) : quiet c → quiet (when b c).
Proof. intros Hc. destruct b; [done|apply quiet_ret]. Qed.

Lemma quiet_if {A} (b : bool) (c1 c2 : M A) :
  quiet c1 → quiet c2 → quiet (if b then c1 else c2).
Proof. by destruct b. Qed.

Lemma quiet_write {A} (f : Registry → A * Registry) :
  (∀ r, store_grows r (f r).2 ∧ tevers (f r).2 = tevers r) →
  quiet (store_write f).
Proof.
  intros Hf w. unfold store_write.
  destruct (map_full (reger w)); simpl; [apply extends_refl|].
  destruct (Hf (reger w)) as [Hg Ht].
  unfold extends. simpl. split_and!; [done|done|done|].
  exists []. by rewrite app_nil_r.
Qed.

Ltac grows_write :=
  apply quiet_write; intros r; unfold store_grows; simpl;
  split_and!; auto using @add_new_grows.

Lemma quiet_putTvt key val : quiet (putTvt key val).
Proof. grows_write. Qed.
Lemma quiet_putTel key val : quiet (putTel key val).
Proof. grows_write. Qed.
Lemma quiet_putAnc key val : quiet (putAnc key val).
Proof. grows_write. Qed.
Lemma quiet_putTibs key vals : quiet (putTibs key vals).
Proof. grows_write. Qed.
Lemma quiet_delBaks key : quiet (delBaks key).
Proof. grows_write. Qed.
Lemma quiet_putBaks key vals : quiet (putBaks key vals).
Proof. grows_write. Qed.
Lemma quiet_pinTets key val : quiet (pinTets key val).
Proof. grows_write. Qed.
Lemma quiet_putTae key val : quiet (putTae key val).
Proof. grows_write. Qed.
Lemma quiet_delTae key : quiet (delTae key).
Proof. grows_write. Qed.
Lemma quiet_putTwe key val : quiet (putTwe key val).
Proof. grows_write. Qed.
Lemma quiet_putOot key val : quiet (putOot key val).
Proof. grows_write. Qed.
Lemma quiet_pinStates key val : quiet (pinStates key val).
Proof. grows_write. Qed.

Lemma quiet_getTvt key : quiet (getTvt key).
Proof. apply quiet_read. Qed.
Lemma quiet_getTel key : quiet (getTel key).
Proof. apply quiet_read. Qed.
Lemma quiet_getAnc key : quiet (getAnc key).
Proof. apply quiet_read. Qed.
Lemma quiet_getTibs key : quiet (getTibs key).
Proof. apply quiet_read. Qed.
Lemma quiet_getBaks key : quiet (getBaks key).
Proof. apply quiet_read. Qed.
Lemma quiet_cntTels pre : quiet (cntTels pre).
Proof. apply quiet_read. Qed.

Lemma quiet_cue_query (self : Tever) (seqner : Seqner) :
  quiet (cue_query self seqner).
Proof.
  intros w. unfold cue_query, extends. simpl.
  split_and!; [apply store_grows_refl|done|done|by eexists].
Qed.

Lemma quiet_verifyAnchorM self serder seqner diger :
  quiet (verifyAnchorM self serder seqner diger).
Proof. intros w. apply extends_refl. Qed.

Create HintDb quiet.

#[local] Hint Resolve quiet_ret quiet_raise quiet_lift quiet_read quiet_putTvt
  quiet_putTel quiet_putAnc quiet_putTibs quiet_delBaks quiet_putBaks
  quiet_pinTets quiet_putTae quiet_delTae quiet_putTwe quiet_putOot
  quiet_pinStates quiet_cue_query quiet_verifyAnchorM quiet_getTvt
  quiet_getTel quiet_getAnc quiet_getTibs quiet_getBaks quiet_cntTels : quiet.

Ltac quiet_steps :=
  repeat first
    [ apply quiet_bind; [|intros ?]
    | apply quiet_when
    | apply quiet_if
    | solve [auto with quiet]
    | match goal with
      | |- quiet (match ?x with _ => _ end) => destruct x
      end ].

Lemma quiet_escrowOOEvent serder seqner diger :
  quiet (Tevery_escrowOOEvent serder seqner diger).
Proof. unfold Tevery_escrowOOEvent. quiet_steps. Qed.

Lemma quiet_escrowALEvent serder seqner diger bigers bks :
  quiet (Tever_escrowALEvent serder seqner diger bigers bks).
Proof. unfold Tever_escrowALEvent. quiet_steps. Qed.

Lemma quiet_escrowPWEvent serder seqner diger bigers :
  quiet (Tever_escrowPWEvent serder seqner diger bigers).
Proof. unfold Tever_escrowPWEvent. quiet_steps. Qed.

Lemma quiet_logEvent pre sn serder seqner diger bigers bks :
  quiet (Tever_logEvent pre sn serder seqner diger bigers bks).
Proof. unfold Tever_logEvent. quiet_steps. Qed.

#[local] Hint Resolve quiet_escrowOOEvent quiet_escrowALEvent
  quiet_escrowPWEvent quiet_logEvent : quiet.

Lemma quiet_valAnchorBigs self serder seqner diger bigers toad bks :
  quiet (Tever_valAnchorBigs self serder seqner diger bigers toad bks).
Proof. unfold Tever_valAnchorBigs. quiet_steps. Qed.

Lemma quiet_require_anchor self serder seqner diger :
  quiet (require_anchor self serder seqner diger).
Proof. unfold require_anchor. quiet_steps. Qed.

Lemma quiet_getBackerState self kd : quiet (Tever_getBackerState self kd).
Proof. unfold Tever_getBackerState. quiet_steps. Qed.

Lemma quiet_state self : quiet (Tever_state self).
Proof. unfold Tever_state. quiet_steps. Qed.

#[local] Hint Resolve quiet_valAnchorBigs quiet_require_anchor
  quiet_getBackerState quiet_state : quiet.

Lemma quiet_issue self serder seqner diger sn bigers :
  quiet (Tever_issue self serder seqner diger sn bigers).
Proof. unfold Tever_issue. quiet_steps. Qed.

Lemma quiet_revoke self serder seqner diger sn bigers :
  quiet (Tever_revoke self serder seqner diger sn bigers).
Proof. unfold Tever_revoke. quiet_steps. Qed.

Lemma quiet_init regk local nb serder seqner diger bigers :
  quiet (Tever_init regk local nb serder seqner diger bigers).
Proof. unfold Tever_init. quiet_steps. Qed.

Lemma extends_update self serder seqner diger bigers w :
  extends w (Tever_update self serder seqner diger bigers w).2.
Proof.
  unfold Tever_update.
  destruct (validateSN _ _) as [sn|e]; [|apply extends_refl].
  pose proof (quiet_issue self serder seqner diger sn bigers w) as Hi.
  pose proof (quiet_revoke self serder seqner diger sn bigers w) as Hr.
  destruct (k_t (ked serder)); try apply extends_refl; try done.
  destruct (tv_noBackers self); [apply extends_refl|].
  destruct (Tever_rotate self serder sn) as [[[[toad bks] cuts] adds]|e];
    [|apply extends_refl].
  pose proof (quiet_valAnchorBigs self serder seqner diger bigers
                (PyInt toad) (Str <$> bks) w) as Hv.
  destruct (Tever_valAnchorBigs _ _ _ _ _ _ _ w) as [[bg|e] w1];
    simpl in *; [|done].
  eapply extends_trans; [exact Hv|].
  match goal with |- extends _ (?c w1).2 => assert (quiet c) as Hq end.
  { quiet_steps. }
  apply Hq.
Qed.

Lemma world_grows_set_tever (regk : string) (t : Tever) (w : World) :
  world_grows w (set_tever regk t w).
Proof.
  unfold world_grows, set_tever. simpl.
  split_and!;
    [unfold store_grows; simpl; split_and!; auto| |done
    |exists []; by rewrite app_nil_r].
  intros k Hk. destruct (decide (regk = k)) as [->|Hne].
  - rewrite lookup_insert_eq. by eexists.
  - by rewrite lookup_insert_ne.
Qed.

Lemma world_grows_refl (w : World) : world_grows w w.
Proof. apply extends_world_grows, extends_refl. Qed.

Lemma world_grows_bind {A B} (c : M A) (k : A → M B) (w : World) :
  world_grows w (c w).2 → (∀ a w1, world_grows w1 (k a w1).2) →
  world_grows w ((x <- c ;; k x) w).2.
Proof.
  intros Hc Hk. unfold bind.
  destruct (c w) as [[a|e] w1]; simpl in *; [|done].
  eapply world_grows_trans; [exact Hc|apply Hk].
Qed.

Lemma world_grows_processEvent (self : Tevery) (serder : Serder)
    (seqner : Seqner) (diger : Diger) (wigers : option (list Siger))
    (w : World) :
  world_grows w (Tevery_processEvent self serder seqner diger wigers w).2.
Proof.
  unfold Tevery_processEvent.
  apply world_grows_bind; [apply extends_world_grows, quiet_lift|].
  intros _ w1.
  apply world_grows_bind; [apply extends_world_grows, quiet_lift|].
  intros regk w2.
  apply world_grows_bind; [apply extends_world_grows, quiet_lift|].
  intros sn w3.
  apply world_grows_bind; [apply extends_world_grows, quiet_lift|].
  intros _ w4.
  apply world_grows_bind; [apply extends_world_grows, quiet_read|].
  intros known w5. destruct known as [tever|].
  - destruct (bool_decide (k_t (ked serder) ∈ [Ilks.vcp]));
      [apply world_grows_refl|].
    apply world_grows_bind.
    { apply extends_world_grows.
      assert (quiet (if bool_decide (k_t (ked serder) ∈ [Ilks.vrt])
                     then ret (tv_sn tever + 1)%Z
                     else esn <- Tever_vcSn tever (Serder_pre serder) ;;
                          ret (match esn with
                               | None => 0%Z
                               | Some n => (n + 1)%Z
                               end))) as Hq; [|apply Hq].
      unfold Tever_vcSn. quiet_steps. }
    intros sno w6.
    destruct (bool_decide (sno < sn)%Z).
    { apply extends_world_grows.
      assert (quiet (Tevery_escrowOOEvent serder seqner diger ;;;
                     raise OutOfOrderError : M unit)) as Hq; [|apply Hq].
      quiet_steps. }
    destruct (bool_decide (sn = sno)); [|apply world_grows_refl].
    simpl. eapply world_grows_trans;
      [apply extends_world_grows, (extends_update tever serder seqner diger
                                     wigers w6)|].
    apply world_grows_set_tever.
  - destruct (bool_decide (k_t (ked serder) ∈ [Ilks.vcp])).
    + apply world_grows_bind; [apply extends_world_grows, quiet_init|].
      intros tever w6. simpl. apply world_grows_set_tever.
    + apply extends_world_grows.
      assert (quiet (Tevery_escrowOOEvent serder seqner diger ;;;
                     raise OutOfOrderError : M unit)) as Hq; [|apply Hq].
      quiet_steps.
Qed.

Lemma world_grows_for_each {A} (l : list A) (f : A → M unit) (w : World) :
  (∀ a w1, world_grows w1 (f a w1).2) →
  world_grows w (for_each l f w).2.
Proof.
  intros Hf. revert w. induction l as [|a l IH]; intros w; simpl.
  - apply world_grows_refl.
  - apply world_grows_bind; [apply Hf|]. intros _ w1. apply IH.
Qed.

(** One turn of the anchorless drain removes at most its own [tae]
    entry. *)
Lemma world_grows_unescrow (self : Tevery) (item : SnKey * string)
    (w : World) :
  world_grows w (unescrow_anchorless self item w).2.
Proof.
  unfold unescrow_anchorless.
  match goal with |- context [match ?c w with _ => _ end] =>
    assert (world_grows w (c w).2) as Hc; [|destruct (c w) as [[[]|e] w1]]
  end.
  - apply world_grows_bind; [apply extends_world_grows, quiet_getTvt|].
    intros [tserder|] w1; [|apply world_grows_refl].
    apply world_grows_bind; [apply extends_world_grows, quiet_getTibs|].
    intros tibs w2.
    apply world_grows_bind; [apply extends_world_grows, quiet_getAnc|].
    intros [a|] w3; [|apply world_grows_refl].
    apply world_grows_processEvent.
  - simpl in Hc. eapply world_grows_trans; [exact Hc|].
    apply extends_world_grows.
    assert (quiet (delTae (snKey item.1.1 item.1.2) ;;; ret tt)) as Hq;
      [quiet_steps|apply Hq].
  - simpl in Hc.
    assert (world_grows w1 ((delTae (snKey item.1.1 item.1.2) ;;; ret tt) w1).2)
      as Hd.
    { apply extends_world_grows.
      assert (quiet (delTae (snKey item.1.1 item.1.2) ;;; ret tt)) as Hq;
        [quiet_steps|apply Hq]. }
    destruct e; simpl; first [by eapply world_grows_trans | done].
Qed.

Lemma world_grows_processEscrows (self : Tevery) (w : World) :
  world_grows w (Tevery_processEscrows self w).2.
Proof.
  unfold Tevery_processEscrows. simpl.
  apply world_grows_bind.
  - unfold Tevery_processEscrowAnchorless.
    apply world_grows_bind; [apply extends_world_grows, quiet_read|].
    intros items w1. apply world_grows_for_each. intros a w2.
    apply world_grows_unescrow.
  - intros _ w1. rewrite processEscrowOutOfOrders_skip. apply world_grows_refl.
Qed.


(** X1. Neither [processEvent] nor [processEscrows] ever removes or
    overwrites an entry of the first-seen index, an event body, an anchor
    couple, or an entry of the out-of-order or partially-witnessed escrow;
    neither drops a registry from the cache or touches the KEL store; and
    the cue deck is only appended to.  This holds for every input, also
    when a store write fails. *)
Theorem stores_only_grow (self : Tevery) :
  (∀ serder seqner diger wigers w,
     world_grows w (Tevery_processEvent self serder seqner diger wigers w).2)
  ∧ (∀ w, world_grows w (Tevery_processEscrows self w).2).
Proof.
  split.
  - intros. apply world_grows_processEvent.
  - intros. apply world_grows_processEscrows.
Qed.

(** ** The log and the cache in the worlds the dispatcher reaches *)

(** X2. Over a store that takes its writes, with digests that tell the
    processed events apart and registry prefixes that are not namespaced
    keys: in every world the dispatcher reaches the first-seen index of a
    prefix has no gaps (it holds an entry exactly at the sequence numbers
    below its count), every cached verifier sits at the last entry of its
    registry (its [sn] is the count minus one and its event's digest is the
    entry there), a registry with a log is in the cache, and every stored
    event body lies under its own digest. *)
Theorem reachable_log_is_dense (U : Serder → Prop)
    (self : Tevery) (w : World) :
  (∀ e1 e2, U e1 → U e2 → dig e1 = dig e2 → e1 = e2) →
  (∀ r, map_full r = false) →
  (∀ a b, is_ok (Prefixer (nsKey [a; b])) = false) →
  reachable U self w →
  let r := reger w in
  (∀ K n, is_Some (tels r !! snKey K n) ↔ (0 ≤ n < cntTels_of (tels r) K)%Z)
  ∧ (∀ R t, tevers r !! R = Some t →
       tv_prefixer t = R
       ∧ tels r !! snKey R (tv_sn t) = Some (dig (tv_serder t))
       ∧ cntTels_of (tels r) R = (tv_sn t + 1)%Z)
  ∧ (∀ K, is_ok (Prefixer K) = true → (0 < cntTels_of (tels r) K)%Z →
       is_Some (tevers r !! K))
  ∧ (∀ k e, tvts r !! k = Some e → U e ∧ dig e = k.2).
Proof.
  intros Hinj Hfull Hns Hreach r.
  destruct (reachable_inv U Hinj Hfull Hns self w Hreach)
    as ((Hsound & _ & Hdense) & Hcache & Hlogged).
  split_and!; [exact Hdense| |exact Hlogged|exact Hsound].
  intros R t Ht. destruct (Hcache R t Ht) as (? & ? & ? & ?). by split_and!.
Qed.

(** ** What the dispatcher turns away *)

(** X3. [processEvent] turns an event away, with the stores, the cache and
    the cue deck untouched, when its prefix is not one [Prefixer] takes
    ([ValidationError]); when its kind is none of the six TEL kinds
    ([ValidationError]) or the field that names its registry is missing
    (what [registryKey] raises); when its sequence number does not pass
    [validateSN] (what [validateSN] raises); and when the dispatcher has a
    registry of its own and the event is on the wrong side of it: another
    registry's event in local mode, its own registry's event otherwise
    ([ValueError]). *)
Theorem processEvent_turns_away (self : Tevery) (serder : Serder)
    (seqner : Seqner) (diger : Diger) (wigers : option (list Siger))
    (w : World) :
  let pre := Serder_pre serder in
  let ilk := k_t (ked serder) in
  let inceptive := bool_decide (ilk ∈ [Ilks.vcp; Ilks.iss; Ilks.bis]) in
  let run := Tevery_processEvent self serder seqner diger wigers w in
  (is_ok (Prefixer pre) = false → run = (Raise ValidationError, w))
  ∧ (is_ok (Prefixer pre) = true →
     (ilk ∈ [Ilks.ksn; Ilks.qry; Ilks.ixn] → run = (Raise ValidationError, w))
     ∧ (∀ e, Tevery_registryKey serder = Raise e → run = (Raise e, w))
     ∧ (∀ regk, Tevery_registryKey serder = Ok regk →
          (∀ e, validateSN (k_s (ked serder)) inceptive = Raise e →
             run = (Raise e, w))
          ∧ (is_ok (validateSN (k_s (ked serder)) inceptive) = true →
             ∀ own, ty_regk self = Some own → own ≠ "" →
               (ty_local self = true → regk ≠ own →
                run = (Raise ValueError, w))
               ∧ (ty_local self = false → regk = own →
                  run = (Raise ValueError, w))))).
Proof.
  intros pre ilk inceptive run. unfold run, Tevery_processEvent.
  fold pre ilk. split.
  - intros Hp. rewrite bind_lift. by destruct (Prefixer pre).
  - intros Hp. rewrite bind_lift. destruct (Prefixer pre) as [u|]; [|done].
    split_and!.
    + intros Hk. rewrite bind_lift.
      assert (Tevery_registryKey serder = Raise ValidationError) as ->; [|done].
      unfold Tevery_registryKey. fold ilk.
      destruct ilk; try done; exfalso; set_solver.
    + intros e He. by rewrite bind_lift, He.
    + intros regk Hr. rewrite bind_lift, Hr. rewrite bind_lift. split.
      * intros e E. destruct (validateSN _ _) as [sn|e'] eqn:E'; [done|].
        by injection E as ->.
      * intros Hsn own Hown Hne.
        destruct (validateSN _ _) as [sn|e] eqn:E; [|done].
        rewrite bind_lift. unfold locality_gate. rewrite Hown. simpl.
        rewrite (bool_decide_eq_false_2 (own = "")) by done. simpl.
        split; intros -> Hregk.
        -- rewrite (bool_decide_eq_true_2 (Some own ≠ Some regk))
             by congruence. done.
        -- rewrite (bool_decide_eq_true_2 (Some own = Some regk))
             by congruence. done.
Qed.


(** ** How a registry gets into the cache *)

Lemma bind_ok_inv {A B} (c : M A) (k : A → M B) (w w' : World) (b : B) :
  (x <- c ;; k x) w = (Ok b, w') →
  ∃ a w1, c w = (Ok a, w1) ∧ k a w1 = (Ok b, w').
Proof.
  unfold bind. destruct (c w) as [[a|e] w1]; [eauto|discriminate].
Qed.

Lemma store_write_ok_inv {A} (f : Registry → A * Registry) (w w' : World)
    (a : A) :
  store_write f w = (Ok a, w') →
  map_full (reger w) = false
  ∧ a = (f (reger w)).1 ∧ w' = set_reger (f (reger w)).2 w.
Proof.
  unfold store_write. destruct (map_full (reger w)); [discriminate|].
  by intros [= <- <-].
Qed.

(** When [logEvent] returns, the first-seen index has an entry at the key
    it was given. *)
Lemma logEvent_ok_logged (pre : string) (sn : Z) (serder : Serder)
    (seqner : Seqner) (diger : Diger) (bigers : list Siger)
    (bks : list string) (w w' : World) :
  Tever_logEvent pre sn serder seqner diger bigers bks w = (Ok tt, w') →
  is_Some (tels (reger w') !! snKey pre sn).
Proof.
  unfold Tever_logEvent. intros Hrun.
  apply bind_ok_inv in Hrun as (_ & w1 & _ & Hrun).
  apply bind_ok_inv in Hrun as (_ & w2 & _ & Hrun).
  apply bind_ok_inv in Hrun as (_ & w3 & _ & Hrun).
  apply bind_ok_inv in Hrun as (_ & w4 & _ & Hrun).
  apply bind_ok_inv in Hrun as (_ & w5 & _ & Hrun).
  apply bind_ok_inv in Hrun as (b & w6 & Hput & Hrun).
  injection Hrun as <-.
  apply store_write_ok_inv in Hput as (_ & _ & ->). simpl.
  rewrite add_new_lookup. by eexists.
Qed.

(** What [Tever.__init__] has done when it returns a verifier. *)
Lemma Tever_init_ok (regk : option string) (local : bool)
    (nb : option bool) (serder : Serder) (seqner : Seqner) (diger : Diger)
    (bigers : option (list Siger)) (w w' : World) (t : Tever) :
  Tever_init regk local nb serder seqner diger bigers w = (Ok t, w') →
  k_t (ked serder) = Ilks.vcp
  ∧ tv_regk t = Some (Serder_pre serder)
  ∧ tv_prefixer t = Serder_pre serder
  ∧ tv_local t = local
  ∧ tv_sn t = 0%Z
  ∧ tv_serder t = serder
  ∧ tv_ilk t = Ilks.vcp
  ∧ k_ii (ked serder) = Some (tv_pre t)
  ∧ k_b (ked serder) = Some (tv_baks t)
  ∧ NoDup (tv_baks t)
  ∧ (if truthy (tv_baks t)
     then (1 ≤ tv_toad t ∧ tv_toad t ≤ len (tv_baks t))%Z
     else tv_toad t = 0%Z)
  ∧ tv_cuts t = [] ∧ tv_adds t = []
  ∧ (∃ cnfg, k_c (ked serder) = Some cnfg
             ∧ tv_noBackers t
               = (if bool_decide (TraitDex.NoBackers ∈ cnfg) then true
                  else default false nb))
  ∧ is_Some (tels (reger w') !! snKey (Serder_pre serder) 0)
  ∧ is_Some (states (reger w') !! Serder_pre serder).
Proof.
  unfold Tever_init. intros Hrun.
  apply bind_ok_inv in Hrun as ([] & w1 & Hilk & Hrun).
  unfold lift in Hilk. injection Hilk as Hilk <-.
  apply check_ok, negb_false_iff, bool_decide_eq_true in Hilk.
  apply bind_ok_inv in Hrun as ([] & w1 & Hlab & Hrun).
  unfold lift in Hlab. injection Hlab as Hlab <-.
  apply bind_ok_inv in Hrun as ([[[pre sn] bks] toad] & w1 & Hinc & Hrun).
  unfold lift in Hinc. injection Hinc as Hinc <-.
  apply bind_ok_inv in Hrun as (nbk & w1 & Hcfg & Hrun).
  unfold lift in Hcfg. injection Hcfg as Hcfg <-.
  simpl in Hrun.
  apply bind_ok_inv in Hrun as (bg & w1 & Hval & Hrun).
  apply bind_ok_inv in Hrun as ([] & w2 & Hlog & Hrun).
  apply bind_ok_inv in Hrun as (st & w3 & Hst & Hrun).
  apply bind_ok_inv in Hrun as (b & w4 & Hpin & Hrun).
  injection Hrun as <- <-. simpl.
  pose proof (Tever_incept_ok _ _ _ _ _ Hinc) as (-> & Hnd & Htoad).
  assert (k_ii (ked serder) = Some pre ∧ k_b (ked serder) = Some bks)
    as [Hii Hb].
  { revert Hinc. unfold Tever_incept.
    destruct (k_ii (ked serder)) as [ii|]; simpl; [|done].
    destruct (Prefixer _); simpl; [|done].
    rewrite rbind_check. destruct (negb _); [done|].
    destruct (validateSN _ _); simpl; [|done].
    destruct (k_b (ked serder)) as [b0|]; simpl; [|done].
    rewrite rbind_check. case_bool_decide; [done|].
    destruct (k_bt (ked serder)); simpl; [|done].
    destruct (int16 _); simpl; [|done].
    destruct (truthy b0); rewrite rbind_check.
    + destruct (_ || _); [done|]. intros ?. by simplify_eq.
    + case_bool_decide; [done|]. intros ?. by simplify_eq. }
  assert (∃ cnfg, k_c (ked serder) = Some cnfg
                  ∧ nbk = (if bool_decide (TraitDex.NoBackers ∈ cnfg)
                           then true else default false nb)) as Hc.
  { revert Hcfg. unfold Tever_config.
    destruct (k_c (ked serder)) as [cnfg|]; simpl; [|done].
    intros [= <-]. eauto. }
  apply logEvent_ok_logged in Hlog.
  match type of Hst with Tever_state ?t _ = _ =>
    pose proof (quiet_state t w2) as Hq1 end.
  rewrite Hst in Hq1. simpl in Hq1.
  pose proof (quiet_pinStates (Serder_pre serder) st w3) as Hq2.
  rewrite Hpin in Hq2. simpl in Hq2.
  destruct Hq1 as ((Ht1 & _) & _), Hq2 as ((Ht2 & _) & _).
  apply store_write_ok_inv in Hpin as (_ & _ & Hw4).
  split_and!; try done.
  - set_solver.
  - set_solver.
  - destruct Hlog as [d Hd]. exists d. by apply Ht2, Ht1.
  - rewrite Hw4. simpl. rewrite lookup_insert_eq. by eexists.
Qed.


Lemma quiet_tevers {A} (c : M A) (w : World) :
  quiet c → tevers (reger (c w).2) = tevers (reger w).
Proof. intros Hq. apply (Hq w). Qed.

Lemma quiet_escrow_raise serder seqner diger :
  quiet (Tevery_escrowOOEvent serder seqner diger ;;;
         raise OutOfOrderError : M unit).
Proof.
  apply quiet_bind; [apply quiet_escrowOOEvent|intros ?; apply quiet_raise].
Qed.

(** X4. A registry enters the cache of verifiers in one way only: by a
    [processEvent] that returns, on the inception ([vcp]) of that registry.
    The verifier cached then is at sequence number 0 with the inception as
    its event, names the registry as its prefix and as its [regk], has the
    backers and the issuer of the event, no cuts and no adds; and the
    first-seen index has an entry at [(registry, 0)] and the registry a
    pinned state notice.  So a [processEvent] that raises never adds a
    registry to the cache. *)
Theorem cache_entry_comes_from_inception (self : Tevery) (serder : Serder)
    (seqner : Seqner) (diger : Diger) (wigers : option (list Siger))
    (w : World) (R : string) (t : Tever) :
  let run := Tevery_processEvent self serder seqner diger wigers w in
  tevers (reger w) !! R = None →
  tevers (reger run.2) !! R = Some t →
  run.1 = Ok tt
  ∧ k_t (ked serder) = Ilks.vcp
  ∧ Serder_pre serder = R
  ∧ tv_regk t = Some R ∧ tv_prefixer t = R
  ∧ tv_local t = ty_local self
  ∧ tv_sn t = 0%Z ∧ tv_serder t = serder ∧ tv_ilk t = Ilks.vcp
  ∧ k_ii (ked serder) = Some (tv_pre t)
  ∧ k_b (ked serder) = Some (tv_baks t)
  ∧ tv_cuts t = [] ∧ tv_adds t = []
  ∧ is_Some (tels (reger run.2) !! snKey R 0)
  ∧ is_Some (states (reger run.2) !! R).
Proof.
  intros run Hnone. unfold run. clear run.
  destruct (Tevery_processEvent self serder seqner diger wigers w)
    as [res w'] eqn:Hrun.
  simpl. revert Hrun. unfold Tevery_processEvent.
  rewrite bind_lift.
  destruct (Prefixer (Serder_pre serder)) as [u|]; simpl;
    [|intros [= <- <-]; congruence].
  rewrite bind_lift.
  destruct (Tevery_registryKey serder) as [regk|] eqn:Hkey; simpl;
    [|intros [= <- <-]; congruence].
  rewrite bind_lift.
  destruct (validateSN _ _) as [sn|]; simpl; [|intros [= <- <-]; congruence].
  rewrite bind_lift.
  destruct (locality_gate self regk); simpl; [|intros [= <- <-]; congruence].
  unfold get_tever. rewrite bind_read.
  destruct (tevers (reger w) !! regk) as [tever|] eqn:Hknown.
  - assert (R ≠ regk) as Hne by congruence.
    case_bool_decide as Hvcp; [intros [= <- <-]; congruence|].
    unfold bind at 1.
    match goal with |- context [match ?c w with _ => _ end] =>
      assert (quiet c) as Hq; [|pose proof (Hq w) as Hw;
                                destruct (c w) as [[sno|e] w1]]
    end.
    { unfold Tever_vcSn. quiet_steps. }
    2: { simpl in *. destruct Hw as (_ & Hw & _). intros [= <- <-].
         congruence. }
    simpl in Hw. destruct Hw as (_ & Hw & _).
    destruct (bool_decide (sno < sn)%Z).
    { intros Hrun.
      pose proof (quiet_tevers _ w1 (quiet_escrow_raise serder seqner diger))
        as Hq'.
      rewrite Hrun in Hq'. simpl in Hq'. congruence. }
    destruct (bool_decide (sn = sno)); [|intros [= <- <-]; congruence].
    intros [= <- <-]. simpl. rewrite lookup_insert_ne by done.
    destruct (extends_update tever serder seqner diger wigers w1)
      as (_ & -> & _).
    congruence.
  - case_bool_decide as Hvcp.
    + unfold bind.
      pose proof (quiet_init (ty_regk self) (ty_local self) None serder
                    seqner diger wigers w) as Hq.
      destruct (Tever_init _ _ _ _ _ _ _ w) as [[tever|e] w1] eqn:Hinit;
        simpl in *.
      2: { destruct Hq as (_ & Hq & _). intros [= <- <-]. congruence. }
      destruct Hq as (_ & Hq & _).
      assert (regk = Serder_pre serder) as ->.
      { revert Hkey. unfold Tevery_registryKey.
        destruct (k_t (ked serder)); try (exfalso; set_solver); congruence. }
      intros [= <- <-]. simpl.
      destruct (decide (R = Serder_pre serder)) as [->|Hne].
      * rewrite lookup_insert_eq. intros [= <-].
        destruct (Tever_init_ok _ _ _ _ _ _ _ _ _ _ Hinit)
          as (? & ? & ? & ? & ? & ? & ? & ? & ? & _ & _ & ? & ? & _ & ? & ?).
        split_and!; done.
      * rewrite lookup_insert_ne by done. congruence.
    + intros Hrun.
      pose proof (quiet_tevers _ w (quiet_escrow_raise serder seqner diger))
        as Hq'.
      rewrite Hrun in Hq'. simpl in Hq'. congruence.
Qed.


(** ** Simple issuance and revocation, case by case *)

Lemma require_anchor_run (self : Tever) (serder : Serder) (seqner : Seqner)
    (diger : Diger) (w : World) :
  (∀ r, map_full r = false) →
  let anchored := Tever_verifyAnchor self serder seqner diger (db w) in
  (∀ n, Serder_sn serder = Ok n → anchored = Ok false →
     require_anchor self serder seqner diger w
     = (Raise MissingAnchorError,
        let parked :=
          set_reger (tae_escrowed serder seqner diger [] [] n (reger w)) w in
        if is_new (snKey (Serder_pre serder) n) (taes (reger w))
        then append_cue (CueQuery (tv_pre self) (seqner_sn seqner)) parked
        else parked))
  ∧ (anchored = Ok true →
     require_anchor self serder seqner diger w = (Ok tt, w))
  ∧ (∀ e, anchored = Raise e →
       require_anchor self serder seqner diger w = (Raise e, w)).
Proof.
  intros Hfull anchored. unfold anchored, require_anchor, verifyAnchorM.
  split_and!.
  - intros n Hn Ha. unfold bind at 1. rewrite Ha. simpl. unfold bind.
    rewrite (escrowALEvent_run serder seqner diger [] [] [] n w Hfull eq_refl Hn).
    by destruct (is_new _ _).
  - intros Ha. unfold bind at 1. by rewrite Ha.
  - intros e Ha. unfold bind at 1. by rewrite Ha.
Qed.

(** X5. [Tever.issue] on a simple issuance ([iss]), over a store that takes
    the writes.  It raises [ValidationError] with nothing written when the
    event lacks [ri] or [dt], when the registry has backers, or when [ri] is
    not the registry of the verifier.  Otherwise the anchor decides: not
    verified, the event is escrowed anchorless (with a query cue when the
    [tae] entry is new) and missing-anchor is raised; verified, the event is
    logged under [nsKey(registry, credential)] at the [sn] the caller gave;
    and what [verifyAnchor] raises goes through.  The TEL index is never
    consulted: whether the credential was issued before plays no part. *)
Theorem simple_issue_outcomes (self : Tever) (serder : Serder)
    (seqner : Seqner) (diger : Diger) (sn : Z)
    (bigers : option (list Siger)) (w : World) :
  let kd := ked serder in
  let vci := nsKey [tv_prefixer self; k_i kd] in
  let anchored := Tever_verifyAnchor self serder seqner diger (db w) in
  let run := Tever_issue self serder seqner diger sn bigers w in
  k_t kd = Ilks.iss →
  (∀ r, map_full r = false) →
  (k_ri kd = None ∨ k_dt kd = None ∨ tv_noBackers self = false
   ∨ k_ri kd ≠ Some (tv_prefixer self) →
   run = (Raise ValidationError, w))
  ∧ (is_Some (k_dt kd) → tv_noBackers self = true →
     k_ri kd = Some (tv_prefixer self) →
     (∀ n, Serder_sn serder = Ok n → anchored = Ok false →
        run = (Raise MissingAnchorError,
               let parked :=
                 set_reger (tae_escrowed serder seqner diger [] [] n
                              (reger w)) w in
               if is_new (snKey (Serder_pre serder) n) (taes (reger w))
               then append_cue (CueQuery (tv_pre self) (seqner_sn seqner))
                      parked
               else parked))
     ∧ (anchored = Ok true →
        run = (Ok tt,
               set_reger (tel_logged vci sn serder seqner diger [] []
                            (reger w)) w))
     ∧ (∀ e, anchored = Raise e → run = (Raise e, w))).
Proof.
  intros kd vci anchored run Hilk Hfull.
  assert (run = (if negb (bool_decide (is_Some (k_ri kd))
                          && bool_decide (is_Some (k_dt kd)))
                 then (Raise ValidationError, w)
                 else if negb (tv_noBackers self)
                      then (Raise ValidationError, w)
                      else if bool_decide (k_ri kd ≠ Some (tv_prefixer self))
                           then (Raise ValidationError, w)
                           else (require_anchor self serder seqner diger ;;;
                                 Tever_logEvent vci sn serder seqner diger
                                   [] [])%M w)) as Hrun.
  { unfold run, Tever_issue. fold kd. rewrite Hilk.
    rewrite decide_True by done. rewrite bind_lift.
    unfold check_labels, ISS_LABELS. simpl.
    unfold has_label. simpl. fold kd.
    rewrite !andb_true_r.
    destruct (bool_decide (is_Some (k_ri kd)) && bool_decide (is_Some (k_dt kd)))
      eqn:Hl; simpl; [|done].
    rewrite bind_lift_check. destruct (negb (tv_noBackers self)); [done|].
    apply andb_true_iff in Hl as [Hri _].
    apply bool_decide_eq_true in Hri as [ri Hri]. rewrite Hri.
    rewrite bind_lift. simpl. rewrite bind_lift_check.
    destruct (decide (ri = tv_prefixer self)) as [->|Hne].
    - rewrite (bool_decide_eq_false_2 (tv_prefixer self ≠ tv_prefixer self))
        by (by intros ?).
      by rewrite (bool_decide_eq_false_2 (Some _ ≠ Some _)) by (by intros ?).
    - rewrite (bool_decide_eq_true_2 (ri ≠ _)) by done.
      by rewrite (bool_decide_eq_true_2 (Some ri ≠ _)) by congruence. }
  split.
  - intros Hbad. rewrite Hrun.
    destruct (bool_decide (is_Some (k_ri kd))) eqn:Hri; simpl; [|done].
    destruct (bool_decide (is_Some (k_dt kd))) eqn:Hdt; simpl; [|done].
    destruct (tv_noBackers self); simpl; [|done].
    case_bool_decide as Hne; [done|].
    apply bool_decide_eq_true in Hri, Hdt.
    destruct Hbad as [E|[E|[E|E]]]; [|  |done|done].
    + rewrite E in Hri. by destruct Hri.
    + rewrite E in Hdt. by destruct Hdt.
  - intros Hdt Hnb Hri. rewrite Hrun.
    rewrite (bool_decide_eq_true_2 (is_Some (k_ri kd)))
      by (rewrite Hri; by eexists).
    rewrite (bool_decide_eq_true_2 (is_Some (k_dt kd))) by done.
    rewrite Hnb. simpl.
    rewrite (bool_decide_eq_false_2 (k_ri kd ≠ _)) by (by intros ?).
    destruct (require_anchor_run self serder seqner diger w Hfull)
      as (Hf & Ht & Hr).
    unfold bind. split_and!.
    + intros n Hn Ha. by rewrite (Hf n Hn Ha).
    + intros Ha. rewrite (Ht Ha). by rewrite logEvent_run.
    + intros e Ha. by rewrite (Hr e Ha).
Qed.


(** X6. [Tever.revoke] on a simple revocation ([rev]), over a store that
    takes the writes.  It raises [ValidationError] with nothing written when
    the event lacks [p] or [dt]; when the event logged at [sn - 1] for the
    credential has no stored body; when [p] is not the digest of that
    event; or when the registry has backers.  When nothing is logged at
    [sn - 1] the key of the prior event is built from [None]: what [dgKey]
    raises goes through, and [ValidationError] is raised if it lets that
    pass.  Otherwise the anchor decides, as for an issuance, and a verified
    event is logged under [nsKey(registry, credential)] at [sn].  The prior
    event is only compared by digest: its kind is not looked at, so a
    revocation chained on a revocation is logged like one chained on an
    issuance. *)
Theorem simple_revoke_outcomes (self : Tever) (serder : Serder)
    (seqner : Seqner) (diger : Diger) (sn : Z)
    (bigers : option (list Siger)) (w : World) :
  let kd := ked serder in
  let vci := nsKey [tv_prefixer self; k_i kd] in
  let anchored := Tever_verifyAnchor self serder seqner diger (db w) in
  let run := Tever_revoke self serder seqner diger sn bigers w in
  k_t kd = Ilks.rev →
  (∀ r, map_full r = false) →
  (k_p kd = None ∨ k_dt kd = None → run = (Raise ValidationError, w))
  ∧ (is_Some (k_p kd) → is_Some (k_dt kd) →
     (tels (reger w) !! snKey vci (sn - 1) = None →
      run = (match dgKey_None with
             | Ok _ => Raise ValidationError
             | Raise e => Raise e
             end, w))
     ∧ (∀ d0, tels (reger w) !! snKey vci (sn - 1) = Some d0 →
          (tvts (reger w) !! dgKey vci d0 = None →
           run = (Raise ValidationError, w))
          ∧ (∀ ie, tvts (reger w) !! dgKey vci d0 = Some ie →
               (k_p kd ≠ Some (dig ie) ∨ tv_noBackers self = false →
                run = (Raise ValidationError, w))
               ∧ (k_p kd = Some (dig ie) → tv_noBackers self = true →
                  (∀ n, Serder_sn serder = Ok n → anchored = Ok false →
                     run = (Raise MissingAnchorError,
                            let parked :=
                              set_reger (tae_escrowed serder seqner diger
                                           [] [] n (reger w)) w in
                            if is_new (snKey (Serder_pre serder) n)
                                 (taes (reger w))
                            then append_cue
                                   (CueQuery (tv_pre self) (seqner_sn seqner))
                                   parked
                            else parked))
                  ∧ (anchored = Ok true →
                     run = (Ok tt,
                            set_reger (tel_logged vci sn serder seqner diger
                                         [] [] (reger w)) w))
                  ∧ (∀ e, anchored = Raise e → run = (Raise e, w)))))).
Proof.
  intros kd vci anchored run Hilk Hfull.
  assert (run = (if negb (bool_decide (is_Some (k_p kd))
                          && bool_decide (is_Some (k_dt kd)))
                 then (Raise ValidationError, w)
                 else
                   (dig <- getTel (snKey vci (sn - 1)) ;;
                    ievt <- match dig with
                            | Some d => getTvt (dgKey vci d)
                            | None => lift dgKey_None ;;; ret None
                            end ;;
                    match ievt with
                    | None => raise ValidationError
                    | Some iserder =>
                        p <- lift (getitem (k_p kd)) ;;
                        lift (check (negb (Serder_compare iserder p))
                                ValidationError) ;;;
                        lift (check (negb (tv_noBackers self))
                                ValidationError) ;;;
                        require_anchor self serder seqner diger ;;;
                        Tever_logEvent vci sn serder seqner diger [] []
                    end)%M w)) as Hrun.
  { unfold run, Tever_revoke. fold kd. rewrite Hilk.
    rewrite decide_True by done. rewrite bind_lift.
    unfold check_labels, REV_LABELS. simpl.
    unfold has_label. simpl. fold kd.
    rewrite !andb_true_r.
    by destruct (bool_decide (is_Some (k_p kd))
                 && bool_decide (is_Some (k_dt kd))). }
  split.
  - intros Hbad. rewrite Hrun.
    destruct (bool_decide (is_Some (k_p kd))) eqn:Hp; simpl; [|done].
    destruct (bool_decide (is_Some (k_dt kd))) eqn:Hdt; simpl; [|done].
    apply bool_decide_eq_true in Hp, Hdt.
    destruct Hbad as [E|E].
    + rewrite E in Hp. by destruct Hp.
    + rewrite E in Hdt. by destruct Hdt.
  - intros Hp Hdt. rewrite Hrun. clear Hrun.
    rewrite (bool_decide_eq_true_2 (is_Some (k_p kd))) by done.
    rewrite (bool_decide_eq_true_2 (is_Some (k_dt kd))) by done. simpl.
    unfold getTel. rewrite bind_read. split.
    + intros ->. rewrite bind_assoc, bind_lift.
      destruct dgKey_None as [[]|e]; [|done]. by rewrite bind_ret.
    + intros d0 ->. unfold getTvt. rewrite bind_read. split; [by intros ->|].
      intros ie ->. destruct Hp as [p Hp]. rewrite Hp, bind_lift. simpl.
      rewrite bind_lift_check. unfold Serder_compare. split.
      * intros Hbad. case_bool_decide as Hc; simpl; [|done].
        rewrite bind_lift_check.
        destruct (tv_noBackers self); simpl; [|done].
        destruct Hbad as [Hbad|Hbad]; [congruence|done].
      * intros [= ->] Hnb.
        rewrite bool_decide_eq_true_2 by done. simpl.
        rewrite bind_lift_check, Hnb. simpl.
        destruct (require_anchor_run self serder seqner diger w Hfull)
          as (Hf & Ht & Hr).
        unfold bind. split_and!.
        -- intros n Hn Ha. by rewrite (Hf n Hn Ha).
        -- intros Ha. rewrite (Ht Ha). by rewrite logEvent_run.
        -- intros e Ha. by rewrite (Hr e Ha).
Qed.


(** ** Backer events whose anchor is missing *)

Lemma escrowALEvent_bytes (serder : Serder) (seqner : Seqner) (diger : Diger)
    (bigers : list Siger) (b : string) (l : list string) (w : World) :
  (∀ r, map_full r = false) →
  let key := dgKey (Serder_pre serder) (dig serder) in
  let r1 := upd_ancs (add_new key (seqner_sn seqner, diger_qb64 diger))
              (reger w) in
  let r2 := if truthy bigers then upd_tibs (add_vals key bigers) r1 else r1 in
  Tever_escrowALEvent serder seqner diger bigers (Bytes <$> b :: l) w
  = (Raise AttributeError, set_reger (upd_baks (delete key) r2) w).
Proof.
  intros Hfull key r1 r2. unfold Tever_escrowALEvent. fold key.
  unfold putAnc, putTibs, delBaks. rewrite bind_write by done.
  rewrite bind_when. unfold r2, r1.
  destruct (truthy bigers); simpl.
  - rewrite bind_assoc, bind_write by done. rewrite bind_ret.
    rewrite bind_assoc, bind_write by done. by rewrite bind_assoc, bind_lift.
  - rewrite bind_assoc, bind_write by done. by rewrite bind_assoc, bind_lift.
Qed.

(** X7. A backer issuance ([bis]) against a registry with backers, whose
    registry event is stored with a non-empty backer list, and whose anchor
    is not verified: [Tever.issue] does not escrow it.  [getBackerState]
    hands the backers over as [bytes], [escrowALEvent] calls [encode] on
    them, and the call ends in [AttributeError] after the anchor couple is
    stored and the backer list kept for the event is deleted: nothing is
    written to the anchorless escrow, no cue is queued, and nothing is
    logged. *)
Theorem backer_issue_without_anchor (self : Tever) (serder : Serder)
    (seqner : Seqner) (diger : Diger) (sn : Z)
    (bigers : option (list Siger)) (w : World) (rega : SealEvent)
    (rserder : Serder) (bt b : string) (l berfers : list string) :
  let kd := ked serder in
  let dgkey := dgKey (seal_i rega) (seal_d rega) in
  let run := Tever_issue self serder seqner diger sn bigers w in
  k_t kd = Ilks.bis →
  (∀ r, map_full r = false) →
  k_ra kd = Some rega → is_Some (k_dt kd) →
  tv_noBackers self = false →
  seal_i rega = tv_prefixer self →
  tvts (reger w) !! dgkey = Some rserder →
  k_bt (ked rserder) = Some bt →
  baks (reger w) !! dgkey = Some (b :: l) →
  mapM_res Verfer (b :: l) = Ok berfers →
  Tever_verifyAnchor self serder seqner diger (db w) = Ok false →
  run.1 = Raise AttributeError
  ∧ taes (reger run.2) = taes (reger w)
  ∧ tels (reger run.2) = tels (reger w)
  ∧ cues run.2 = cues w
  ∧ baks (reger run.2) !! dgKey (Serder_pre serder) (dig serder) = None.
Proof.
  intros kd dgkey run Hilk Hfull Hra Hdt Hnb Hregi Htvt Hbt Hbaks Hverf Hanc.
  assert (run = (Raise AttributeError,
                 (Tever_escrowALEvent serder seqner diger
                    (verifySigs serder bigers berfers).1
                    (Bytes <$> b :: l) w).2)) as Hrun.
  { unfold run, Tever_issue. fold kd. rewrite Hilk.
    rewrite decide_False by done. rewrite bind_lift.
    unfold check_labels, BIS_LABELS. simpl. unfold has_label. simpl. fold kd.
    rewrite (bool_decide_eq_true_2 (is_Some (k_ra kd)))
      by (rewrite Hra; by eexists).
    rewrite (bool_decide_eq_true_2 (is_Some (k_dt kd))) by done. simpl.
    rewrite bind_lift_check, Hnb. simpl.
    unfold Tever_getBackerState.
    rewrite bind_assoc, bind_lift. fold kd. rewrite Hra. simpl.
    rewrite bind_assoc, bind_lift_check.
    rewrite bool_decide_eq_false_2 by (by intros ?). fold dgkey.
    unfold getTvt. rewrite bind_assoc, bind_read, Htvt.
    rewrite bind_assoc, bind_lift, Hbt. simpl.
    unfold getBaks. rewrite bind_assoc, bind_read, Hbaks.
    change (default [] (Some (b :: l))) with (b :: l).
    rewrite bind_ret. cbn [fst snd].
    unfold Tever_valAnchorBigs. rewrite bind_assoc, bind_lift.
    assert (text_of <$> (Bytes <$> b :: l) = b :: l) as ->.
    { rewrite <- list_fmap_compose. simpl. f_equal.
      clear. induction l as [|x l IH]; simpl; [done|]. by rewrite IH. }
    rewrite Hverf. cbv zeta.
    rewrite bind_assoc. unfold verifyAnchorM at 1. unfold bind at 1.
    rewrite Hanc. simpl.
    rewrite (escrowALEvent_bytes serder seqner diger _ b l w Hfull).
    rewrite !bind_assoc. unfold bind at 1.
    by rewrite (escrowALEvent_bytes serder seqner diger _ b l w Hfull). }
  rewrite Hrun. simpl.
  rewrite (escrowALEvent_bytes serder seqner diger _ b l w Hfull). simpl.
  split_and!; try done.
  - by destruct (truthy _).
  - by destruct (truthy _).
  - by rewrite lookup_delete_eq.
Qed.


(** ** One turn of the anchorless drain *)

Lemma delTae_run (key : SnKey) (w : World) :
  (∀ r, map_full r = false) →
  (delTae key ;;; ret tt) w
  = (Ok tt, set_reger (upd_taes (delete key) (reger w)) w).
Proof. intros Hfull. unfold delTae. by rewrite bind_write by done. Qed.

Lemma unescrow_anchorless_eq (self : Tevery) (pre : string) (sn : Z)
    (digb : string) (w : World) :
  (∀ r, map_full r = false) →
  let key := snKey pre sn in
  let dgkey := dgKey pre digb in
  let stored := default [] (tibs (reger w) !! dgkey) in
  let gone w1 := set_reger (upd_taes (delete key) (reger w1)) w1 in
  unescrow_anchorless self (key, digb) w
  = match tvts (reger w) !! dgkey, ancs (reger w) !! dgkey with
    | Some tserder, Some a =>
        let again :=
          Tevery_processEvent self tserder {| seqner_sn := a.1 |}
            {| diger_qb64 := a.2 |}
            (if truthy stored then Some stored else None) w in
        match again.1 with
        | Raise MissingAnchorError => (Ok tt, again.2)
        | _ => (Ok tt, gone again.2)
        end
    | _, _ => (Ok tt, gone w)
    end.
Proof.
  intros Hfull key dgkey stored gone. subst key dgkey stored gone.
  unfold unescrow_anchorless, snKey, dgKey. cbn [fst snd].
  unfold getTvt, getTibs, getAnc. rewrite bind_read.
  destruct (tvts (reger w) !! (pre, digb)) as [tserder|] eqn:Htvt.
  2: { unfold raise. by rewrite (delTae_run (pre, sn) w Hfull). }
  rewrite !bind_read.
  destruct (ancs (reger w) !! (pre, digb)) as [a|] eqn:Hanc.
  2: { unfold raise. by rewrite (delTae_run (pre, sn) w Hfull). }
  cbv zeta.
  destruct (Tevery_processEvent self tserder _ _ _ w) as [[[]|e] w1].
  - by rewrite (delTae_run (pre, sn) w1 Hfull).
  - cbn [fst snd].
    destruct e; try done; by rewrite (delTae_run (pre, sn) w1 Hfull).
Qed.

(** X8. One turn of [processEscrowAnchorless], over a store that takes the
    writes, returns normally whatever happens to the event it retries.  If
    the body or the anchor couple of the escrowed event is not in the
    store, the [tae] entry is deleted.  Otherwise the event is handed to
    [processEvent] again with its stored signatures and anchor: when that
    raises missing-anchor the world is left as that call left it, entry
    included; when it returns, or raises anything else, the entry is deleted
    from the world that call left. *)
Theorem anchorless_turn (self : Tevery) (pre : string) (sn : Z)
    (digb : string) (w : World) :
  let key := snKey pre sn in
  let dgkey := dgKey pre digb in
  let run := unescrow_anchorless self (key, digb) w in
  let stored := default [] (tibs (reger w) !! dgkey) in
  (∀ r, map_full r = false) →
  run.1 = Ok tt
  ∧ (tvts (reger w) !! dgkey = None ∨ ancs (reger w) !! dgkey = None →
     run.2 = set_reger (upd_taes (delete key) (reger w)) w)
  ∧ (∀ tserder a,
       tvts (reger w) !! dgkey = Some tserder →
       ancs (reger w) !! dgkey = Some a →
       let again :=
         Tevery_processEvent self tserder {| seqner_sn := a.1 |}
           {| diger_qb64 := a.2 |}
           (if truthy stored then Some stored else None) w in
       (again.1 = Raise MissingAnchorError → run.2 = again.2)
       ∧ (again.1 ≠ Raise MissingAnchorError →
          run.2 = set_reger (upd_taes (delete key) (reger again.2)) again.2
          ∧ taes (reger run.2) !! key = None)).
Proof.
  intros key dgkey run stored Hfull. subst run stored dgkey key.
  rewrite (unescrow_anchorless_eq self pre sn digb w Hfull).
  destruct (tvts (reger w) !! dgKey pre digb) as [tserder|];
    [|split_and!; [done|done|by intros]].
  destruct (ancs (reger w) !! dgKey pre digb) as [a|];
    [|split_and!; [done|done|by intros]].
  cbv zeta.
  destruct (Tevery_processEvent self tserder _ _ _ w) as [[[]|e] w1] eqn:Hagain;
    cbn [fst snd].
  - split_and!; [done|by intros [|]|].
    intros ts a' [= <-] [= <-]. rewrite Hagain. cbn [fst snd].
    split; [done|]. intros _. split; [done|]. simpl. by rewrite lookup_delete_eq.
  - split_and!; [by destruct e|by intros [|]|].
    intros ts a' [= <-] [= <-]. rewrite Hagain. cbn [fst snd].
    split.
    + intros [= ->]. done.
    + intros He. destruct e; try done; split; try done; simpl;
        by rewrite lookup_delete_eq.
Qed.

(** ** Credential state *)

Lemma elem_of_tel_items (m : gmap SnKey string) (pre : string) (n : Z)
    (d : string) :
  (n, d) ∈ tel_items m pre ↔ m !! snKey pre n = Some d.
Proof.
  unfold tel_items. rewrite merge_sort_Permutation, list_elem_of_fmap.
  split.
  - intros ([[K n'] d'] & [= -> ->] & Hin).
    apply elem_of_map_to_list, map_lookup_filter_Some in Hin as [Hl HK].
    simpl in HK. by subst K.
  - intros Hl. exists (snKey pre n, d). split; [done|].
    apply elem_of_map_to_list, map_lookup_filter_Some. by split.
Qed.

Lemma tel_items_len (m : gmap SnKey string) (pre : string) :
  len (tel_items m pre) = cntTels_of m pre.
Proof.
  unfold len, tel_items, cntTels_of.
  by rewrite merge_sort_Permutation, length_fmap, length_map_to_list.
Qed.

#[local] Instance sn_le_trans : Transitive sn_le.
Proof. intros x y z. unfold sn_le. lia. Qed.

#[local] Instance sn_le_total : Total sn_le.
Proof. intros x y. unfold sn_le. lia. Qed.

Lemma sorted_last {A} (R : relation A) (l : list A) (y : A) :
  StronglySorted R l → last l = Some y → ∀ x, x ∈ l → x = y ∨ R x y.
Proof.
  induction 1 as [|a l Hs IH Hall]; [done|].
  intros Hlast x Hx. destruct l as [|b l].
  - simpl in Hlast. apply list_elem_of_singleton in Hx. left. congruence.
  - change (last (a :: b :: l)) with (last (b :: l)) in Hlast.
    apply elem_of_cons in Hx as [->|Hx]; [|by apply IH].
    right. rewrite Forall_forall in Hall. apply Hall.
    rewrite last_Some in Hlast. destruct Hlast as [l' ->].
    set_solver.
Qed.

Lemma tel_items_last (m : gmap SnKey string) (pre : string) :
  (∀ n, is_Some (m !! snKey pre n) ↔ (0 ≤ n < cntTels_of m pre)%Z) →
  (0 < cntTels_of m pre)%Z →
  ∃ d, m !! snKey pre (cntTels_of m pre - 1) = Some d
       ∧ last (tel_items m pre).*2 = Some d.
Proof.
  intros Hdense Hpos.
  destruct (proj2 (Hdense (cntTels_of m pre - 1)%Z)) as [d Hd]; [lia|].
  exists d. split; [done|].
  rewrite fmap_last.
  destruct (last (tel_items m pre)) as [[n' d']|] eqn:Hlast.
  - simpl. f_equal.
    assert ((n', d') ∈ tel_items m pre) as Hin.
    { apply last_Some in Hlast as [l' ->]. set_solver. }
    apply elem_of_tel_items in Hin.
    assert (0 ≤ n' < cntTels_of m pre)%Z as Hn' by (by apply Hdense).
    destruct (sorted_last sn_le _ _
                (StronglySorted_merge_sort sn_le _) Hlast
                (cntTels_of m pre - 1, d)%Z) as [Heq|Hle].
    + by apply elem_of_tel_items.
    + by simplify_eq.
    + unfold sn_le in Hle. simpl in Hle.
      assert (n' = (cntTels_of m pre - 1)%Z) as -> by lia. congruence.
  - apply last_None in Hlast.
    pose proof (tel_items_len m pre) as Hlen. rewrite Hlast in Hlen.
    unfold len in Hlen. simpl in Hlen. lia.
Qed.

Lemma vcState_run (self : Tever) (vcpre : string) (w : World) :
  let vci := nsKey [tv_prefixer self; vcpre] in
  let cnt := cntTels_of (tels (reger w)) vci in
  let run := Tever_vcState self vcpre w in
  (∀ n, is_Some (tels (reger w) !! snKey vci n) ↔ (0 ≤ n < cnt)%Z) →
  run.2 = w
  ∧ (cnt = 0%Z → run.1 = Ok None)
  ∧ (cnt ≠ 0%Z →
     ∃ d, tels (reger w) !! snKey vci (cnt - 1) = Some d
       ∧ match ancs (reger w) !! dgKey vci d with
         | None => run.1 = Raise TypeError
         | Some a =>
             run.1 = Ok (Some
               {| vks_v := Versify; vks_i := vcpre;
                  vks_s := hex_of_Z (cnt - 1); vks_d := d;
                  vks_ri := tv_prefixer self; vks_a := a;
                  vks_dt := nowIso8601;
                  vks_et :=
                    if bool_decide (cnt = 1%Z)
                    then (if tv_noBackers self then Ilks.iss else Ilks.bis)
                    else (if tv_noBackers self then Ilks.rev
                          else Ilks.brv) |})
         end).
Proof.
  intros vci cnt run Hdense.
  assert (0 ≤ cnt)%Z as Hnn by (unfold cnt, cntTels_of; lia).
  assert (len (tel_items (tels (reger w)) vci).*2 = cnt) as Hlen.
  { unfold len. rewrite length_fmap. apply tel_items_len. }
  unfold run, Tever_vcState, getTelItemPreIter.
  fold vci. rewrite !bind_read. rewrite Hlen.
  split_and!.
  - case_bool_decide; [done|].
    destruct (last _); [|done].
    unfold getAnc. rewrite bind_read.
    destruct (ancs (reger w) !! _); [|done].
    rewrite bind_lift. by destruct (vcstate _ _ _ _ _ _ _).
  - intros Hz. by rewrite bool_decide_eq_true_2.
  - intros Hz. rewrite bool_decide_eq_false_2 by done.
    destruct (tel_items_last (tels (reger w)) vci) as (d & Hd & Hlast);
      [done|fold cnt; lia|].
    exists d. split; [done|]. rewrite Hlast.
    unfold getAnc. rewrite bind_read.
    destruct (ancs (reger w) !! dgKey vci d) as [a|]; [|done].
    rewrite bind_lift. unfold vcstate.
    rewrite (bool_decide_eq_false_2 (cnt - 1 < 0)%Z) by lia.
    simpl check at 1. cbn [rbind].
    destruct (tv_noBackers self); destruct (bool_decide (cnt = 1%Z));
      (rewrite (bool_decide_eq_true_2 (_ ∈ _)) by set_solver); done.
Qed.

(** X9. [Tever.vcState] and [Tever.vcSn] read the store without changing
    it.  For a credential without a TEL entry both give [None].  Where the
    entries of each prefix are those below their count, [vcState] reports
    the count minus one as the sequence number (as [vcSn] does) and the
    entry there as the digest; the kind is the issuance kind for one entry
    and the revocation kind otherwise, [iss]/[rev] or [bis]/[brv] by the
    registry's trait; and a tip without a stored anchor couple is a
    [TypeError]. *)
Theorem vcState_outcomes (self : Tever) (vcpre : string) (w : World) :
  let vci := nsKey [tv_prefixer self; vcpre] in
  let cnt := cntTels_of (tels (reger w)) vci in
  let run := Tever_vcState self vcpre w in
  tel_dense (reger w) →
  run.2 = w
  ∧ Tever_vcSn self vcpre w
    = (Ok (if bool_decide (cnt = 0%Z) then None else Some (cnt - 1)%Z), w)
  ∧ (cnt = 0%Z → run.1 = Ok None)
  ∧ (cnt ≠ 0%Z →
     ∃ d, tels (reger w) !! snKey vci (cnt - 1) = Some d
       ∧ match ancs (reger w) !! dgKey vci d with
         | None => run.1 = Raise TypeError
         | Some a =>
             run.1 = Ok (Some
               {| vks_v := Versify; vks_i := vcpre;
                  vks_s := hex_of_Z (cnt - 1); vks_d := d;
                  vks_ri := tv_prefixer self; vks_a := a;
                  vks_dt := nowIso8601;
                  vks_et :=
                    if bool_decide (cnt = 1%Z)
                    then (if tv_noBackers self then Ilks.iss else Ilks.bis)
                    else (if tv_noBackers self then Ilks.rev
                          else Ilks.brv) |})
         end).
Proof.
  intros vci cnt run Hdense.
  destruct (vcState_run self vcpre w (λ n, Hdense vci n)) as (H1 & H2 & H3).
  split_and!; done.
Qed.

(** ** Reloading a verifier from a state notice *)

Lemma hex_digits_of_pos (p : positive) (rest : string) (base : N) :
  hex_digits (HexString.Raw.of_pos p rest) base
  = hex_digits rest match base with
                    | N0 => N.pos p
                    | Npos v => Npos (HexString.pos_hex_app v p)
                    end.
Proof.
  revert p rest base. fix IH 1. intros p rest base.
  do 4 try destruct p as [p|p|]; destruct base; try reflexivity;
    cbn; rewrite IH; reflexivity.
Qed.

Lemma int16_hex_of_Z (n : Z) : (0 ≤ n)%Z → int16 (hex_of_Z n) = Ok n.
Proof.
  intros Hn. destruct n as [|p|p]; [done| |lia].
  unfold int16, hex_of_Z.
  pose proof (hex_digits_of_pos p "" 0%N) as Hd. simpl in Hd.
  destruct (HexString.Raw.of_pos p "") eqn:E; [done|].
  by rewrite Hd.
Qed.

Lemma state_ok_inv (pre dg : string) (sn : Z) (ri : string) (eilk : Ilks.t)
    (br ba : list string) (a : Z * string) (toad : Z)
    (wits cnfg : list string) (n : Ksn) :
  state pre dg sn ri eilk br ba a None (Some toad) (Some wits) (Some cnfg)
  = Ok n →
  (0 ≤ sn)%Z ∧ (0 ≤ toad)%Z
  ∧ n = {| ksn_v := Versify; ksn_i := ri; ksn_s := hex_of_Z sn;
           ksn_d := dg; ksn_ii := pre; ksn_dt := nowIso8601;
           ksn_et := eilk; ksn_a := a; ksn_bt := hex_of_Z toad;
           ksn_br := br; ksn_ba := ba; ksn_b := wits; ksn_c := cnfg |}.
Proof.
  unfold state. rewrite !rbind_check.
  case_bool_decide as Hsn; [done|].
  destruct (negb _); [done|].
  change (default [] (Some wits)) with wits.
  change (default [] (Some cnfg)) with cnfg.
  destruct (bool_decide (len (oset wits) ≠ len wits)); [done|].
  assert (match (if truthy (oset wits)
                 then check (bool_decide (toad < 1)%Z
                             || bool_decide (len (oset wits) < toad)%Z)
                            ValueError
                 else check (bool_decide (toad ≠ 0%Z)) ValueError) with
          | Ok _ => (0 ≤ toad)%Z
          | Raise _ => True
          end) as Htoad.
  { destruct (truthy (oset wits)).
    - destruct (bool_decide (toad < 1)%Z) eqn:E; [done|].
      apply bool_decide_eq_false in E.
      destruct (bool_decide (len (oset wits) < toad)%Z); simpl; [done|lia].
    - case_bool_decide as E; simpl; [done|lia]. }
  destruct (if truthy (oset wits) then _ else _) as [[]|]; [|done].
  simpl rbind at 1.
  destruct (bool_decide (len (oset br) ≠ len br)); [done|].
  destruct (bool_decide (len (oset ba) ≠ len ba)); [done|].
  simpl. intros [= <-]. split_and!; [lia|done|done].
Qed.

(** X10. What [reload] makes of the notice that [Tever.state] builds for a
    verifier.  As built, the notice is refused with [ValidationError]: its
    dict has no label [t], which [reload] requires.  With [t] added,
    [reload] raises [KeyError] on [ri], which it reads and [state] does not
    write either.  With both added, and provided the registry is a
    well-formed prefix and the verifier's event is stored under its digest,
    [reload] restores the verifier: sequence number, kind, threshold,
    backers, cuts, adds, trait and event come back as they were; [pre] comes
    back as the registry identifier (the notice's [i]), not as the issuer
    the verifier held. *)
Theorem reload_of_state_notice (self : Tever) (w : World) (n : Ksn)
    (regk t : string) (local : bool) :
  (Tever_state self w).1 = Ok n →
  tv_regk self = Some regk →
  is_ok (Prefixer regk) = true →
  tvts (reger w) !! dgKey regk (dig (tv_serder self)) = Some (tv_serder self) →
  Tever_reload local (Ksn_ked n) (reger w) = inl (Raised ValidationError)
  ∧ Tever_reload local (Ksn_ked_with n t None) (reger w)
    = inl (Raised KeyError)
  ∧ Tever_reload local (Ksn_ked_with n t (Some regk)) (reger w)
    = inr {| tv_regk := Some regk; tv_local := local; tv_pre := regk;
             tv_prefixer := regk; tv_sn := tv_sn self;
             tv_serder := tv_serder self; tv_ilk := tv_ilk self;
             tv_toad := tv_toad self; tv_baks := tv_baks self;
             tv_cuts := tv_cuts self; tv_adds := tv_adds self;
             tv_noBackers := tv_noBackers self |}.
Proof.
  intros Hst Hregk Hpre Htvt. split; [done|]. split; [done|].
  unfold Tever_state in Hst. rewrite Hregk, bind_lift in Hst.
  unfold getAnc in Hst. rewrite bind_read in Hst.
  destruct (ancs (reger w) !! _) as [a|]; [|done].
  unfold lift in Hst. simpl in Hst.
  apply state_ok_inv in Hst as (Hsn & Htoad & ->).
  unfold Tever_reload. simpl.
  destruct (Prefixer regk) as [[]|]; [|done].
  rewrite (int16_hex_of_Z _ Hsn). simpl.
  rewrite (int16_hex_of_Z _ Htoad). simpl.
  rewrite Htvt. do 2 f_equal.
  destruct (tv_noBackers self).
  - apply bool_decide_eq_true_2. set_solver.
  - apply bool_decide_eq_false_2. set_solver.
Qed.

(** ** From the constructors to the credential state *)

Lemma dense_after_log (m : gmap SnKey string) (K : string) (d : string) :
  (∀ n, is_Some (m !! snKey K n) ↔ (0 ≤ n < cntTels_of m K)%Z) →
  let m' := add_new (snKey K (cntTels_of m K)) d m in
  cntTels_of m' K = (cntTels_of m K + 1)%Z
  ∧ m' !! snKey K (cntTels_of m K) = Some d
  ∧ (∀ n, is_Some (m' !! snKey K n) ↔ (0 ≤ n < cntTels_of m' K)%Z).
Proof.
  intros Hdense m'.
  assert (m !! snKey K (cntTels_of m K) = None) as Hnone.
  { apply eq_None_not_Some. rewrite Hdense. lia. }
  assert (m' = <[snKey K (cntTels_of m K) := d]> m) as ->.
  { unfold m', add_new. by rewrite Hnone. }
  rewrite (cntTels_insert_same _ _ _ _ Hnone).
  pose proof (cntTels_nonneg m K) as Hnn.
  split_and!; [done|apply lookup_insert_eq|].
  intros n. destruct (decide (n = cntTels_of m K)) as [->|Hne].
  - rewrite lookup_insert_eq. split; [lia|by eexists].
  - rewrite lookup_insert_ne by (unfold snKey; congruence).
    rewrite Hdense. lia.
Qed.

Lemma vcState_after_log (t t' : Tever) (vcpre regk : string)
    (serder : Serder) (sq : Seqner) (dg : Diger) (w : World) :
  let vci := nsKey [tv_prefixer t; vcpre] in
  let cnt := cntTels_of (tels (reger w)) vci in
  (∀ n, is_Some (tels (reger w) !! snKey vci n) ↔ (0 ≤ n < cnt)%Z) →
  let w' := set_tever regk t'
              (set_reger (tel_logged vci cnt serder sq dg [] [] (reger w))
                 w) in
  Tever_vcState t vcpre w'
  = (Ok (Some
       {| vks_v := Versify; vks_i := vcpre; vks_s := hex_of_Z cnt;
          vks_d := dig serder; vks_ri := tv_prefixer t;
          vks_a := default (seqner_sn sq, diger_qb64 dg)
                     (ancs (reger w) !! dgKey vci (dig serder));
          vks_dt := nowIso8601;
          vks_et := if bool_decide (cnt = 0%Z)
                    then (if tv_noBackers t then Ilks.iss else Ilks.bis)
                    else (if tv_noBackers t then Ilks.rev
                          else Ilks.brv) |}), w').
Proof.
  intros vci cnt Hdense w'.
  destruct (dense_after_log (tels (reger w)) vci (dig serder) Hdense)
    as (Hcnt & Htip & Hdense').
  fold cnt in Hcnt, Htip.
  assert (tels (reger w')
          = add_new (snKey vci cnt) (dig serder) (tels (reger w))) as Htels
    by done.
  assert (ancs (reger w') !! dgKey vci (dig serder)
          = Some (default (seqner_sn sq, diger_qb64 dg)
                    (ancs (reger w) !! dgKey vci (dig serder)))) as Hanc.
  { unfold w'. simpl. apply add_new_lookup. }
  pose proof (cntTels_nonneg (tels (reger w)) vci) as Hnn. fold cnt in Hnn.
  destruct (vcState_run t vcpre w') as (Hw & _ & Hsome).
  { fold vci. rewrite Htels. exact Hdense'. }
  fold vci in Hsome. rewrite Htels, Hcnt in Hsome.
  destruct Hsome as (d & Hd & Hrun); [lia|].
  replace (cnt + 1 - 1)%Z with cnt in Hd, Hrun by lia.
  rewrite Htip in Hd. injection Hd as <-.
  rewrite Hanc in Hrun.
  destruct (Tever_vcState t vcpre w') as [res w1]. simpl in Hw, Hrun.
  subst w1. rewrite Hrun. do 4 f_equal.
  destruct (decide (cnt = 0%Z)) as [Hz|Hz].
  - rewrite (bool_decide_eq_true_2 (cnt = 0%Z)) by done.
    by rewrite bool_decide_eq_true_2 by lia.
  - rewrite (bool_decide_eq_false_2 (cnt = 0%Z)) by done.
    by rewrite bool_decide_eq_false_2 by lia.
Qed.

Lemma Tever_issue_logs (self : Tever) (serder : Serder) (sq : Seqner)
    (dg : Diger) (sn : Z) (bigers : option (list Siger)) (w : World) :
  (∀ r, map_full r = false) →
  k_t (ked serder) = Ilks.iss →
  k_ri (ked serder) = Some (tv_prefixer self) →
  is_Some (k_dt (ked serder)) →
  tv_noBackers self = true →
  Tever_verifyAnchor self serder sq dg (db w) = Ok true →
  Tever_issue self serder sq dg sn bigers w
  = (Ok tt,
     set_reger (tel_logged (nsKey [tv_prefixer self; k_i (ked serder)]) sn
                  serder sq dg [] [] (reger w)) w).
Proof.
  intros Hfull Hilk Hri Hdt Hnb Ha.
  unfold Tever_issue. rewrite Hilk.
  rewrite decide_True by done. rewrite bind_lift.
  unfold check_labels, ISS_LABELS. simpl. unfold has_label. simpl.
  rewrite (bool_decide_eq_true_2 (is_Some (k_ri (ked serder))))
    by (rewrite Hri; by eexists).
  rewrite (bool_decide_eq_true_2 (is_Some (k_dt (ked serder)))) by done.
  simpl. rewrite bind_lift_check, Hnb. simpl.
  rewrite Hri, bind_lift. simpl. rewrite bind_lift_check.
  rewrite bool_decide_eq_false_2 by (by intros ?).
  destruct (require_anchor_run self serder sq dg w Hfull) as (_ & Ht & _).
  unfold bind. rewrite (Ht Ha). by rewrite logEvent_run.
Qed.

Lemma Tever_revoke_logs (self : Tever) (serder ie : Serder) (sq : Seqner)
    (dg : Diger) (sn : Z) (bigers : option (list Siger)) (d0 : string)
    (w : World) :
  let vci := nsKey [tv_prefixer self; k_i (ked serder)] in
  (∀ r, map_full r = false) →
  k_t (ked serder) = Ilks.rev →
  k_p (ked serder) = Some (dig ie) →
  is_Some (k_dt (ked serder)) →
  tels (reger w) !! snKey vci (sn - 1) = Some d0 →
  tvts (reger w) !! dgKey vci d0 = Some ie →
  tv_noBackers self = true →
  Tever_verifyAnchor self serder sq dg (db w) = Ok true →
  Tever_revoke self serder sq dg sn bigers w
  = (Ok tt, set_reger (tel_logged vci sn serder sq dg [] [] (reger w)) w).
Proof.
  intros vci Hfull Hilk Hp Hdt Htel Htvt Hnb Ha.
  unfold Tever_revoke. fold vci. rewrite Hilk.
  rewrite decide_True by done. rewrite bind_lift.
  unfold check_labels, REV_LABELS. simpl. unfold has_label. simpl.
  rewrite (bool_decide_eq_true_2 (is_Some (k_p (ked serder))))
    by (rewrite Hp; by eexists).
  rewrite (bool_decide_eq_true_2 (is_Some (k_dt (ked serder)))) by done.
  simpl. unfold getTel. rewrite bind_read, Htel.
  unfold getTvt. rewrite bind_read, Htvt.
  rewrite Hp, bind_lift. simpl. rewrite bind_lift_check.
  unfold Serder_compare. rewrite bool_decide_eq_true_2 by done. simpl.
  rewrite bind_lift_check, Hnb. simpl.
  destruct (require_anchor_run self serder sq dg w Hfull) as (_ & Ht & _).
  unfold bind. rewrite (Ht Ha). by rewrite logEvent_run.
Qed.

(** X11. A credential that was never issued, once the event that [issue]
    built for it is processed ([Serder(ked=ked)] keeping every field of the
    dict but the version string).  On a store that takes the writes and
    whose TEL entries are those below their count, for a registry in the
    cache without backers and an issuance anchored in the KEL,
    [processEvent] accepts the event, the cached verifier stays as it was,
    and [vcState] then reports the credential under sequence number [0]
    with kind [iss], the digest of the event and the anchor couple stored
    for it (the one of this call unless one was stored before); [vcSn]
    gives [0]. *)
Theorem issued_credential_is_reported (self : Tevery) (t : Tever)
    (vcdig regk : string) (dt : option string) (serder : Serder)
    (seqner : Seqner) (diger : Diger) (wigers : option (list Siger))
    (w : World) :
  let vci := nsKey [regk; vcdig] in
  let run := Tevery_processEvent self serder seqner diger wigers w in
  (∀ k, set_v (k_v k) (ked (Serder_of_ked k)) = k) →
  (∀ r, map_full r = false) →
  issue vcdig regk dt = Ok serder →
  is_ok (Prefixer vcdig) = true →
  locality_gate self regk = Ok tt →
  tevers (reger w) !! regk = Some t →
  tv_prefixer t = regk →
  tv_noBackers t = true →
  tel_dense (reger w) →
  cntTels_of (tels (reger w)) vci = 0%Z →
  Tever_verifyAnchor t serder seqner diger (db w) = Ok true →
  run.1 = Ok tt
  ∧ tevers (reger run.2) !! regk = Some t
  ∧ Tever_vcSn t vcdig run.2 = (Ok (Some 0%Z), run.2)
  ∧ Tever_vcState t vcdig run.2
    = (Ok (Some
         {| vks_v := Versify; vks_i := vcdig; vks_s := "0";
            vks_d := dig serder; vks_ri := regk;
            vks_a := default (seqner_sn seqner, diger_qb64 diger)
                       (ancs (reger w) !! dgKey vci (dig serder));
            vks_dt := nowIso8601; vks_et := Ilks.iss |}), run.2).
Proof.
  intros vci run Hser Hfull Hiss Hpre Hgate Hknown Hpfx Hnb Hdense Hcnt Ha.
  unfold issue in Hiss. simpl in Hiss. injection Hiss as Hiss.
  assert (k_i (ked serder) = vcdig ∧ k_s (ked serder) = "0"
          ∧ k_t (ked serder) = Ilks.iss ∧ k_ri (ked serder) = Some regk
          ∧ is_Some (k_dt (ked serder))) as (Hi & Hs & Hilk & Hri & Hdt).
  { rewrite <- Hiss.
    destruct dt as [d|];
      match goal with
      | |- context [Serder_of_ked ?k] =>
          pose proof (Hser k) as E;
          pose proof (f_equal k_i E) as E1; pose proof (f_equal k_s E) as E2;
          pose proof (f_equal k_t E) as E3; pose proof (f_equal k_ri E) as E4;
          pose proof (f_equal k_dt E) as E5; simpl in E1, E2, E3, E4, E5
      end; rewrite E1, E2, E3, E4, E5; split_and!; by eauto. }
  clear Hiss.
  assert (run = (Ok tt,
                 set_tever regk t
                   (set_reger (tel_logged vci 0 serder seqner diger [] []
                                 (reger w)) w))) as Hrun.
  { unfold run.
    rewrite (processEvent_known_run self serder seqner diger wigers w regk t 0).
    - unfold Serder_pre. rewrite Hilk, Hi, Hpfx. fold vci. rewrite Hcnt.
      simpl. unfold Tever_update. rewrite Hilk, Hs. simpl.
      rewrite (Tever_issue_logs t serder seqner diger 0 wigers w Hfull Hilk)
        by (rewrite ?Hpfx; done).
      by rewrite Hi, Hpfx.
    - unfold Serder_pre. by rewrite Hi.
    - unfold Tevery_registryKey. by rewrite Hilk, Hri.
    - by rewrite Hilk, Hs.
    - done.
    - done. }
  pose proof (vcState_after_log t t vcdig regk serder seqner diger w) as Hvc.
  cbv zeta in Hvc. rewrite Hpfx in Hvc. fold vci in Hvc.
  specialize (Hvc (λ n, Hdense vci n)). rewrite Hcnt, Hnb in Hvc.
  rewrite Hrun. cbn [fst snd]. split_and!.
  - done.
  - simpl. by rewrite lookup_insert_eq.
  - unfold Tever_vcSn, cntTels. rewrite bind_read.
    rewrite Hpfx. fold vci.
    destruct (dense_after_log (tels (reger w)) vci (dig serder)
                (λ n, Hdense vci n)) as (Hc & _).
    rewrite Hcnt in Hc. cbn [reger set_tever set_reger upd_tevers tels].
    change (tels (tel_logged vci 0 serder seqner diger [] [] (reger w)))
      with (add_new (snKey vci 0) (dig serder) (tels (reger w))).
    by rewrite Hc.
  - exact Hvc.
Qed.

(** X12. An issued credential, once the event that [revoke] built against
    its issuance is processed.  Under the conditions of X11, with one TEL
    entry for the credential whose stored event has the digest the
    revocation names, [processEvent] accepts the event and [vcState] then
    reports the credential under sequence number [1] with kind [rev] and
    the digest of the revocation; [vcSn] gives [1]. *)
Theorem revoked_credential_is_reported (self : Tevery) (t : Tever)
    (vcdig regk d0 : string) (ie : Serder) (dt : option string)
    (serder : Serder) (seqner : Seqner) (diger : Diger)
    (wigers : option (list Siger)) (w : World) :
  let vci := nsKey [regk; vcdig] in
  let run := Tevery_processEvent self serder seqner diger wigers w in
  (∀ k, set_v (k_v k) (ked (Serder_of_ked k)) = k) →
  (∀ r, map_full r = false) →
  revoke vcdig regk (dig ie) dt = Ok serder →
  is_ok (Prefixer vcdig) = true →
  locality_gate self regk = Ok tt →
  tevers (reger w) !! regk = Some t →
  tv_prefixer t = regk →
  tv_noBackers t = true →
  tel_dense (reger w) →
  cntTels_of (tels (reger w)) vci = 1%Z →
  tels (reger w) !! snKey vci 0 = Some d0 →
  tvts (reger w) !! dgKey vci d0 = Some ie →
  Tever_verifyAnchor t serder seqner diger (db w) = Ok true →
  run.1 = Ok tt
  ∧ tevers (reger run.2) !! regk = Some t
  ∧ Tever_vcSn t vcdig run.2 = (Ok (Some 1%Z), run.2)
  ∧ Tever_vcState t vcdig run.2
    = (Ok (Some
         {| vks_v := Versify; vks_i := vcdig; vks_s := "1";
            vks_d := dig serder; vks_ri := regk;
            vks_a := default (seqner_sn seqner, diger_qb64 diger)
                       (ancs (reger w) !! dgKey vci (dig serder));
            vks_dt := nowIso8601; vks_et := Ilks.rev |}), run.2).
Proof.
  intros vci run Hser Hfull Hrev Hpre Hgate Hknown Hpfx Hnb Hdense Hcnt
    Htel Htvt Ha.
  unfold revoke in Hrev. simpl in Hrev. injection Hrev as Hrev.
  assert (k_i (ked serder) = vcdig ∧ k_s (ked serder) = "1"
          ∧ k_t (ked serder) = Ilks.rev ∧ k_p (ked serder) = Some (dig ie)
          ∧ k_ri (ked serder) = Some regk
          ∧ is_Some (k_dt (ked serder)))
    as (Hi & Hs & Hilk & Hp & Hri & Hdt).
  { rewrite <- Hrev.
    destruct dt as [d|];
      match goal with
      | |- context [Serder_of_ked ?k] =>
          pose proof (Hser k) as E;
          pose proof (f_equal k_i E) as E1; pose proof (f_equal k_s E) as E2;
          pose proof (f_equal k_t E) as E3; pose proof (f_equal k_p E) as E4;
          pose proof (f_equal k_ri E) as E5; pose proof (f_equal k_dt E) as E6;
          simpl in E1, E2, E3, E4, E5, E6
      end; rewrite E1, E2, E3, E4, E5, E6; split_and!; by eauto. }
  clear Hrev.
  assert (run = (Ok tt,
                 set_tever regk t
                   (set_reger (tel_logged vci 1 serder seqner diger [] []
                                 (reger w)) w))) as Hrun.
  { unfold run.
    rewrite (processEvent_known_run self serder seqner diger wigers w regk t 1).
    - unfold Serder_pre. rewrite Hilk, Hi, Hpfx. fold vci. rewrite Hcnt.
      simpl. unfold Tever_update. rewrite Hilk, Hs. simpl.
      rewrite (Tever_revoke_logs t serder ie seqner diger 1 wigers d0 w Hfull
                 Hilk Hp Hdt)
        by (rewrite ?Hi, ?Hpfx; done).
      by rewrite Hi, Hpfx.
    - unfold Serder_pre. by rewrite Hi.
    - unfold Tevery_registryKey. by rewrite Hilk, Hri.
    - by rewrite Hilk, Hs.
    - done.
    - done. }
  pose proof (vcState_after_log t t vcdig regk serder seqner diger w) as Hvc.
  cbv zeta in Hvc. rewrite Hpfx in Hvc. fold vci in Hvc.
  specialize (Hvc (λ n, Hdense vci n)). rewrite Hcnt, Hnb in Hvc.
  rewrite Hrun. cbn [fst snd]. split_and!.
  - done.
  - simpl. by rewrite lookup_insert_eq.
  - unfold Tever_vcSn, cntTels. rewrite bind_read.
    rewrite Hpfx. fold vci.
    destruct (dense_after_log (tels (reger w)) vci (dig serder)
                (λ n, Hdense vci n)) as (Hc & _).
    rewrite Hcnt in Hc. cbn [reger set_tever set_reger upd_tevers tels].
    change (tels (tel_logged vci 1 serder seqner diger [] [] (reger w)))
      with (add_new (snKey vci 1) (dig serder) (tels (reger w))).
    by rewrite Hc.
  - exact Hvc.
Qed.

Lemma incept_backerless (pre : string) (toad : pyarg)
    (cnfg0 : option (list string)) (serder : Serder) :
  (∀ k, set_v (k_v k) (ked (Serder_of_ked k)) = k) →
  incept pre toad None cnfg0 = Ok serder →
  k_t (ked serder) = Ilks.vcp ∧ k_s (ked serder) = "0"
  ∧ k_ii (ked serder) = Some pre
  ∧ k_c (ked serder) = Some (default [] cnfg0)
  ∧ k_bt (ked serder) = Some "0" ∧ k_b (ked serder) = Some [].
Proof.
  intros Hser. unfold incept. simpl.
  rewrite andb_false_r. simpl.
  assert (∀ k, Ok (Serder_of_ked k) = Ok serder →
            k_s k = "0" → k_t k = Ilks.vcp →
            k_ii k = Some pre → k_c k = Some (default [] cnfg0) →
            k_bt k = Some "0" → k_b k = Some [] →
            k_t (ked serder) = Ilks.vcp ∧ k_s (ked serder) = "0"
            ∧ k_ii (ked serder) = Some pre
            ∧ k_c (ked serder) = Some (default [] cnfg0)
            ∧ k_bt (ked serder) = Some "0" ∧ k_b (ked serder) = Some [])
    as Hk.
  { intros k [= <-] Hs Ht Hii Hc Hbt Hb.
    pose proof (Hser k) as E.
    pose proof (f_equal k_s E) as E1. pose proof (f_equal k_t E) as E2.
    pose proof (f_equal k_ii E) as E3. pose proof (f_equal k_c E) as E4.
    pose proof (f_equal k_bt E) as E5. pose proof (f_equal k_b E) as E6.
    simpl in E1, E2, E3, E4, E5, E6.
    rewrite E1, E2, E3, E4, E5, E6. done. }
  destruct toad as [|n|s]; simpl.
  - intros Hb. by apply (Hk _ Hb).
  - case_bool_decide as Hn; simpl; [done|].
    assert (n = 0%Z) as -> by (by destruct (decide (n = 0%Z))).
    intros Hb. by apply (Hk _ Hb).
  - done.
Qed.

(** X13. A registry without backers, once the event that [incept] built
    for it is processed ([Serder(ked=ked)] keeping every field of the dict
    but the version string).  On a store that takes the writes, for a
    registry that is not in the cache, whose prefix is well formed and
    verifies against the event, and an inception anchored in the issuer's
    KEL, [processEvent] accepts the event and caches a verifier at sequence
    number [0] with the issuer of the call, no backers, threshold [0] and
    the trait of the configuration; the TEL has an entry at [0] (the digest
    of the event unless one was there), and the pinned state notice is the
    one of that verifier. *)
Theorem incepted_registry_is_cached (self : Tevery) (pre : string)
    (toad : pyarg) (cnfg0 : option (list string)) (serder : Serder)
    (seqner : Seqner) (diger : Diger) (wigers : option (list Siger))
    (w : World) :
  let regk := Serder_pre serder in
  let nb := bool_decide (TraitDex.NoBackers ∈ default [] cnfg0) in
  let run := Tevery_processEvent self serder seqner diger wigers w in
  (∀ k, set_v (k_v k) (ked (Serder_of_ked k)) = k) →
  (∀ r, map_full r = false) →
  incept pre toad None cnfg0 = Ok serder →
  is_ok (Prefixer regk) = true →
  Prefixer_verify regk (ked serder) = true →
  locality_gate self regk = Ok tt →
  tevers (reger w) !! regk = None →
  (∀ t0, tv_pre t0 = pre →
     Tever_verifyAnchor t0 serder seqner diger (db w) = Ok true) →
  run.1 = Ok tt
  ∧ tevers (reger run.2) !! regk
    = Some {| tv_regk := Some regk; tv_local := ty_local self;
              tv_pre := pre; tv_prefixer := regk; tv_sn := 0;
              tv_serder := serder; tv_ilk := Ilks.vcp; tv_toad := 0;
              tv_baks := []; tv_cuts := []; tv_adds := [];
              tv_noBackers := nb |}
  ∧ tels (reger run.2) !! snKey regk 0
    = Some (default (dig serder) (tels (reger w) !! snKey regk 0))
  ∧ states (reger run.2) !! regk
    = Some {| ksn_v := Versify; ksn_i := regk; ksn_s := "0";
              ksn_d := dig serder; ksn_ii := pre; ksn_dt := nowIso8601;
              ksn_et := Ilks.vcp;
              ksn_a := default (seqner_sn seqner, diger_qb64 diger)
                         (ancs (reger w) !! dgKey regk (dig serder));
              ksn_bt := "0"; ksn_br := []; ksn_ba := []; ksn_b := [];
              ksn_c := if nb then [TraitDex.NoBackers] else [] |}.
Proof.
  intros regk nb run Hser Hfull Hinc Hpre Hver Hgate Hnew Ha.
  destruct (incept_backerless pre toad cnfg0 serder Hser Hinc)
    as (Hilk & Hs & Hii & Hc & Hbt & Hb).
  clear Hinc.
  assert (validateSN "0" true = Ok 0%Z) as Hsn by (by vm_compute).
  set (t := {| tv_regk := Some regk; tv_local := ty_local self;
               tv_pre := pre; tv_prefixer := regk; tv_sn := 0;
               tv_serder := serder; tv_ilk := Ilks.vcp; tv_toad := 0;
               tv_baks := []; tv_cuts := []; tv_adds := [];
               tv_noBackers := nb |}).
  set (st := {| ksn_v := Versify; ksn_i := regk; ksn_s := "0";
                ksn_d := dig serder; ksn_ii := pre; ksn_dt := nowIso8601;
                ksn_et := Ilks.vcp;
                ksn_a := default (seqner_sn seqner, diger_qb64 diger)
                           (ancs (reger w) !! dgKey regk (dig serder));
                ksn_bt := "0"; ksn_br := []; ksn_ba := []; ksn_b := [];
                ksn_c := if nb then [TraitDex.NoBackers] else [] |}).
  set (logged := tel_logged regk 0 serder seqner diger
                   (verifySigs serder wigers []).1 [] (reger w)).
  assert (Tever_init (ty_regk self) (ty_local self) None serder seqner diger
            wigers w
          = (Ok t, set_reger (upd_states (insert regk st) logged) w))
    as Hinit.
  { unfold Tever_init. rewrite Hilk, bind_lift_check.
    rewrite bool_decide_eq_true_2 by set_solver. simpl negb. cbv iota.
    rewrite bind_lift.
    unfold check_labels, VCP_LABELS. simpl forallb. unfold has_label.
    simpl. rewrite Hbt, Hb, Hc. simpl.
    assert (Tever_incept serder = Ok (pre, 0%Z, [], 0%Z)) as Hi.
    { unfold Tever_incept. rewrite Hii, Hs, Hb, Hbt, Hsn. fold regk.
      simpl. destruct (Prefixer regk) as [[]|]; [|done]. simpl.
      by rewrite Hver. }
    assert (Tever_config serder None = Ok nb) as Hcfg.
    { unfold Tever_config. rewrite Hc. simpl. unfold nb.
      by case_bool_decide. }
    rewrite bind_lift, Hi, bind_lift, Hcfg. cbn [fst snd].
    cbn [tv_toad tv_baks tv_prefixer tv_pre tv_sn]. fold regk.
    assert (∀ t0, tv_pre t0 = pre →
              Tever_valAnchorBigs t0 serder seqner diger wigers (PyInt 0)
                (Str <$> []) w
              = (Ok (verifySigs serder wigers []).1, w)) as Hval.
    { intros t0 Hp. unfold Tever_valAnchorBigs. simpl. rewrite bind_lift.
      unfold verifyAnchorM. unfold bind at 1. rewrite (Ha t0 Hp). simpl.
      unfold must_verify_toad. by simpl. }
    unfold bind at 1. rewrite Hval by done.
    unfold bind at 1. rewrite logEvent_run by done. fold logged.
    assert (ancs logged !! dgKey regk (dig serder)
            = Some (default (seqner_sn seqner, diger_qb64 diger)
                      (ancs (reger w) !! dgKey regk (dig serder)))) as Hanc.
    { unfold logged, tel_logged. simpl.
      destruct (truthy _); simpl; apply add_new_lookup. }
    unfold Tever_state. cbn [tv_regk tv_cuts tv_adds tv_noBackers tv_serder
                             tv_pre tv_sn tv_ilk tv_toad tv_baks].
    rewrite bind_assoc, bind_lift. unfold getAnc.
    rewrite bind_assoc, bind_read. cbn [reger set_reger]. rewrite Hanc.
    rewrite bind_lift.
    assert (state pre (dig serder) 0 regk Ilks.vcp [] []
              (default (seqner_sn seqner, diger_qb64 diger)
                 (ancs (reger w) !! dgKey regk (dig serder)))
              None (Some 0%Z) (Some [])
              (Some (if nb then [TraitDex.NoBackers] else []))
            = Ok st) as ->.
    { unfold state. by simpl. }
    unfold pinStates. by rewrite bind_write by done. }
  assert (run = (Ok tt,
                 set_tever regk t
                   (set_reger (upd_states (insert regk st) logged) w)))
    as Hrun.
  { unfold run, Tevery_processEvent. fold regk.
    rewrite bind_lift. destruct (Prefixer regk) as [[]|]; [|done].
    unfold Tevery_registryKey. rewrite Hilk, Hs, bind_lift. fold regk.
    rewrite bool_decide_eq_true_2 by set_solver.
    rewrite bind_lift, Hsn, bind_lift, Hgate.
    unfold get_tever. rewrite bind_read, Hnew.
    rewrite bool_decide_eq_true_2 by set_solver.
    unfold bind. by rewrite Hinit. }
  rewrite Hrun. cbn [fst snd]. split_and!.
  - done.
  - simpl. by rewrite lookup_insert_eq.
  - assert (tels (reger (set_tever regk t
                           (set_reger (upd_states (insert regk st) logged)
                              w)))
            = tels logged) as -> by done.
    unfold logged. rewrite tel_logged_tels.
    unfold add_new. destruct (tels (reger w) !! snKey regk 0) eqn:E.
    + by rewrite E.
    + by rewrite lookup_insert_eq.
  - simpl. by rewrite lookup_insert_eq.
Qed.

(** ** From the constructors to the validation of the verifier *)

Lemma rotate_newbakset_ok_inv (baks cuts adds nb : list string) :
  rotate_newbakset baks cuts adds = Ok nb →
  len (oset baks) = len baks
  ∧ len (oset cuts) = len cuts
  ∧ oset_inter (oset baks) (oset cuts) = oset cuts
  ∧ len (oset adds) = len adds
  ∧ truthy (oset_inter (oset cuts) (oset adds)) = false
  ∧ truthy (oset_inter (oset baks) (oset adds)) = false
  ∧ nb = oset_union (oset_diff (oset baks) (oset cuts)) (oset adds)
  ∧ len nb = (len baks - len cuts + len adds)%Z.
Proof.
  unfold rotate_newbakset. rewrite !rbind_check.
  case_bool_decide as H1; [done|].
  case_bool_decide as H2; [done|].
  case_bool_decide as H3; [done|].
  case_bool_decide as H4; [done|].
  destruct (truthy (oset_inter (oset cuts) (oset adds))) eqn:H5; [done|].
  destruct (truthy (oset_inter (oset baks) (oset adds))) eqn:H6; [done|].
  case_bool_decide as H7; [done|].
  simpl. intros [= <-].
  split_and!; try done; by apply dec_stable.
Qed.

(** The threshold a constructor writes: the [int] it was given, or the
    default it computes for [None]. *)
Lemma built_toad (toad : pyarg) (bks : list string) (r : pyarg) :
  match toad with
  | PyStr _ => t <- format_x toad ;; Ok (PyStr t)
  | PyNone => if truthy bks then Ok (PyInt (ample (len bks)))
              else Ok (PyInt 0)
  | PyInt _ => Ok toad
  end%res = Ok r →
  ∃ t, r = PyInt t
       ∧ (∀ n, toad = PyInt n → t = n)
       ∧ (toad = PyNone → t = if truthy bks then ample (len bks) else 0%Z).
Proof.
  destruct toad as [|n|s]; simpl.
  - destruct (truthy bks); intros [= <-]; eexists; split_and!; done.
  - intros [= <-]. exists n. split_and!; [done| |done]. by intros ? [= ->].
  - done.
Qed.

Lemma built_toad_check (t : Z) (bks : list string) :
  (if truthy bks
   then lo <- py_lt (PyInt t) 1 ;;
        hi <- (if lo then Ok true else py_gt (PyInt t) (len bks)) ;;
        check hi ValueError
   else check (py_ne (PyInt t) 0) ValueError)%res = Ok tt →
  (0 ≤ t)%Z
  ∧ (if truthy bks
     then check (bool_decide (t < 1)%Z || bool_decide (len bks < t)%Z)
                ValidationError
     else check (bool_decide (t ≠ 0%Z)) ValidationError) = Ok tt.
Proof.
  destruct (truthy bks); simpl.
  - case_bool_decide as H1; simpl; [done|].
    case_bool_decide as H2; simpl; [done|]. intros _. split; [lia|done].
  - case_bool_decide as H1; simpl; [done|]. intros _. split; [lia|done].
Qed.

(** X14. An event that a constructor built passes the validation the
    verifier runs on it ([Serder(ked=ked)] keeping every field of the dict
    but the version string).  The inception that [incept] built for [pre],
    with a prefix that [Prefixer] takes and that verifies, is validated by
    [Tever.incept] with that issuer, sequence number [0], the backers given
    and the threshold written, and [Tever.config] reads the trait of the
    configuration.  The rotation that [rotate] built for a verifier's
    registry, against its event, its next sequence number and its backers,
    is validated by [Tever.rotate] with the cuts and adds given, the new
    backer list of the constructor and the threshold written.  The
    threshold written is the [int] given, or the default for [None]; it
    comes back from its hexadecimal form. *)
Theorem built_events_validate :
  (∀ k, set_v (k_v k) (ked (Serder_of_ked k)) = k) →
  (∀ pre toad baks0 cnfg0 serder,
     incept pre toad baks0 cnfg0 = Ok serder →
     is_ok (Prefixer (Serder_pre serder)) = true →
     Prefixer_verify (Serder_pre serder) (ked serder) = true →
     ∃ t, Tever_incept serder = Ok (pre, 0%Z, default [] baks0, t)
          ∧ (∀ n, toad = PyInt n → t = n)
          ∧ (toad = PyNone →
             t = if truthy (default [] baks0)
                 then ample (len (default [] baks0)) else 0%Z)
          ∧ Tever_config serder None
            = Ok (bool_decide (TraitDex.NoBackers ∈ default [] cnfg0)))
  ∧ (∀ self toad cuts0 adds0 serder,
       rotate (tv_prefixer self) (dig (tv_serder self)) (tv_sn self + 1) toad
         (Some (tv_baks self)) cuts0 adds0 = Ok serder →
       ∃ t nb,
         rotate_newbakset (tv_baks self) (default [] cuts0) (default [] adds0)
         = Ok nb
         ∧ Tever_rotate self serder (tv_sn self + 1)
           = Ok (t, nb, default [] cuts0, default [] adds0)
         ∧ (∀ n, toad = PyInt n → t = n)
         ∧ (toad = PyNone →
            t = if truthy nb then ample (len nb) else 0%Z)).
Proof.
  intros Hser. split.
  - intros pre toad baks0 cnfg0 serder. unfold incept.
    set (bks := default [] baks0). set (cnfg := default [] cnfg0).
    rewrite !rbind_check.
    destruct (_ && _); [done|].
    case_bool_decide as Hdup; [done|].
    destruct (match toad with PyNone => _ | _ => _ end) as [r|] eqn:Ht;
      [|done].
    apply built_toad in Ht as (t & -> & Hint & Hnone).
    cbn [rbind].
    match goal with
    | |- rbind ?c _ = _ → _ => destruct c as [[]|] eqn:Hchk; [|done]
    end.
    apply built_toad_check in Hchk as [Hnn Hchk].
    simpl. intros [= <-] Hpre Hver.
    match goal with
    | |- context [Serder_of_ked ?k] =>
        pose proof (Hser k) as E; set (sd := Serder_of_ked k) in *
    end.
    pose proof (f_equal k_s E) as E1. pose proof (f_equal k_ii E) as E2.
    pose proof (f_equal k_c E) as E3. pose proof (f_equal k_bt E) as E4.
    pose proof (f_equal k_b E) as E5. simpl in E1, E2, E3, E4, E5.
    exists t. split_and!; [|done|done|].
    + unfold Tever_incept. rewrite E1, E2, E4, E5. simpl.
      destruct (Prefixer (Serder_pre sd)) as [[]|]; [|done]. simpl.
      rewrite Hver. simpl.
      rewrite (bool_decide_eq_false_2 (len (oset bks) ≠ len bks))
        by (intros Hne; by apply Hne).
      simpl. rewrite (int16_hex_of_Z t Hnn). simpl.
      by rewrite Hchk.
    + unfold Tever_config. rewrite E3. simpl.
      by destruct (bool_decide (TraitDex.NoBackers ∈ cnfg)).
  - intros self toad cuts0 adds0 serder. unfold rotate.
    set (cuts := default [] cuts0). set (adds := default [] adds0).
    change (default [] (Some (tv_baks self))) with (tv_baks self).
    rewrite rbind_check. case_bool_decide as Hsn; [done|].
    destruct (rotate_newbakset (tv_baks self) cuts adds) as [nb|] eqn:Hnb;
      [|done].
    cbn [rbind].
    destruct (match toad with PyNone => _ | _ => _ end) as [r|] eqn:Ht;
      [|done].
    apply built_toad in Ht as (t & -> & Hint & Hnone).
    cbn [rbind].
    match goal with
    | |- rbind ?c _ = _ → _ => destruct c as [[]|] eqn:Hchk; [|done]
    end.
    apply built_toad_check in Hchk as [Hnn Hchk].
    simpl. intros [= <-].
    match goal with
    | |- context [Serder_of_ked ?k] =>
        pose proof (Hser k) as E; set (sd := Serder_of_ked k) in *
    end.
    pose proof (f_equal k_i E) as E1. pose proof (f_equal k_p E) as E2.
    pose proof (f_equal k_br E) as E3. pose proof (f_equal k_ba E) as E4.
    pose proof (f_equal k_bt E) as E5. simpl in E1, E2, E3, E4, E5.
    exists t, nb. split_and!; [done| |done|done].
    apply rotate_newbakset_ok_inv in Hnb
      as (_ & H2 & H3 & H4 & H5 & H6 & Hnb & H7).
    unfold Tever_rotate, Serder_pre, Serder_compare.
    rewrite E1, E2, E3, E4, E5. simpl. rewrite !rbind_check.
    rewrite (bool_decide_eq_false_2 (tv_prefixer self ≠ tv_prefixer self))
      by (by intros ?).
    rewrite (bool_decide_eq_true_2 (_ = _ :> Z)) by done.
    rewrite (bool_decide_eq_true_2 (dig _ = dig _)) by done. simpl.
    fold cuts adds.
    rewrite (bool_decide_eq_false_2 (len (oset cuts) ≠ len cuts))
      by (intros Hne; by apply Hne).
    rewrite (bool_decide_eq_false_2 (oset_inter _ _ ≠ oset cuts))
      by (intros Hne; by apply Hne).
    rewrite (bool_decide_eq_false_2 (len (oset adds) ≠ len adds))
      by (intros Hne; by apply Hne).
    rewrite H5, H6. rewrite <- Hnb.
    rewrite (bool_decide_eq_false_2 (len nb ≠ _))
      by (intros Hne; by apply Hne).
    rewrite (int16_hex_of_Z t Hnn). simpl.
    by rewrite Hchk.
Qed.


(** ** The state notice of a cached verifier *)

Lemma tever_sound_grows (R : string) (t : Tever) (r r' : Registry) :
  store_grows r r' → tever_sound R t r → tever_sound R t r'.
Proof.
  intros (_ & _ & Hanc & _) (? & ? & ? & ? & ? & ? & ? & ? & [a Ha]).
  split_and!; try done. exists a. by apply Hanc.
Qed.

Lemma cache_sound_extends (w w' : World) :
  extends w w' → cache_sound (reger w) → cache_sound (reger w').
Proof.
  intros (Hgrow & Htev & _) Hs R t Ht. rewrite Htev in Ht.
  eapply tever_sound_grows; [exact Hgrow|by apply Hs].
Qed.

Lemma cache_sound_quiet {A} (c : M A) (w : World) :
  quiet c → cache_sound (reger w) → cache_sound (reger (c w).2).
Proof. intros Hq. apply cache_sound_extends, Hq. Qed.

Lemma cache_sound_set_tever (regk : string) (t : Tever) (w0 w : World) :
  extends w0 w → cache_sound (reger w0) → tever_sound regk t (reger w) →
  cache_sound (reger (set_tever regk t w)).
Proof.
  intros Hext Hs Ht R t' Hl. simpl in Hl.
  assert (∀ R0 t0, tever_sound R0 t0 (reger w) →
            tever_sound R0 t0 (reger (set_tever regk t w))) as Hkeep.
  { intros R0 t0 (? & ? & ? & ? & ? & ? & ? & ? & ?). by split_and!. }
  destruct (decide (R = regk)) as [->|Hne].
  - rewrite lookup_insert_eq in Hl. injection Hl as <-. by apply Hkeep.
  - rewrite lookup_insert_ne in Hl by done. apply Hkeep.
    by apply (cache_sound_extends w0 w Hext Hs).
Qed.

Lemma Tever_init_anchored (regk : option string) (local : bool)
    (nb : option bool) (serder : Serder) (seqner : Seqner) (diger : Diger)
    (bigers : option (list Siger)) (w w' : World) (t : Tever) :
  Tever_init regk local nb serder seqner diger bigers w = (Ok t, w') →
  is_Some (ancs (reger w') !! dgKey (Serder_pre serder) (dig serder)).
Proof.
  unfold Tever_init. intros Hrun.
  apply bind_ok_inv in Hrun as ([] & w1 & _ & Hrun).
  apply bind_ok_inv in Hrun as ([] & w2 & _ & Hrun).
  apply bind_ok_inv in Hrun as (inc & w3 & _ & Hrun).
  apply bind_ok_inv in Hrun as (nbk & w4 & _ & Hrun).
  simpl in Hrun.
  apply bind_ok_inv in Hrun as (bg & w5 & _ & Hrun).
  apply bind_ok_inv in Hrun as ([] & w6 & _ & Hrun).
  apply bind_ok_inv in Hrun as (st & w7 & Hst & Hrun).
  apply bind_ok_inv in Hrun as (b & w8 & Hpin & Hrun).
  injection Hrun as _ <-.
  apply store_write_ok_inv in Hpin as (_ & _ & ->). simpl.
  unfold Tever_state in Hst. simpl in Hst.
  rewrite bind_lift in Hst. unfold getAnc in Hst. rewrite bind_read in Hst.
  destruct (ancs (reger w6) !! _) as [a|] eqn:Ha; [|done].
  unfold lift in Hst.
  destruct (state _ _ _ _ _ _ _ _ _ _ _ _); [|done].
  injection Hst as _ <-. by eexists.
Qed.

Lemma update_sound (R : string) (self : Tever) (serder : Serder)
    (seqner : Seqner) (diger : Diger) (bigers : option (list Siger))
    (w : World) :
  (∀ r, map_full r = false) →
  tever_sound R self (reger w) →
  let upd := Tever_update self serder seqner diger bigers w in
  tever_sound R upd.1.2 (reger upd.2).
Proof.
  intros Hfull Hs.
  assert (∀ w', extends w w' → tever_sound R self (reger w')) as Hkeep.
  { intros w' (Hgrow & _). by eapply tever_sound_grows. }
  assert (tever_sound R self (reger w)) as Hs0 by done.
  destruct Hs as (Hregk & Hpfx & Hsn0 & Hilk0 & Hb & Hc & Ha & Ht & Hanc).
  unfold Tever_update. cbv zeta.
  destruct (validateSN _ _) as [sn|] eqn:Hsn; [|done].
  destruct (k_t (ked serder)) eqn:Hilk; try done.
  - (* vrt *)
    destruct (tv_noBackers self); [done|].
    destruct (Tever_rotate self serder sn)
      as [[[[toad nb] cuts] adds]|] eqn:Hrot; [|done].
    pose proof (quiet_valAnchorBigs self serder seqner diger bigers
                  (PyInt toad) (Str <$> nb) w) as Hq.
    destruct (Tever_valAnchorBigs _ _ _ _ _ _ _ w) as [[bg|e] w1];
      simpl in Hq; [|by apply Hkeep].
    apply validateSN_sn in Hsn as [_ Hsn]. simpl in Hsn.
    destruct (update_vrt_tail self serder seqner diger sn toad nb cuts adds
                bg w1 Hfull) as [st Htail];
      [by rewrite Hregk, Hpfx|done|done|].
    cbv zeta in Htail. rewrite Htail. cbn [fst snd].
    apply Tever_rotate_ok in Hrot as (_ & _ & _ & Hnb & Hcu & Had & Hto).
    unfold tever_sound. simpl. split_and!; try done.
    + lia.
    + set_solver.
    + rewrite Hpfx. unfold tel_logged. simpl.
      destruct (truthy bg), (truthy nb); simpl; rewrite add_new_lookup;
        by eexists.
  - apply Hkeep. apply quiet_issue.
  - apply Hkeep. apply quiet_revoke.
  - apply Hkeep. apply quiet_issue.
  - apply Hkeep. apply quiet_revoke.
Qed.

Lemma processEvent_cache_sound (self : Tevery) (serder : Serder)
    (seqner : Seqner) (diger : Diger) (wigers : option (list Siger))
    (w : World) :
  (∀ r, map_full r = false) →
  cache_sound (reger w) →
  cache_sound
    (reger (Tevery_processEvent self serder seqner diger wigers w).2).
Proof.
  intros Hfull Hs. unfold Tevery_processEvent.
  rewrite bind_lift. destruct (Prefixer _) as [[]|]; [|done].
  rewrite bind_lift.
  destruct (Tevery_registryKey serder) as [regk|] eqn:Hkey; [|done].
  rewrite bind_lift. destruct (validateSN _ _) as [sn|]; [|done].
  rewrite bind_lift. destruct (locality_gate _ _) as [[]|]; [|done].
  unfold get_tever. rewrite bind_read.
  destruct (tevers (reger w) !! regk) as [tever|] eqn:Hknown.
  - destruct (bool_decide (k_t (ked serder) ∈ [Ilks.vcp])); [done|].
    assert (∀ sno,
              cache_sound
                (reger ((if bool_decide (sno < sn)%Z
                         then Tevery_escrowOOEvent serder seqner diger ;;;
                              raise OutOfOrderError
                         else if bool_decide (sn = sno)
                              then fun w0 =>
                                     let r := Tever_update tever serder seqner
                                                diger wigers w0 in
                                     (r.1.1, set_tever regk r.1.2 r.2)
                              else raise LikelyDuplicitousError) w).2))
      as Hgo.
    { intros sno. destruct (bool_decide (sno < sn)%Z).
      - apply cache_sound_quiet; [apply quiet_escrow_raise|done].
      - destruct (bool_decide (sn = sno)); [|done].
        cbn [fst snd].
        apply (cache_sound_set_tever regk _ w); [|done|].
        + apply extends_update.
        + apply update_sound; [done|by apply Hs]. }
    destruct (bool_decide (k_t (ked serder) ∈ [Ilks.vrt])).
    + rewrite bind_ret. apply Hgo.
    + unfold Tever_vcSn, cntTels. rewrite !bind_assoc, bind_read, !bind_ret.
      apply Hgo.
  - destruct (bool_decide (k_t (ked serder) ∈ [Ilks.vcp])) eqn:Hvcp.
    + apply bool_decide_eq_true in Hvcp.
      assert (k_t (ked serder) = Ilks.vcp) as Hilk by set_solver.
      unfold Tevery_registryKey in Hkey. rewrite Hilk in Hkey.
      injection Hkey as <-.
      pose proof (quiet_init (ty_regk self) (ty_local self) None serder
                    seqner diger wigers w) as Hq.
      unfold bind.
      destruct (Tever_init _ _ _ _ _ _ _ w) as [[t|e] w1] eqn:Hinit;
        simpl in Hq; [|by apply (cache_sound_extends w w1)].
      cbn [fst snd].
      apply (cache_sound_set_tever _ _ w); [done|done|].
      pose proof (Tever_init_anchored _ _ _ _ _ _ _ _ _ _ Hinit) as Hanc.
      apply Tever_init_ok in Hinit
        as (_ & Hr & Hp & _ & Hsn & Hsd & Hi & _ & _ & Hnd & Hto & Hc & Ha
            & _).
      unfold tever_sound. rewrite Hr, Hp, Hsn, Hsd, Hi, Hc, Ha.
      split_and!; try done; [set_solver|apply NoDup_nil_2|apply NoDup_nil_2].
    + apply cache_sound_quiet; [apply quiet_escrow_raise|done].
Qed.

Lemma for_each_cache_sound {A} (l : list A) (f : A → M unit) (w : World) :
  (∀ a w1, cache_sound (reger w1) → cache_sound (reger (f a w1).2)) →
  cache_sound (reger w) → cache_sound (reger (for_each l f w).2).
Proof.
  intros Hf. revert w. induction l as [|a l IH]; intros w Hs; [done|].
  simpl. unfold bind. specialize (Hf a w Hs).
  destruct (f a w) as [[[]|e] w1]; simpl in *; [by apply IH|done].
Qed.

Lemma processEscrows_cache_sound (self : Tevery) (w : World) :
  (∀ r, map_full r = false) →
  cache_sound (reger w) →
  cache_sound (reger (Tevery_processEscrows self w).2).
Proof.
  intros Hfull Hs. unfold Tevery_processEscrows. cbn [snd].
  unfold bind.
  assert (cache_sound
            (reger (Tevery_processEscrowAnchorless self w).2)) as Hs1.
  { unfold Tevery_processEscrowAnchorless, getTaeItemIter.
    rewrite bind_read. apply for_each_cache_sound; [|done].
    intros [[pre sn] digb] w1 Hw1.
    pose proof (unescrow_anchorless_eq self pre sn digb w1 Hfull) as E.
    cbv zeta in E. change (snKey pre sn, digb) with ((pre, sn), digb) in E.
    rewrite E. clear E.
    assert (∀ w2, cache_sound (reger w2) →
              cache_sound
                (reger (set_reger (upd_taes (delete (snKey pre sn))
                                     (reger w2)) w2))) as Hdel.
    { intros w2 Hw2 R t Ht. simpl in Ht.
      destruct (Hw2 R t Ht) as (? & ? & ? & ? & ? & ? & ? & ? & ?).
      by split_and!. }
    destruct (tvts (reger w1) !! _); [|by apply Hdel].
    destruct (ancs (reger w1) !! _); [|by apply Hdel].
    cbv zeta.
    match goal with
    | |- context [Tevery_processEvent ?s ?e ?q ?d ?g w1] =>
        pose proof (processEvent_cache_sound s e q d g w1 Hfull Hw1) as Hp;
        destruct (Tevery_processEvent s e q d g w1) as [[[]|e0] w2]
    end; simpl in Hp; cbn [fst snd].
    - by apply Hdel.
    - destruct e0; try (by apply Hdel); done. }
  destruct (Tevery_processEscrowAnchorless self w) as [[[]|e] w1];
    simpl in Hs1; [|done].
  by rewrite processEscrowOutOfOrders_skip.
Qed.

(** X15. Over a store that takes its writes, [Tever.state] never fails on
    a verifier of the cache: in every world the dispatcher reaches, each
    cached verifier names its registry, has a sequence number that is not
    negative, an inception or a rotation as its last event, duplicate-free
    backers, cuts and adds, a threshold within its backers and a stored
    anchor couple for its event; so [state] builds its notice, with the
    registry as [i], the issuer as [ii], the verifier's sequence number and
    threshold in hexadecimal, its event's digest and its backers, and
    leaves the world as it was. *)
Theorem state_builds_for_cached_registries (U : Serder → Prop)
    (self : Tevery) (w : World) (R : string) (t : Tever) :
  (∀ r, map_full r = false) →
  reachable U self w →
  tevers (reger w) !! R = Some t →
  ∃ a, ancs (reger w) !! dgKey R (dig (tv_serder t)) = Some a
       ∧ Tever_state t w
         = (Ok {| ksn_v := Versify; ksn_i := R; ksn_s := hex_of_Z (tv_sn t);
                  ksn_d := dig (tv_serder t); ksn_ii := tv_pre t;
                  ksn_dt := nowIso8601; ksn_et := tv_ilk t; ksn_a := a;
                  ksn_bt := hex_of_Z (tv_toad t); ksn_br := tv_cuts t;
                  ksn_ba := tv_adds t; ksn_b := tv_baks t;
                  ksn_c := if tv_noBackers t then [TraitDex.NoBackers]
                           else [] |}, w).
Proof.
  intros Hfull Hreach Ht.
  assert (cache_sound (reger w)) as Hs.
  { clear Ht. induction Hreach as [kel|w kel _ IH|w e sq dg wg _ IH _|w _ IH].
    - intros R' t' Hl. simpl in Hl. by rewrite lookup_empty in Hl.
    - done.
    - by apply processEvent_cache_sound.
    - by apply processEscrows_cache_sound. }
  destruct (Hs R t Ht)
    as (Hregk & Hpfx & Hsn & Hilk & Hb & Hc & Ha & Hto & [a Hanc]).
  exists a. split; [done|].
  unfold Tever_state. rewrite Hregk, bind_lift. unfold getAnc.
  rewrite bind_read, Hanc. unfold lift. f_equal.
  pose proof (state_ok (tv_pre t) (dig (tv_serder t)) (tv_sn t) R (tv_ilk t)
                (tv_cuts t) (tv_adds t) a (tv_toad t) (tv_baks t)
                (if tv_noBackers t then [TraitDex.NoBackers] else [])
                Hsn Hilk Hb Hc Ha Hto) as Hok.
  destruct (state _ _ _ _ _ _ _ _ _ _ _ _) as [st|] eqn:Hst; [|done].
  by apply state_ok_inv in Hst as (_ & _ & ->).
Qed.

End Further.

(** ** The further properties on the sample runs *)

Lemma sample_keeps_fields (k : Ked) :
  set_v (k_v k) (ked (@Serder_of_ked sample_ext k)) = k.
Proof. by destruct k. Qed.

Lemma sample_world_inv :
  @world_inv sample_ext sample_events (reger world_rev).
Proof.
  apply (@reachable_inv sample_ext sample_events sample_events_apart
           (fun _ => eq_refl) sample_prefixer_namespaced sample_tevery).
  apply world_rev_reachable.
Qed.

Lemma built_events_apart (e1 e2 : Serder) :
  built_events e1 → built_events e2 → dig e1 = dig e2 → e1 = e2.
Proof.
  unfold built_events. rewrite !elem_of_cons, !elem_of_nil.
  intros [->|[->|[->|[]]]] [->|[->|[->|[]]]]; simpl; intros Hd;
    first [reflexivity | discriminate Hd].
Qed.

Lemma built_world_iss_reachable :
  @reachable sample_ext built_events sample_tevery built_world_iss.
Proof.
  unfold built_world_iss, built_world_vcp, run_event.
  repeat (apply @reach_event; [|unfold built_events; set_solver]).
  apply @reach_empty.
Qed.

Lemma built_world_vcp_dense : tel_dense (reger built_world_vcp).
Proof.
  apply (@reachable_inv sample_ext built_events built_events_apart
           (fun _ => eq_refl) sample_prefixer_namespaced sample_tevery).
  unfold built_world_vcp, run_event.
  apply @reach_event; [|unfold built_events; set_solver].
  apply @reach_empty.
Qed.

Lemma built_world_iss_dense : tel_dense (reger built_world_iss).
Proof.
  apply (@reachable_inv sample_ext built_events built_events_apart
           (fun _ => eq_refl) sample_prefixer_namespaced sample_tevery).
  apply built_world_iss_reachable.
Qed.

Lemma world_rev_dense : tel_dense (reger world_rev).
Proof. apply sample_world_inv. Qed.

Lemma reachable_log_is_dense_witness :
  let r := reger world_rev in
  (∀ K n, is_Some (tels r !! snKey K n) ↔ (0 ≤ n < cntTels_of (tels r) K)%Z)
  ∧ cntTels_of (tels r) "ER:EV" = 2%Z
  ∧ is_Some (tevers r !! "ER").
Proof.
  intros r.
  destruct (@reachable_log_is_dense sample_ext sample_events sample_tevery
              world_rev sample_events_apart (fun _ => eq_refl)
              sample_prefixer_namespaced world_rev_reachable)
    as (Hdense & _ & Hlogged & _).
  split_and!; [exact Hdense | by_run |].
  apply Hlogged; by_run.
Defined.

Lemma processEvent_turns_away_witness :
  run_event (Build_Serder (mk_ked "ER" "0" Ilks.ksn) "Dksn") 1 "K1" None
    world_vcp
  = (Raise ValidationError, world_vcp).
Proof.
  destruct (@processEvent_turns_away sample_ext sample_tevery
              (Build_Serder (mk_ked "ER" "0" Ilks.ksn) "Dksn")
              (anchor 1 "K1").1 (anchor 1 "K1").2 None world_vcp)
    as (_ & Hok).
  destruct Hok as (Hilk & _); [by_run|].
  apply Hilk. set_solver.
Defined.

Lemma cache_entry_comes_from_inception_witness :
  (run_event sample_vcp 1 "K1" None (empty_world sample_kel)).1 = Ok tt
  ∧ is_Some (states (reger world_vcp) !! "ER").
Proof.
  destruct (@cache_entry_comes_from_inception sample_ext sample_tevery
              sample_vcp (anchor 1 "K1").1 (anchor 1 "K1").2 None
              (empty_world sample_kel) "ER" sample_tever)
    as (Hok & _ & _ & _ & _ & _ & _ & _ & _ & _ & _ & _ & _ & _ & Hst);
    [by_run | by_run |].
  split; [exact Hok | exact Hst].
Defined.

Lemma simple_issue_outcomes_witness :
  @Tever_issue sample_ext sample_tever sample_iss (anchor 2 "K2").1
    (anchor 2 "K2").2 0 None world_vcp
  = (Ok tt,
     set_reger (@tel_logged sample_ext "ER:EV" 0 sample_iss (anchor 2 "K2").1
                  (anchor 2 "K2").2 [] [] (reger world_vcp)) world_vcp).
Proof.
  destruct (@simple_issue_outcomes sample_ext sample_tever sample_iss
              (anchor 2 "K2").1 (anchor 2 "K2").2 0%Z None world_vcp
              eq_refl (fun _ => eq_refl)) as (_ & Hgood).
  destruct Hgood as (_ & Hlog & _); [by eexists | reflexivity | reflexivity |].
  apply Hlog. by_run.
Defined.

Lemma simple_revoke_outcomes_witness :
  @Tever_revoke sample_ext sample_tever sample_rev (anchor 3 "K3").1
    (anchor 3 "K3").2 1 None world_iss
  = (Ok tt,
     set_reger (@tel_logged sample_ext "ER:EV" 1 sample_rev (anchor 3 "K3").1
                  (anchor 3 "K3").2 [] [] (reger world_iss)) world_iss).
Proof.
  destruct (@simple_revoke_outcomes sample_ext sample_tever sample_rev
              (anchor 3 "K3").1 (anchor 3 "K3").2 1%Z None world_iss
              eq_refl (fun _ => eq_refl)) as (_ & Hgood).
  destruct Hgood as (_ & Hprior); [by eexists | by eexists |].
  destruct (Hprior "Diss") as (_ & Hbody); [by_run|].
  destruct (Hbody sample_iss) as (_ & Hlink); [by_run|].
  destruct Hlink as (_ & Hlog & _); [reflexivity | reflexivity |].
  apply Hlog. by_run.
Defined.

Lemma backer_issue_without_anchor_witness :
  let run := @Tever_issue sample_ext sample_btever sample_bis
               (anchor 9 "K9").1 (anchor 9 "K9").2 0
               (sample_sigs [0; 1]%nat) world_bvcp in
  run.1 = Raise AttributeError
  ∧ taes (reger run.2) = taes (reger world_bvcp)
  ∧ cues run.2 = cues world_bvcp.
Proof.
  intros run.
  destruct (@backer_issue_without_anchor sample_ext sample_btever sample_bis
              (anchor 9 "K9").1 (anchor 9 "K9").2 0%Z
              (sample_sigs [0; 1]%nat) world_bvcp
              {| seal_i := "EB"; seal_s := "0"; seal_d := "Dbvcp" |}
              sample_bvcp "2" "B1" ["B2"; "B3"] ["B1"; "B2"; "B3"])
    as (Hres & Htae & _ & Hcue & _);
    [reflexivity | reflexivity | reflexivity | by eexists | reflexivity
    | reflexivity | by_run | reflexivity | by_run | reflexivity | by_run |].
  split_and!; [exact Hres | exact Htae | exact Hcue].
Defined.

Lemma anchorless_turn_witness :
  let run := @unescrow_anchorless sample_ext sample_tevery
               (snKey "EV" 0, "Diss") world_parked in
  run.1 = Ok tt ∧ taes (reger run.2) !! snKey "EV" 0 = Some "Diss".
Proof.
  intros run.
  destruct (@anchorless_turn sample_ext sample_tevery "EV" 0%Z "Diss"
              world_parked (fun _ => eq_refl)) as (Hok & _).
  split; [exact Hok | by_run].
Defined.

Lemma vcState_outcomes_witness :
  (@Tever_vcState sample_ext sample_tever "EV" world_rev).2 = world_rev
  ∧ Tever_vcSn sample_tever "EV" world_rev
    = (Ok (Some 1%Z), world_rev).
Proof.
  destruct (@vcState_outcomes sample_ext sample_tever "EV" world_rev
              world_rev_dense) as (Hw & Hsn & _).
  split; [exact Hw|]. rewrite Hsn. by_run.
Defined.

Lemma reload_of_state_notice_witness :
  @Tever_reload sample_ext true (Ksn_ked sample_ksn) (reger world_vcp)
  = inl (Raised ValidationError)
  ∧ @Tever_reload sample_ext true (Ksn_ked_with sample_ksn "ksn" None)
      (reger world_vcp)
    = inl (Raised KeyError)
  ∧ @Tever_reload sample_ext true
      (Ksn_ked_with sample_ksn "ksn" (Some "ER")) (reger world_vcp)
    = inr {| tv_regk := Some "ER"; tv_local := true; tv_pre := "ER";
             tv_prefixer := "ER"; tv_sn := 0; tv_serder := sample_vcp;
             tv_ilk := Ilks.vcp; tv_toad := 0; tv_baks := [];
             tv_cuts := []; tv_adds := []; tv_noBackers := true |}.
Proof.
  apply (@reload_of_state_notice sample_ext sample_tever world_vcp sample_ksn
           "ER" "ksn" true); by_run.
Defined.

Lemma incepted_registry_is_cached_witness :
  (run_event built_vcp 1 "K1" None (empty_world built_kel)).1 = Ok tt
  ∧ tevers (reger built_world_vcp) !! "EEI" = Some built_tever.
Proof.
  destruct (@incepted_registry_is_cached sample_ext sample_tevery "EI" PyNone
              (Some [TraitDex.NoBackers]) built_vcp (anchor 1 "K1").1
              (anchor 1 "K1").2 None (empty_world built_kel)
              sample_keeps_fields (fun _ => eq_refl))
    as (Hok & Hcache & _); [by_run | by_run | by_run | by_run | by_run | |].
  - intros t0 Hpre. unfold Tever_verifyAnchor. rewrite Hpre. by_run.
  - split; [exact Hok | exact Hcache].
Defined.

Lemma issued_credential_is_reported_witness :
  (run_event built_iss 2 "K2" None built_world_vcp).1 = Ok tt
  ∧ @Tever_vcState sample_ext built_tever "EV" built_world_iss
    = (Ok (Some {| vks_v := "KERI10JSON000000_"; vks_i := "EV";
                   vks_s := "0"; vks_d := "DEV0"; vks_ri := "EEI";
                   vks_a := (2%Z, "K2");
                   vks_dt := "2021-01-01T00:00:00.000000+00:00";
                   vks_et := Ilks.iss |}), built_world_iss).
Proof.
  destruct (@issued_credential_is_reported sample_ext sample_tevery
              built_tever "EV" "EEI" None built_iss (anchor 2 "K2").1
              (anchor 2 "K2").2 None built_world_vcp
              sample_keeps_fields (fun _ => eq_refl))
    as (Hok & _ & _ & Hvc);
    [by_run | by_run | by_run | by_run | by_run | by_run
    | exact built_world_vcp_dense | by_run | by_run |].
  split; [exact Hok | exact Hvc].
Defined.

Lemma revoked_credential_is_reported_witness :
  (run_event built_rev 3 "K3" None built_world_iss).1 = Ok tt
  ∧ Tever_vcSn built_tever "EV"
      (run_event built_rev 3 "K3" None built_world_iss).2
    = (Ok (Some 1%Z), (run_event built_rev 3 "K3" None built_world_iss).2).
Proof.
  destruct (@revoked_credential_is_reported sample_ext sample_tevery
              built_tever "EV" "EEI" "DEV0" built_iss None built_rev
              (anchor 3 "K3").1 (anchor 3 "K3").2 None built_world_iss
              sample_keeps_fields (fun _ => eq_refl))
    as (Hok & _ & Hsn & _);
    [by_run | by_run | by_run | by_run | by_run | by_run
    | exact built_world_iss_dense | by_run | by_run | by_run | by_run |].
  split; [exact Hok | exact Hsn].
Defined.

Lemma built_events_validate_witness :
  (∃ t, @Tever_incept sample_ext built_vcp = Ok ("EI", 0%Z, [], t))
  ∧ (∃ t nb, @Tever_rotate sample_ext sample_btever built_vrt 1
             = Ok (t, nb, ["B2"], ["B4"])).
Proof.
  destruct (@built_events_validate sample_ext sample_keeps_fields)
    as [Hinc Hrot].
  split.
  - destruct (Hinc "EI" PyNone None (Some [TraitDex.NoBackers]) built_vcp)
      as (t & Ht & _); [by_run | by_run | reflexivity |].
    by exists t.
  - destruct (Hrot sample_btever (PyInt 2) (Some ["B2"]) (Some ["B4"])
                built_vrt) as (t & nb & _ & Ht & _); [by_run|].
    by exists t, nb.
Defined.

Lemma state_builds_for_cached_registries_witness :
  ∃ a, ancs (reger world_rev) !! dgKey "ER" "Dvcp" = Some a
       ∧ @Tever_state sample_ext sample_tever world_rev
         = (Ok {| ksn_v := "KERI10JSON000000_"; ksn_i := "ER"; ksn_s := "0";
                  ksn_d := "Dvcp"; ksn_ii := "EI";
                  ksn_dt := "2021-01-01T00:00:00.000000+00:00";
                  ksn_et := Ilks.vcp; ksn_a := a; ksn_bt := "0";
                  ksn_br := []; ksn_ba := []; ksn_b := [];
                  ksn_c := ["NB"] |}, world_rev).
Proof.
  apply (@state_builds_for_cached_registries sample_ext sample_events
           sample_tevery world_rev "ER" sample_tever (fun _ => eq_refl)
           world_rev_reachable).
  by_run.
Defined.
